(** * A paper-analysis assistant: text extraction, prompt pipeline, JSON recovery

    Shallow embedding of [api.py], [pdf_processor.py] and the functions of
    [main.py] outside the user interface, followed by the properties the
    specification states about them and by further properties of the code.

    Python values are modelled as follows.
    - [str] is a list of Unicode code points ([len], slicing and the regular
      expressions of the source all count code points, not bytes).
    - Exceptions are records of a class, the text [str(e)] and, for the
      [requests] family, the attached response; [except C] is the subclass
      test [isinstance_exn].
    - Effects (the log, the HTTP POSTs issued, the PDF handles open) are
      threaded through a state-and-exception monad [M].
    - The outside world (process environment, the HTTP endpoint, the files
      on disk as seen by libmagic, mimetypes and PyMuPDF) is an explicit
      argument of every operation that reads it.
    - The calls to the operating system (directories, temporary files, the
      configuration file) are answered by a record [Os.os]; the changes
      they make and [st.session_state] are threaded, with the state above,
      through the monad [Os.IO]. *)

From Stdlib Require Import ZArith NArith Ascii String Lia DecimalPos DecimalFacts.
From stdpp Require Import base option list strings gmap.

Set Default Proof Using "Type".
Set Warnings "-register-all".

Local Open Scope N_scope.

(** ** Python [str] *)

Module Str.

(** One Unicode code point, and a Python [str]. *)
Abbreviation char := N (only parsing).
Abbreviation str := (list N) (only parsing).

Definition len (s : str) : N := N.of_nat (length s).

(** [s[:n]] for a non-negative [n]. *)
Definition slice_to (n : N) (s : str) : str := take (N.to_nat n) s.

(** [sep.join(parts)]. *)
Fixpoint join (sep : str) (parts : list str) : str :=
  match parts with
  | [] => []
  | [p] => p
  | p :: rest => p ++ sep ++ join sep rest
  end.

Definition eqb (a b : str) : bool := bool_decide (a = b).

(** Code points of a literal written in this file: the UTF-8 decoding of
    the bytes of a [string]. Only used on literals, which are valid UTF-8. *)
Definition byte_of (a : ascii) : N := N_of_ascii a.

Fixpoint utf8_points (bs : list N) (fuel : nat) : str :=
  match fuel with
  | O => []
  | S fuel =>
    match bs with
    | [] => []
    | b0 :: r0 =>
      if b0 <? 0x80 then b0 :: utf8_points r0 fuel
      else if b0 <? 0xE0 then
        match r0 with
        | b1 :: r1 => ((b0 - 0xC0) * 64 + (b1 - 0x80)) :: utf8_points r1 fuel
        | _ => []
        end
      else if b0 <? 0xF0 then
        match r0 with
        | b1 :: b2 :: r2 =>
          ((b0 - 0xE0) * 4096 + (b1 - 0x80) * 64 + (b2 - 0x80)) :: utf8_points r2 fuel
        | _ => []
        end
      else
        match r0 with
        | b1 :: b2 :: b3 :: r3 =>
          ((b0 - 0xF0) * 262144 + (b1 - 0x80) * 4096 + (b2 - 0x80) * 64 + (b3 - 0x80))
            :: utf8_points r3 fuel
        | _ => []
        end
    end
  end.

Definition u (lit : string) : str :=
  let bs := map byte_of (list_ascii_of_string lit) in
  utf8_points bs (length bs).

Arguments u : simpl never.

(** A one-character literal. *)
Definition c (lit : string) : char := default 0 (head (u lit)).

(** [int.__repr__] *)
Fixpoint str_of_uint (d : Decimal.uint) : str :=
  match d with
  | Decimal.Nil => []
  | Decimal.D0 d => 0x30 :: str_of_uint d
  | Decimal.D1 d => 0x31 :: str_of_uint d
  | Decimal.D2 d => 0x32 :: str_of_uint d
  | Decimal.D3 d => 0x33 :: str_of_uint d
  | Decimal.D4 d => 0x34 :: str_of_uint d
  | Decimal.D5 d => 0x35 :: str_of_uint d
  | Decimal.D6 d => 0x36 :: str_of_uint d
  | Decimal.D7 d => 0x37 :: str_of_uint d
  | Decimal.D8 d => 0x38 :: str_of_uint d
  | Decimal.D9 d => 0x39 :: str_of_uint d
  end.

Definition str_of_int (z : Z) : str :=
  match z with
  | Z0 => [0x30]
  | Zpos p => str_of_uint (Pos.to_uint p)
  | Zneg p => 0x2D :: str_of_uint (Pos.to_uint p)
  end.

(** [s.encode('utf-8')]. [None] stands for the [UnicodeEncodeError] that a
    surrogate code point raises. *)
Definition utf8_char (x : char) : option (list N) :=
  if x <? 0x80 then Some [x]
  else if x <? 0x800 then Some [0xC0 + x / 64; 0x80 + x mod 64]
  else if x <? 0x10000 then
    if (0xD800 <=? x) && (x <=? 0xDFFF) then None
    else Some [0xE0 + x / 4096; 0x80 + (x / 64) mod 64; 0x80 + x mod 64]
  else Some [0xF0 + x / 262144; 0x80 + (x / 4096) mod 64;
             0x80 + (x / 64) mod 64; 0x80 + x mod 64].

Fixpoint encode_utf8 (s : str) : option (list N) :=
  match s with
  | [] => Some []
  | x :: s' =>
    match utf8_char x, encode_utf8 s' with
    | Some b, Some r => Some (b ++ r)
    | _, _ => None
    end
  end.

(** A continuation byte. *)
Definition is_cont (b : N) : bool := (0x80 <=? b) && (b <=? 0xBF).

Definition push (x : char) (r : option str) : option str :=
  match r with
  | Some t => Some (x :: t)
  | None => None
  end.

(** [data.decode('utf-8')], strict: no overlong form, no surrogate, nothing
    above U+10FFFF. [None] stands for [UnicodeDecodeError]. *)
Fixpoint decode_utf8 (bs : list N) : option str :=
  match bs with
  | [] => Some []
  | b0 :: r0 =>
    if b0 <? 0x80 then push b0 (decode_utf8 r0)
    else if (0xC2 <=? b0) && (b0 <=? 0xDF) then
      match r0 with
      | b1 :: r1 =>
        if is_cont b1
        then push ((b0 - 0xC0) * 64 + (b1 - 0x80)) (decode_utf8 r1)
        else None
      | _ => None
      end
    else if (0xE0 <=? b0) && (b0 <=? 0xEF) then
      match r0 with
      | b1 :: b2 :: r2 =>
        let x := (b0 - 0xE0) * 4096 + (b1 - 0x80) * 64 + (b2 - 0x80) in
        if is_cont b1 && is_cont b2 && (0x800 <=? x)
           && negb ((0xD800 <=? x) && (x <=? 0xDFFF))
        then push x (decode_utf8 r2)
        else None
      | _ => None
      end
    else if (0xF0 <=? b0) && (b0 <=? 0xF4) then
      match r0 with
      | b1 :: b2 :: b3 :: r3 =>
        let x := (b0 - 0xF0) * 262144 + (b1 - 0x80) * 4096
                 + (b2 - 0x80) * 64 + (b3 - 0x80) in
        if is_cont b1 && is_cont b2 && is_cont b3
           && (0x10000 <=? x) && (x <=? 0x10FFFF)
        then push x (decode_utf8 r3)
        else None
      | _ => None
      end
    else None
  end.

End Str.

Import Str.

(** ** The fragment of [re] the source uses *)

Module Re.

(** Patterns. Repetition is only ever applied to a one-character class in
    the three patterns of [api.py], so [Star] takes a class; [greedy]
    distinguishes [*] from [*?]. There is one capture group. *)
Inductive regex :=
| Empty
| Lit (x : char)
| Class (p : char -> bool)
| Star (greedy : bool) (p : char -> bool)
| Bol                               (* ^ without re.MULTILINE *)
| Eol                               (* $ without re.MULTILINE *)
| Group (r : regex)
| Cat (r1 r2 : regex).

Fixpoint lits (s : str) : regex :=
  match s with
  | [] => Empty
  | x :: s' => Cat (Lit x) (lits s')
  end.

(** [\s] on a [str] pattern: the code points for which
    [Py_UNICODE_ISSPACE] holds. *)
Definition isspace (x : char) : bool :=
  ((0x09 <=? x) && (x <=? 0x0D)) || ((0x1C <=? x) && (x <=? 0x20))
  || (x =? 0x85) || (x =? 0xA0) || (x =? 0x1680)
  || ((0x2000 <=? x) && (x <=? 0x200A))
  || (x =? 0x2028) || (x =? 0x2029) || (x =? 0x202F) || (x =? 0x205F)
  || (x =? 0x3000).

(** [[\s\S]] *)
Definition anychar (x : char) : bool := true.

(** [[^c]] *)
Definition notchar (c0 : char) (x : char) : bool := negb (x =? c0).

(** The span of group 1, as (start, end) offsets into the subject. *)
Definition span := option (nat * nat).

Section Matcher.
Context {R : Type}.

(** A continuation receives the offset reached, the capture, and the
    text that remains from that offset. Returning [None] makes the
    matcher backtrack. *)
Definition cont := nat -> span -> str -> option R.

Fixpoint star_greedy (p : char -> bool) (k : cont)
    (i : nat) (g : span) (rest : str) : option R :=
  match rest with
  | x :: rest' =>
    if p x then
      match star_greedy p k (S i) g rest' with
      | Some r => Some r
      | None => k i g rest
      end
    else k i g rest
  | [] => k i g rest
  end.

Fixpoint star_lazy (p : char -> bool) (k : cont)
    (i : nat) (g : span) (rest : str) : option R :=
  match k i g rest with
  | Some r => Some r
  | None =>
    match rest with
    | x :: rest' => if p x then star_lazy p k (S i) g rest' else None
    | [] => None
    end
  end.

Fixpoint run (r : regex) (k : cont) (i : nat) (g : span) (rest : str) : option R :=
  match r with
  | Empty => k i g rest
  | Lit x0 =>
    match rest with
    | x :: rest' => if x =? x0 then k (S i) g rest' else None
    | [] => None
    end
  | Class p =>
    match rest with
    | x :: rest' => if p x then k (S i) g rest' else None
    | [] => None
    end
  | Star true p => star_greedy p k i g rest
  | Star false p => star_lazy p k i g rest
  | Bol => match i with O => k i g rest | S _ => None end
  | Eol =>
    (* end of string, or just before a newline that ends the string *)
    match rest with
    | [] => k i g rest
    | [x] => if x =? 0x0A then k i g rest else None
    | _ => None
    end
  | Group r1 => run r1 (fun j _ rest' => k j (Some (i, j)) rest') i g rest
  | Cat r1 r2 => run r1 (run r2 k) i g rest
  end.
End Matcher.

(** A match object: the span of the whole match and of group 1. *)
Record match_object := Match { m_start : nat; m_end : nat; m_group1 : span }.

(** One attempt at offset [i]. With [must_advance] (set by [sub] after an
    empty match) a match that ends where it starts is refused. *)
Definition match_at (r : regex) (must_advance : bool) (i : nat) (rest : str)
    : option match_object :=
  run r
    (fun j g _ => if must_advance && (j =? i)%nat then None else Some (Match i j g))
    i None rest.

(** The scan of [re.search]: try offset [i], then every later offset;
    [must_advance] applies to the first attempt only. *)
Fixpoint search_from (r : regex) (must_advance : bool) (i : nat) (rest : str)
    : option match_object :=
  match match_at r must_advance i rest with
  | Some mo => Some mo
  | None =>
    match rest with
    | [] => None
    | _ :: rest' => search_from r false (S i) rest'
    end
  end.

(** [re.search(r, s)] *)
Definition search (r : regex) (s : str) : option match_object :=
  search_from r false O s.

(** [m.group(1)] for a match [m] on subject [s]; a group that did not
    take part in the match yields the empty text here (the source only
    asks for a group that always takes part). *)
Definition group1 (s : str) (mo : match_object) : str :=
  match m_group1 mo with
  | Some (b, e) => take (e - b) (drop b s)
  | None => []
  end.

(** The loop of [re.sub(r, repl, s)] for a literal replacement: [rest] is
    the subject from offset [i] on, and everything before [i] has been
    emitted. Each round either ends (no match) or moves on: past a
    non-empty match, or to a state that refuses the next empty match. *)
Fixpoint sub_loop (fuel : nat) (r : regex) (repl : str) (must_advance : bool)
    (i : nat) (rest : str) : str :=
  match fuel with
  | O => rest
  | S fuel =>
    match search_from r must_advance i rest with
    | None => rest
    | Some mo =>
      let b := m_start mo in
      let e := m_end mo in
      take (b - i) rest ++ repl
        ++ sub_loop fuel r repl (e =? b)%nat e (drop (e - i) rest)
    end
  end.

Definition sub (r : regex) (repl : str) (s : str) : str :=
  sub_loop (2 * length s + 2) r repl false O s.

End Re.

(** ** The [json] module *)

Module Json.

(** What [json.loads] builds. A Python float is kept as the literal it
    was read from ([JFloat]): binary64 arithmetic is outside this
    embedding. A [dict] is its items in insertion order, keys distinct. *)
Inductive json :=
| JNull
| JBool (b : bool)
| JInt (z : Z)
| JFloat (lit : str)
| JStr (s : str)
| JArr (items : list json)
| JObj (items : list (str * json)).

(** [d[k] = v] on an insertion-ordered dict. *)
Fixpoint dict_set (k : str) (v : json) (d : list (str * json)) : list (str * json) :=
  match d with
  | [] => [(k, v)]
  | (k', v') :: d' => if Str.eqb k k' then (k, v) :: d' else (k', v') :: dict_set k v d'
  end.

(** [dict(pairs)] *)
Definition dict_of_pairs (pairs : list (str * json)) : list (str * json) :=
  foldl (fun d kv => dict_set kv.1 kv.2 d) [] pairs.

(** [d.get(k)] *)
Fixpoint dict_get (k : str) (d : list (str * json)) : option json :=
  match d with
  | [] => None
  | (k', v) :: d' => if Str.eqb k k' then Some v else dict_get k d'
  end.

(** *** Decoding: [json.loads] with the default (strict) decoder *)

(** [WHITESPACE = [ \t\n\r]*] *)
Definition is_ws (x : char) : bool :=
  (x =? 0x20) || (x =? 0x09) || (x =? 0x0A) || (x =? 0x0D).

Fixpoint skip_ws (s : str) : str :=
  match s with
  | x :: s' => if is_ws x then skip_ws s' else s
  | [] => []
  end.

Definition is_digit (x : char) : bool := (0x30 <=? x) && (x <=? 0x39).

Definition hex_val (x : char) : option N :=
  if (0x30 <=? x) && (x <=? 0x39) then Some (x - 0x30)
  else if (0x61 <=? x) && (x <=? 0x66) then Some (x - 0x61 + 10)
  else if (0x41 <=? x) && (x <=? 0x46) then Some (x - 0x41 + 10)
  else None.

(** The four hex digits of a [\uXXXX] escape. *)
Definition hex4 (h1 h2 h3 h4 : char) : option N :=
  a ← hex_val h1; b ← hex_val h2; c ← hex_val h3; d ← hex_val h4;
  Some (((a * 16 + b) * 16 + c) * 16 + d).

(** The [BACKSLASH] table of [json.decoder]. *)
Definition unescape (e : char) : option char :=
  if e =? 0x22 then Some 0x22            (* quote *)
  else if e =? 0x5C then Some 0x5C       (* backslash *)
  else if e =? 0x2F then Some 0x2F       (* solidus *)
  else if e =? 0x62 then Some 0x08       (* b: backspace *)
  else if e =? 0x66 then Some 0x0C       (* f: form feed *)
  else if e =? 0x6E then Some 0x0A       (* n: newline *)
  else if e =? 0x72 then Some 0x0D       (* r: carriage return *)
  else if e =? 0x74 then Some 0x09       (* t: tab *)
  else None.

Definition is_high_surrogate (x : N) : bool := (0xD800 <=? x) && (x <=? 0xDBFF).
Definition is_low_surrogate (x : N) : bool := (0xDC00 <=? x) && (x <=? 0xDFFF).
Definition join_surrogates (hi lo : N) : N :=
  0x10000 + (((hi - 0xD800) * 1024) + (lo - 0xDC00)).

Definition cons_char (x : char) (r : option (str * str)) : option (str * str) :=
  '(t, rest) ← r; Some (x :: t, rest).

(** [scanstring(s, end, strict=True)], entered just after the opening
    quote: the decoded text and what follows the closing quote. *)
Fixpoint scanstring (s : str) : option (str * str) :=
  match s with
  | [] => None                                   (* unterminated string *)
  | x :: r =>
    if x =? 0x22 then Some ([], r)
    else if x =? 0x5C then
      match r with
      | [] => None
      | e :: r1 =>
        if e =? 0x75 then
          match r1 with
          | h1 :: h2 :: h3 :: h4 :: r2 =>
            match hex4 h1 h2 h3 h4 with
            | None => None                       (* invalid \uXXXX escape *)
            | Some uni =>
              if is_high_surrogate uni then
                match r2 with
                | b :: v :: l1 :: l2 :: l3 :: l4 :: r3 =>
                  if (b =? 0x5C) && (v =? 0x75) then
                    match hex4 l1 l2 l3 l4 with
                    | None => None
                    | Some uni2 =>
                      if is_low_surrogate uni2
                      then cons_char (join_surrogates uni uni2) (scanstring r3)
                      else cons_char uni (scanstring r2)
                    end
                  else cons_char uni (scanstring r2)
                | _ => cons_char uni (scanstring r2)
                end
              else cons_char uni (scanstring r2)
            end
          | _ => None
          end
        else
          match unescape e with
          | Some ch => cons_char ch (scanstring r1)
          | None => None                         (* invalid \escape *)
          end
      end
    else if x <? 0x20 then None                  (* invalid control character *)
    else cons_char x (scanstring r)
  end.

(** A maximal run of ASCII digits and what follows it. *)
Fixpoint span_digits (s : str) : str * str :=
  match s with
  | x :: s' =>
    if is_digit x then let '(ds, r) := span_digits s' in (x :: ds, r) else ([], s)
  | [] => ([], [])
  end.

(** [int(digits)] for ASCII digits. *)
Definition int_of_digits (ds : str) : Z :=
  foldl (fun acc x => (acc * 10 + (Z.of_N x - 0x30))%Z) 0%Z ds.

(** The number scanner [_match_number]: an optional sign, an integer part
    with no leading zero, an optional fraction, an optional exponent.
    With a fraction or an exponent the literal goes to [float], otherwise
    to [int]. *)

(** A digit from 1 to 9 and the digits that follow, or a single 0. *)
Definition scan_int_part (s : str) : option (str * str) :=
  match s with
  | [] => None
  | d :: r1 =>
    if (0x31 <=? d) && (d <=? 0x39) then
      let '(ds, r) := span_digits r1 in Some (d :: ds, r)
    else if d =? 0x30 then Some ([d], r1)
    else None
  end.

(** A point followed by at least one digit; nothing is consumed
    otherwise. *)
Definition scan_frac (s : str) : str * str :=
  match s with
  | p :: f :: r =>
    if (p =? 0x2E) && is_digit f
    then let '(ds, r') := span_digits (f :: r) in (p :: ds, r')
    else ([], s)
  | _ => ([], s)
  end.

(** An [e] or [E], an optional sign and at least one digit; nothing is
    consumed otherwise. *)
Definition scan_exp (s : str) : str * str :=
  match s with
  | e :: r =>
    if (e =? 0x65) || (e =? 0x45) then
      let '(sign, r') :=
        match r with
        | y :: r'' => if (y =? 0x2B) || (y =? 0x2D) then ([y], r'') else ([], r)
        | [] => ([], r)
        end in
      let '(ds, r'') := span_digits r' in
      match ds with
      | [] => ([], s)
      | _ => (e :: sign ++ ds, r'')
      end
    else ([], s)
  | [] => ([], s)
  end.

(** [int(literal)] or [float(literal)]. *)
Definition number_value (neg : bool) (ip frac exp : str) : json :=
  match frac, exp with
  | [], [] =>
    let z := int_of_digits ip in
    JInt (if neg then (- z)%Z else z)
  | _, _ => JFloat ((if neg then [0x2D] else []) ++ ip ++ frac ++ exp)
  end.

Definition match_number (s : str) : option (json * str) :=
  let '(neg, s1) :=
    match s with
    | x :: r => if x =? 0x2D then (true, r) else (false, s)
    | [] => (false, s)
    end in
  '(ip, s2) ← scan_int_part s1;
  let '(frac, s3) := scan_frac s2 in
  let '(exp, s4) := scan_exp s3 in
  Some (number_value neg ip frac exp, s4).

(** [s[idx:idx+len(w)] == w], returning what follows. *)
Fixpoint strip_prefix (w s : str) : option str :=
  match w, s with
  | [], _ => Some s
  | a :: w', b :: s' => if a =? b then strip_prefix w' s' else None
  | _ :: _, [] => None
  end.

Section Scanner.
(** [JSONArray] and [JSONObject] receive [scan_once] as an argument,
    as in [json.decoder]. [n] bounds the number of items read. *)
Variable scan_once : str -> option (json * str).

Fixpoint array_items (n : nat) (s : str) : option (list json * str) :=
  match n with
  | O => None
  | S n =>
    '(v, r) ← scan_once s;
    match skip_ws r with
    | x :: r' =>
      if x =? 0x5D then Some ([v], r')
      else if x =? 0x2C then
        '(vs, r'') ← array_items n (skip_ws r'); Some (v :: vs, r'')
      else None                               (* expecting ',' delimiter *)
    | [] => None
    end
  end.

(** Entered just after ['[']. *)
Definition JSONArray (n : nat) (s : str) : option (json * str) :=
  match skip_ws s with
  | x :: r =>
    if x =? 0x5D then Some (JArr [], r)
    else '(vs, r') ← array_items n (x :: r); Some (JArr vs, r')
  | [] => None
  end.

Fixpoint object_items (n : nat) (s : str) : option (list (str * json) * str) :=
  match n with
  | O => None
  | S n =>
    match s with
    | q :: r0 =>
      if q =? 0x22 then
        '(key, r1) ← scanstring r0;
        match skip_ws r1 with
        | colon :: r2 =>
          if colon =? 0x3A then
            '(v, r3) ← scan_once (skip_ws r2);
            match skip_ws r3 with
            | x :: r4 =>
              if x =? 0x7D then Some ([(key, v)], r4)
              else if x =? 0x2C then
                '(kvs, r5) ← object_items n (skip_ws r4); Some ((key, v) :: kvs, r5)
              else None                       (* expecting ',' delimiter *)
            | [] => None
            end
          else None                           (* expecting ':' delimiter *)
        | [] => None
        end
      else None                               (* expecting property name *)
    | [] => None
    end
  end.

(** Entered just after ['{']. *)
Definition JSONObject (n : nat) (s : str) : option (json * str) :=
  match skip_ws s with
  | x :: r =>
    if x =? 0x7D then Some (JObj [], r)
    else '(kvs, r') ← object_items n (x :: r); Some (JObj (dict_of_pairs kvs), r')
  | [] => None
  end.
End Scanner.

(** [scan_once(s, idx)]. [fuel] bounds the nesting depth and, passed on
    to the item loops, the number of items of one container. *)
Fixpoint scan_once (fuel : nat) (s : str) : option (json * str) :=
  match fuel with
  | O => None
  | S fuel =>
    match s with
    | [] => None
    | x :: r =>
      if x =? 0x22 then '(t, r') ← scanstring r; Some (JStr t, r')
      else if x =? 0x7B then JSONObject (scan_once fuel) (S (length r)) r
      else if x =? 0x5B then JSONArray (scan_once fuel) (S (length r)) r
      else
        match strip_prefix (u "null") s, strip_prefix (u "true") s,
              strip_prefix (u "false") s with
        | Some r', _, _ => Some (JNull, r')
        | _, Some r', _ => Some (JBool true, r')
        | _, _, Some r' => Some (JBool false, r')
        | _, _, _ =>
          match match_number s with
          | Some res => Some res
          | None =>
            match strip_prefix (u "NaN") s, strip_prefix (u "Infinity") s,
                  strip_prefix (u "-Infinity") s with
            | Some r', _, _ => Some (JFloat (u "NaN"), r')
            | _, Some r', _ => Some (JFloat (u "Infinity"), r')
            | _, _, Some r' => Some (JFloat (u "-Infinity"), r')
            | _, _, _ => None
            end
          end
        end
    end
  end.

(** [json.loads(s)] for a [str]: [None] stands for [JSONDecodeError]. *)
Definition loads (s : str) : option json :=
  match s with
  | 0xFEFF :: _ => None                          (* unexpected UTF-8 BOM *)
  | _ =>
    '(v, r) ← scan_once (S (length s)) (skip_ws s);
    match skip_ws r with
    | [] => Some v
    | _ :: _ => None                             (* extra data *)
    end
  end.

(** *** Encoding: [json.dumps(o, ensure_ascii=False, indent=2)] *)

Definition hex_digit (n : N) : char :=
  if n <? 10 then 0x30 + n else 0x61 + (n - 10).

(** [ESCAPE_DCT]: the two-character escapes, and [\u00XX] for the other
    control characters; every other character stands for itself. *)
Definition escape_char (x : char) : str :=
  if x =? 0x22 then [0x5C; 0x22]
  else if x =? 0x5C then [0x5C; 0x5C]
  else if x =? 0x0A then [0x5C; 0x6E]
  else if x =? 0x0D then [0x5C; 0x72]
  else if x =? 0x09 then [0x5C; 0x74]
  else if x =? 0x08 then [0x5C; 0x62]
  else if x =? 0x0C then [0x5C; 0x66]
  else if x <? 0x20 then [0x5C; 0x75; 0x30; 0x30; hex_digit (x / 16); hex_digit (x mod 16)]
  else [x].

Fixpoint escape (s : str) : str :=
  match s with
  | [] => []
  | x :: s' => escape_char x ++ escape s'
  end.

(** [encode_basestring] *)
Definition encode_basestring (s : str) : str :=
  [0x22] ++ escape s ++ [0x22].

(** ['\n' + ' ' * (2 * level)] *)
Definition newline_indent (level : nat) : str :=
  0x0A :: replicate (2 * level) 0x20.

Section Encoder.
(** [float.__repr__] of the float a literal denotes. *)
Variable float_repr : str -> str.

(** [_iterencode(o, _current_indent_level)], chunks concatenated. With an
    indent the item separator is a comma followed by the line break and
    the indentation of the items, and the key separator is a colon and a
    space. *)
Fixpoint iterencode (o : json) (level : nat) : str :=
  match o with
  | JNull => u "null"
  | JBool true => u "true"
  | JBool false => u "false"
  | JInt z => str_of_int z
  | JFloat lit => float_repr lit
  | JStr s => encode_basestring s
  | JArr [] => u "[]"
  | JArr items =>
    [0x5B] ++ newline_indent (S level)
      ++ join (0x2C :: newline_indent (S level))
              (List.map (fun v => iterencode v (S level)) items)
      ++ newline_indent level ++ [0x5D]
  | JObj [] => u "{}"
  | JObj items =>
    [0x7B] ++ newline_indent (S level)
      ++ join (0x2C :: newline_indent (S level))
              (List.map (fun kv => encode_basestring kv.1 ++ [0x3A; 0x20]
                                     ++ iterencode kv.2 (S level)) items)
      ++ newline_indent level ++ [0x7D]
  end.

Definition dumps (o : json) : str := iterencode o 0.
End Encoder.

End Json.

(** ** Exceptions, the outside world and the effect monad *)

Module Py.
Import Json.

(** The exception classes the three source files can see. *)
Inductive exn_class :=
| Exception
| ValueError | KeyError | IndexError | TypeError | RuntimeError | OSError
| JSONDecodeError            (* json.JSONDecodeError, a ValueError *)
| RequestException           (* requests.exceptions.RequestException *)
| HTTPError                  (* raised by Response.raise_for_status *)
| ConnectionError            (* a network failure *)
| RequestsJSONDecodeError.   (* raised by Response.json *)

#[export] Instance exn_class_eq_dec : EqDecision exn_class.
Proof. solve_decision. Defined.

(** What the source reads of [e.response]. *)
Record response_info := ResponseInfo { status_code : Z; text : str }.

Record exn := Exn {
  exn_cls : exn_class;
  exn_str : str;                          (* str(e) *)
  exn_response : option response_info     (* e.response, None when absent *)
}.

(** The direct base class, following the Python and requests class trees. *)
Definition base (k : exn_class) : option exn_class :=
  match k with
  | Exception => None
  | JSONDecodeError => Some ValueError
  | HTTPError | ConnectionError | RequestsJSONDecodeError => Some RequestException
  | RequestException => Some OSError
  | _ => Some Exception
  end.

(** [issubclass k target]: at most three steps up the tree;
    [RequestsJSONDecodeError] also inherits from [JSONDecodeError]. *)
Definition issubclass (k target : exn_class) : bool :=
  let up1 := base k in
  let up2 := up1 ≫= base in
  let up3 := up2 ≫= base in
  bool_decide (k = target)
  || bool_decide (up1 = Some target)
  || bool_decide (up2 = Some target)
  || bool_decide (up3 = Some target)
  || (bool_decide (k = RequestsJSONDecodeError)
      && (bool_decide (target = JSONDecodeError) || bool_decide (target = ValueError))).

Definition isinstance (e : exn) (target : exn_class) : bool :=
  issubclass (exn_cls e) target.

(** *** The HTTP endpoint, as [requests] shows it *)

Record request := Request {
  req_url : str;
  req_headers : list (str * str);
  req_json : json
}.

(** A [requests.Response]. [json_method] is what [response.json()] does:
    the decoded body, or the text of the [RequestsJSONDecodeError] it
    raises. *)
Record response := Response {
  info : response_info;
  reason : str;
  url : str;
  json_method : json + str
}.

(** What [requests.post] does for one request: a response of any status,
    or an exception (a [RequestException] such as [ConnectionError]). *)
Definition endpoint := request -> response + exn.

(** [Response.ok], which is also the truth value of a response: the
    status is not a client or server error. *)
Definition ok (r : response_info) : bool :=
  negb ((400 <=? status_code r)%Z && (status_code r <? 600)%Z).

Definition http_error_msg (r : response) : str :=
  let st := status_code (info r) in
  str_of_int st
    ++ (if (st <? 500)%Z then u " Client Error: " else u " Server Error: ")
    ++ reason r ++ u " for url: " ++ url r.

(** *** PDF files, as libmagic, mimetypes and PyMuPDF show them *)

(** A page: loading it while iterating the document may raise, and so may
    [page.get_text()]. *)
Inductive page :=
| Page (get_text : str + exn)
| Unloadable (e : exn).

Record file := File {
  magic_from_file : str + exn;     (* magic.Magic(mime=True).from_file(path) *)
  guess_type : option str;         (* mimetypes.guess_type(path)[0] *)
  fitz_open : list page + exn      (* fitz.open(path): the pages, or raises *)
}.

(** *** State and monad *)

Inductive level := INFO | WARNING | ERROR.

Record log_record := Log { log_level : level; log_msg : str }.

(** What the process has done so far. *)
Record world := World {
  posts : list request;      (* HTTP POSTs issued, oldest first *)
  log : list log_record;     (* log records, oldest first *)
  open_docs : nat            (* fitz documents opened and not yet closed *)
}.

Inductive result (A : Type) :=
| Return (a : A)
| Raise (e : exn).
Arguments Return {A}.
Arguments Raise {A}.

Definition M (A : Type) : Type := world -> result A * world.

Definition ret {A} (a : A) : M A := fun w => (Return a, w).
Definition raise {A} (e : exn) : M A := fun w => (Raise e, w).
Definition bind {A B} (m : M A) (f : A -> M B) : M B :=
  fun w =>
    match m w with
    | (Return a, w') => f a w'
    | (Raise e, w') => (Raise e, w')
    end.

(** [try: m  except cls as e: handler e] *)
Definition try_except {A} (m : M A) (cls : exn_class) (handler : exn -> M A) : M A :=
  fun w =>
    match m w with
    | (Return a, w') => (Return a, w')
    | (Raise e, w') => if isinstance e cls then handler e w' else (Raise e, w')
    end.

(** [try: m  finally: fin] for a [fin] that does not raise. *)
Definition try_finally {A} (m : M A) (fin : M unit) : M A :=
  fun w =>
    match m w with
    | (r, w') => (r, snd (fin w'))
    end.

Definition logger (lv : level) (msg : str) : M unit :=
  fun w => (Return tt, World (posts w) (log w ++ [Log lv msg]) (open_docs w)).

(** [requests.post(url, headers=headers, json=payload)] *)
Definition requests_post (net : endpoint) (rq : request) : M response :=
  fun w =>
    let w' := World (posts w ++ [rq]) (log w) (open_docs w) in
    match net rq with
    | inl r => (Return r, w')
    | inr e => (Raise e, w')
    end.

(** [response.raise_for_status()] *)
Definition raise_for_status (r : response) : M unit :=
  if ok (info r) then ret tt
  else raise (Exn HTTPError (http_error_msg r) (Some (info r))).

(** [response.json()] *)
Definition response_json (r : response) : M json :=
  match json_method r with
  | inl v => ret v
  | inr msg => raise (Exn RequestsJSONDecodeError msg None)
  end.

(** [fitz.open(path)] *)
Definition fitz_open_ (f : file) : M (list page) :=
  fun w =>
    match fitz_open f with
    | inl pages => (Return pages, World (posts w) (log w) (S (open_docs w)))
    | inr e => (Raise e, w)
    end.

(** [doc.close()] *)
Definition doc_close : M unit :=
  fun w => (Return tt, World (posts w) (log w) (pred (open_docs w))).

(** [repr(type(v).__name__)] as it appears in TypeError messages. *)
Definition type_name (v : json) : str :=
  match v with
  | JNull => u "NoneType"
  | JBool _ => u "bool"
  | JInt _ => u "int"
  | JFloat _ => u "float"
  | JStr _ => u "str"
  | JArr _ => u "list"
  | JObj _ => u "dict"
  end.

Definition not_subscriptable {A} (v : json) : M A :=
  raise (Exn TypeError (u "'" ++ type_name v ++ u "' object is not subscriptable") None).

(** [v[key]] for a string key *)
Definition getitem_str (v : json) (key : str) : M json :=
  match v with
  | JObj d =>
    match dict_get key d with
    | Some x => ret x
    | None => raise (Exn KeyError (u "'" ++ key ++ u "'") None)
    end
  | JArr _ =>
    raise (Exn TypeError (u "list indices must be integers or slices, not str") None)
  | JStr _ =>
    raise (Exn TypeError (u "string indices must be integers, not 'str'") None)
  | _ => not_subscriptable v
  end.

(** [v[0]] *)
Definition getitem_0 (v : json) : M json :=
  match v with
  | JObj _ => raise (Exn KeyError (u "0") None)   (* keys of a decoded dict are str *)
  | JArr [] => raise (Exn IndexError (u "list index out of range") None)
  | JArr (x :: _) => ret x
  | JStr [] => raise (Exn IndexError (u "string index out of range") None)
  | JStr (x :: _) => ret (JStr [x])
  | _ => not_subscriptable v
  end.

Declare Scope py_scope.
Delimit Scope py_scope with py.
Notation "'let*' x ':=' m 'in' k" := (bind m (fun x => k))
  (at level 10, x name, m at level 100, k at level 200) : py_scope.
Notation "m ;; k" := (bind m (fun _ => k))
  (at level 100, k at level 200, right associativity) : py_scope.

End Py.


(** ** [api.py] *)

Module Api.
Import Json Py.
Local Open Scope py_scope.

(** [os.environ] *)
Abbreviation environ := (gmap str str).

(** The attributes [__init__] sets. *)
Record DeepSeekAPI := {
  api_key : str;
  api_url : str;
  model : str;
  headers : list (str * str)
}.

(** [DeepSeekAPI.__init__]: [not self.api_key] holds for a missing and for
    an empty variable. *)
Definition __init__ (env : environ) : M DeepSeekAPI :=
  match env !! u "DEEPSEEK_API_KEY" with
  | Some (k0 :: k) =>
    let key := k0 :: k in
    ret {| api_key := key;
           api_url := default (u "https://api.deepseek.com/v1/chat/completions")
                              (env !! u "DEEPSEEK_API_URL");
           model := u "deepseek-chat";
           headers := [(u "Content-Type", u "application/json");
                       (u "Authorization", u "Bearer " ++ key)] |}
  | _ => raise (Exn ValueError (u "未设置DEEPSEEK_API_KEY环境变量") None)
  end.

(** [_call_api]: one POST; a [RequestException] is logged and re-raised.
    The status and the body are logged when [e.response] is there and
    true, and a response is true when its status is below 400 or above 599
    ([Py.ok]). *)
Definition _call_api (self : DeepSeekAPI) (net : endpoint)
    (messages : json) (temperature : str) : M json :=
  try_except
    (let payload := JObj [(u "model", JStr (model self));
                          (u "messages", messages);
                          (u "temperature", JFloat temperature)] in
     let* response := requests_post net (Request (api_url self) (headers self) payload) in
     raise_for_status response ;;
     response_json response)
    RequestException
    (fun e =>
       logger ERROR (u "API请求失败: " ++ exn_str e) ;;
       match exn_response e with
       | Some r =>
         if ok r then
           logger ERROR (u "响应状态码: " ++ str_of_int (status_code r)) ;;
           logger ERROR (u "响应内容: " ++ text r)
         else ret tt
       | None => ret tt
       end ;;
       raise e).

Definition nl : str := [0x0A].

(** The dict literal of two string fields that makes one chat message. *)
Definition message (role content : str) : json :=
  JObj [(u "role", JStr role); (u "content", JStr content)].

(** Lines 64-66, 83-85 and 102-104, identical in the three operations:
    [if len(text) > max_length: text = text[:max_length] + marker]. *)
Definition max_length : N := 15000.
Definition truncation_marker : str := u "...[内容过长，已截断]".
Definition truncate (text : str) : str :=
  if max_length <? len text then slice_to max_length text ++ truncation_marker
  else text.

(** [response["choices"][0]["message"]["content"]] *)
Definition reply_content (response : json) : M json :=
  let* choices := getitem_str response (u "choices") in
  let* choice := getitem_0 choices in
  let* msg := getitem_str choice (u "message") in
  getitem_str msg (u "content").

Definition prompts : gmap str str :=
  {[ u "summary" := u "请对以下论文内容进行摘要总结，包括研究目的、方法、主要发现和结论：";
     u "methodology" := u "请详细分析以下论文的研究方法，包括实验设计、数据收集和分析方法：";
     u "results" := u "请详细分析以下论文的研究结果，包括主要发现和数据分析：";
     u "conclusion" := u "请总结以下论文的结论和未来研究方向：" ]}.

Definition analyze_messages (text analysis_type : str) : json :=
  let prompt := default (prompts !!! u "summary") (prompts !! analysis_type) in
  let text := truncate text in
  JArr [message (u "system")
          (u "你是一个专业的学术论文分析助手，擅长分析和解释学术论文的内容。请用中文回答。");
        message (u "user") (prompt ++ nl ++ nl ++ text)].

(** The default float arguments [0.7] and [0.3], as written. *)
Definition default_temperature : str := u "0.7".
Definition low_temperature : str := u "0.3".

Definition analyze_paper (self : DeepSeekAPI) (net : endpoint)
    (text analysis_type : str) : M json :=
  try_except
    (let messages := analyze_messages text analysis_type in
     let* response := _call_api self net messages default_temperature in
     reply_content response)
    Exception
    (fun e => logger ERROR (u "论文分析失败: " ++ exn_str e) ;; raise e).

Definition answer_messages (text question : str) : json :=
  let text := truncate text in
  JArr [message (u "system")
          (u "你是一个专业的学术论文分析助手，擅长回答关于学术论文的问题。请基于提供的论文内容回答问题，如果论文中没有相关信息，请明确说明。请用中文回答。");
        message (u "user")
          (u "论文内容：" ++ nl ++ nl ++ text ++ nl ++ nl ++ u "问题：" ++ question)].

Definition answer_question (self : DeepSeekAPI) (net : endpoint)
    (text question : str) : M json :=
  try_except
    (let messages := answer_messages text question in
     let* response := _call_api self net messages default_temperature in
     reply_content response)
    Exception
    (fun e => logger ERROR (u "回答问题失败: " ++ exn_str e) ;; raise e).

(** The triple-quoted prompt of [extract_key_points], line breaks and
    indentation included. *)
Definition key_points_prompt : str := u "
            请从以下论文中提取关键信息，并以JSON格式返回。JSON应包含以下字段：
            - title: 论文标题
            - authors: 作者列表（数组）
            - keywords: 关键词列表（数组）
            - research_purpose: 研究目的
            - methodology: 包含approach（方法论）、data_collection（数据收集）和analysis_methods（分析方法，数组）的对象
            - main_findings: 主要发现（数组）
            - conclusions: 结论（数组）
            - future_work: 未来工作（数组）
            
            请确保返回的是有效的JSON格式，不要包含任何其他文本。
            ".

Definition key_points_messages (text : str) : json :=
  let text := truncate text in
  JArr [message (u "system")
          (u "你是一个专业的学术论文分析助手，擅长从论文中提取结构化信息。请用中文回答，并确保返回有效的JSON格式。");
        message (u "user") (key_points_prompt ++ nl ++ nl ++ text)].

(** The three patterns of lines 131, 138 and 139. *)
Definition fence_pattern : Re.regex :=
  Re.Cat (Re.lits (u "```json"))
    (Re.Cat (Re.Star true Re.isspace)
       (Re.Cat (Re.Group (Re.Star false Re.anychar))
          (Re.Cat (Re.Star true Re.isspace) (Re.lits (u "```"))))).

Definition leading_pattern : Re.regex :=
  Re.Cat Re.Bol (Re.Star true (Re.notchar (c "{"))).

Definition trailing_pattern : Re.regex :=
  Re.Cat (Re.Star true (Re.notchar (c "}"))) Re.Eol.

(** Lines 131-139: the text handed to [json.loads]. *)
Definition json_candidate (content : str) : str :=
  let json_match := Re.search fence_pattern content in
  let json_str :=
    match json_match with
    | Some mo => Re.group1 content mo
    | None => content
    end in
  let json_str := Re.sub leading_pattern [] json_str in
  let json_str := Re.sub trailing_pattern [] json_str in
  json_str.

Section DecodeErrorText.
(** The text of the [JSONDecodeError] that [json.loads] raises on a given
    input; its wording is not modelled. *)
Variable decode_error_text : str -> str.

Definition json_loads (s : str) : M json :=
  match Json.loads s with
  | Some v => ret v
  | None => raise (Exn JSONDecodeError (decode_error_text s) None)
  end.

(** Lines 129-149, for the [content] of the reply. [re.search] raises
    [TypeError] on a [content] that is not a [str]. *)
Definition recover_json (content : json) : M json :=
  try_except
    (match content with
     | JStr content => json_loads (json_candidate content)
     | _ =>
       raise (Exn TypeError
                (u "expected string or bytes-like object, got '"
                   ++ type_name content ++ u "'") None)
     end)
    JSONDecodeError
    (fun e =>
       logger ERROR (u "JSON解析失败: " ++ exn_str e) ;;
       ret (JObj [(u "error", JBool true);
                  (u "message", JStr (u "API返回的内容不是有效的JSON格式"));
                  (u "raw_response", content)])).

Definition extract_key_points (self : DeepSeekAPI) (net : endpoint)
    (text : str) : M json :=
  try_except
    (let messages := key_points_messages text in
     let* response := _call_api self net messages low_temperature in
     let* content := reply_content response in
     recover_json content)
    Exception
    (fun e =>
       logger ERROR (u "提取关键信息失败: " ++ exn_str e) ;;
       ret (JObj [(u "error", JBool true); (u "message", JStr (exn_str e))])).

End DecodeErrorText.

End Api.

(** ** [pdf_processor.py] *)

Module PdfProcessor.
Import Json Py.
Local Open Scope py_scope.

Definition pdf_mime : str := u "application/pdf".

(** [mime.from_file(file_path)] *)
Definition magic_from_file_ (f : file) : M str :=
  match magic_from_file f with
  | inl t => ret t
  | inr e => raise e
  end.

(** [validate_pdf]. [has_magic] is the module-level flag set by the import
    of [magic]: content sniffing when it is there, the name-based guess of
    [mimetypes] otherwise, and in that case an attempt to open the file
    when the guess is not PDF. *)
Definition validate_pdf (has_magic : bool) (f : file) : M bool :=
  try_except
    ((if has_magic then
        let* file_type := magic_from_file_ f in
        if negb (Str.eqb file_type pdf_mime)
        then raise (Exn ValueError (u "无效的文件类型: " ++ file_type) None)
        else ret tt
      else
        let file_type := guess_type f in
        if negb (bool_decide (file_type = Some pdf_mime)) then
          try_except
            (let* doc := fitz_open_ f in doc_close)
            Exception
            (fun e => raise (Exn ValueError (u "无效的PDF文件: " ++ exn_str e) None))
        else ret tt) ;;
     ret true)
    Exception
    (fun e => logger ERROR (u "PDF验证失败: " ++ exn_str e) ;; raise e).

(** [page.get_text()] *)
Definition get_text_ (gt : str + exn) : M str :=
  match gt with
  | inl t => ret t
  | inr e => raise e
  end.

(** Lines 76-80: the loop over [enumerate(doc)], [text] being the list
    built so far. A page that cannot be loaded ends the iteration with its
    exception; a page whose [get_text] raises is logged and skipped. *)
Fixpoint pages_loop (doc : list page) (page_num : Z) (text : list str) : M (list str) :=
  match doc with
  | [] => ret text
  | Unloadable e :: _ => raise e
  | Page gt :: rest =>
    let* text :=
      try_except
        (let* t := get_text_ gt in ret (text ++ [t]))
        Exception
        (fun e =>
           logger WARNING
             (u "提取第" ++ str_of_int (page_num + 1) ++ u "页文本时出错: " ++ exn_str e) ;;
           ret text) in
    pages_loop rest (page_num + 1)%Z text
  end.

(** [extract_text]. The local variable [doc] is bound exactly when lines
    72-73 have returned, so the [finally] clause closes the document in
    that case and does nothing otherwise. *)
Definition extract_text (has_magic : bool) (f : file) : M str :=
  let handler e := (logger ERROR (u "文本提取失败: " ++ exn_str e) ;; raise e) in
  fun w =>
    match (validate_pdf has_magic f ;; fitz_open_ f) w with
    | (Raise e, w1) =>
      if isinstance e Exception then handler e w1 else (Raise e, w1)
    | (Return doc, w1) =>
      try_finally
        (try_except
           (let* text := pages_loop doc 0 [] in ret (join [0x0A] text))
           Exception handler)
        doc_close
        w1
    end.

End PdfProcessor.

(** ** [main.py]: the export of the key points *)

Module Main.
Import Json.

Section ExportJson.
Variable float_repr : str -> str.

(** Line 175: [json.dumps(key_points, ensure_ascii=False, indent=2)] *)
Definition export_json_str (key_points : json) : str :=
  dumps float_repr key_points.

(** Line 178: the [data] of the download, [json_str.encode('utf-8')]. *)
Definition export_data (key_points : json) : option (list N) :=
  encode_utf8 (export_json_str key_points).

End ExportJson.

End Main.

(** ** The operating system and the session, for the code that touches them *)

Module Os.
Import Json Py.

(** [posixpath.join(a, b)] *)
Definition path_join (a b : str) : str :=
  match b with
  | 0x2F :: _ => b
  | _ =>
    match last a with
    | None | Some 0x2F => a ++ b
    | Some _ => a ++ [0x2F] ++ b
    end
  end.

(** What the operating system answers to the calls of the source. A call
    that changes the file system answers [None] when it returns, and the
    exception it raises otherwise. *)
Record os := OS {
  gettempdir : str;                           (* tempfile.gettempdir() *)
  path_exists : str -> bool;                  (* os.path.exists(path) *)
  makedirs : str -> option exn;               (* os.makedirs(path, exist_ok=True) *)
  open_w : str -> option exn;                 (* open(path, "w"): created or emptied *)
  file_write : str -> str -> option exn;      (* f.write(data), f opened at path *)
  file_write_bytes : str -> list N -> option exn;
  file_close : str -> option exn;             (* f.close(), at the end of a with block *)
  remove : str -> option exn;                 (* os.remove(path), os.unlink(path) *)
  mkdtemp : str + exn;                        (* tempfile.mkdtemp() *)
  named_temporary_file : str + exn;           (* NamedTemporaryFile(delete=False,
                                                 suffix='.pdf'): the name of the file *)
  listdir : str -> list str + exn;            (* os.listdir(path) *)
  isfile : str -> bool                        (* os.path.isfile(path) *)
}.

(** The calls that changed the file system and returned. *)
Inductive effect :=
| Makedirs (path : str)
| Opened (path : str)
| Wrote (path data : str)
| WroteBytes (path : str) (data : list N)
| Closed (path : str)
| Remove (path : str)
| Mkdtemp (path : str)
| Created (path : str).

(** The world of [Py], the changes made to the file system, oldest first,
    and [st.session_state]. *)
Record system := System {
  sys_world : world;
  effects : list effect;
  session_state : gmap str json
}.

Definition IO (A : Type) : Type := system -> result A * system.

Definition ret {A} (a : A) : IO A := fun s => (Return a, s).
Definition raise {A} (e : exn) : IO A := fun s => (Raise e, s).
Definition bind {A B} (m : IO A) (f : A -> IO B) : IO B :=
  fun s =>
    match m s with
    | (Return a, s') => f a s'
    | (Raise e, s') => (Raise e, s')
    end.

(** [try: m  except cls as e: handler e] *)
Definition try_except {A} (m : IO A) (cls : exn_class) (handler : exn -> IO A) : IO A :=
  fun s =>
    match m s with
    | (Return a, s') => (Return a, s')
    | (Raise e, s') => if isinstance e cls then handler e s' else (Raise e, s')
    end.

(** A computation of [Py], run on the world of the system. *)
Definition lift {A} (m : M A) : IO A :=
  fun s =>
    match m (sys_world s) with
    | (r, w) => (r, System w (effects s) (session_state s))
    end.

Definition logger (lv : level) (msg : str) : IO unit := lift (Py.logger lv msg).

(** A call that changes the file system: the change is recorded when the
    call returns. *)
Definition change (outcome : option exn) (eff : effect) : IO unit :=
  fun s =>
    match outcome with
    | None => (Return tt, System (sys_world s) (effects s ++ [eff]) (session_state s))
    | Some e => (Raise e, s)
    end.

Definition os_makedirs (o : os) (path : str) : IO unit :=
  change (makedirs o path) (Makedirs path).

Definition os_open_w (o : os) (path : str) : IO unit :=
  change (open_w o path) (Opened path).

Definition os_file_write (o : os) (path data : str) : IO unit :=
  change (file_write o path data) (Wrote path data).

Definition os_file_write_bytes (o : os) (path : str) (data : list N) : IO unit :=
  change (file_write_bytes o path data) (WroteBytes path data).

(** The body of a [with] block on the file opened at [path]: the file is
    closed when the body has returned and when it has raised, and an error
    of the closing takes the place of the outcome of the body. *)
Definition with_file {A} (o : os) (path : str) (body : IO A) : IO A :=
  fun s =>
    match body s with
    | (r, s1) =>
      match file_close o path with
      | None =>
        (r, System (sys_world s1) (effects s1 ++ [Closed path]) (session_state s1))
      | Some e => (Raise e, s1)
      end
    end.

Definition os_remove (o : os) (path : str) : IO unit :=
  change (remove o path) (Remove path).

Definition tempfile_mkdtemp (o : os) : IO str :=
  fun s =>
    match mkdtemp o with
    | inl d => (Return d, System (sys_world s) (effects s ++ [Mkdtemp d]) (session_state s))
    | inr e => (Raise e, s)
    end.

Definition tempfile_named (o : os) : IO str :=
  fun s =>
    match named_temporary_file o with
    | inl name =>
      (Return name, System (sys_world s) (effects s ++ [Created name]) (session_state s))
    | inr e => (Raise e, s)
    end.

Definition os_listdir (o : os) (path : str) : IO (list str) :=
  match listdir o path with
  | inl names => ret names
  | inr e => raise e
  end.

(** [k in st.session_state] and [st.session_state.k = v] *)
Definition session_contains (k : str) : IO bool :=
  fun s => (Return (bool_decide (is_Some (session_state s !! k))), s).

Definition session_set (k : str) (v : json) : IO unit :=
  fun s => (Return tt, System (sys_world s) (effects s) (<[k := v]> (session_state s))).

Declare Scope io_scope.
Delimit Scope io_scope with io.
Notation "'let*' x ':=' m 'in' k" := (bind m (fun x => k))
  (at level 10, x name, m at level 100, k at level 200) : io_scope.
Notation "m ;; k" := (bind m (fun _ => k))
  (at level 100, k at level 200, right associativity) : io_scope.

(** [for x in l: body x] *)
Fixpoint for_each {A} (l : list A) (body : A -> IO unit) : IO unit :=
  match l with
  | [] => ret tt
  | x :: l' => bind (body x) (fun _ => for_each l' body)
  end.

End Os.

(** ** [pdf_processor.py]: the temporary directory *)

Module PDFProcessor.
Import Json Py Os.
Local Open Scope io_scope.

(** The attribute of a [PDFProcessor]. *)
Record PDFProcessor := { temp_dir : str }.

(** [_ensure_temp_dir]: the directory is created when it is missing and
    probed by writing and removing a file; on any error the processor
    moves to a directory made by [tempfile.mkdtemp]. The processor is
    returned as the method leaves it. *)
Definition _ensure_temp_dir (o : os) (self : PDFProcessor) : IO PDFProcessor :=
  try_except
    ((if negb (path_exists o (temp_dir self)) then
        os_makedirs o (temp_dir self) ;;
        logger INFO (u "创建临时目录: " ++ temp_dir self)
      else ret tt) ;;
     let test_file := path_join (temp_dir self) (u "test_write.txt") in
     os_open_w o test_file ;;
     with_file o test_file (os_file_write o test_file (u "test")) ;;
     os_remove o test_file ;;
     ret self)
    Exception
    (fun e =>
       logger ERROR (u "临时目录创建或权限测试失败: " ++ exn_str e) ;;
       let* d := tempfile_mkdtemp o in
       let self := {| temp_dir := d |} in
       logger INFO (u "使用备用临时目录: " ++ temp_dir self) ;;
       ret self).

(** [PDFProcessor(temp_dir)], [None] being the default argument. *)
Definition __init__ (o : os) (temp_dir_arg : option str) : IO PDFProcessor :=
  let self :=
    match temp_dir_arg with
    | None => {| temp_dir := path_join (gettempdir o) (u "pdf_processor_temp") |}
    | Some d => {| temp_dir := d |}
    end in
  let* self := _ensure_temp_dir o self in
  logger INFO (u "使用临时目录: " ++ temp_dir self) ;;
  ret self.

(** [cleanup] *)
Definition cleanup (o : os) (self : PDFProcessor) : IO unit :=
  try_except
    (let* files := os_listdir o (temp_dir self) in
     for_each files
       (fun file =>
          let file_path := path_join (temp_dir self) file in
          try_except
            (if isfile o file_path then os_remove o file_path else ret tt)
            Exception
            (fun e =>
               logger WARNING (u "删除文件失败 " ++ file_path ++ u ": " ++ exn_str e))) ;;
     logger INFO (u "临时文件清理完成"))
    Exception
    (fun e => logger ERROR (u "清理临时文件失败: " ++ exn_str e) ;; raise e).

End PDFProcessor.

(** ** [main.py]: the session, the configuration, the client and the upload *)

Module Shell.
Import Json Py Os.
Local Open Scope io_scope.

(** [os.getenv(name, default)] *)
Definition getenv (env : Api.environ) (name dflt : str) : str :=
  default dflt (env !! name).

(** [if k not in st.session_state: st.session_state.k = v] *)
Definition session_default (k : str) (v : json) : IO unit :=
  let* present := session_contains k in
  if negb present then session_set k v else ret tt.

Definition init_session_state (env : Api.environ) : IO unit :=
  session_default (u "pdf_text") JNull ;;
  session_default (u "current_tab") (JStr (u "上传论文")) ;;
  session_default (u "api_key") (JStr (getenv env (u "DEEPSEEK_API_KEY") [])) ;;
  session_default (u "api_url")
    (JStr (getenv env (u "DEEPSEEK_API_URL")
             (u "https://api.deepseek.com/v1/chat/completions"))).

(** [save_api_config] *)
Definition save_api_config (o : os) (api_key api_url : str) : IO bool :=
  try_except
    (os_open_w o (u ".env") ;;
     with_file o (u ".env")
       (os_file_write o (u ".env") (u "DEEPSEEK_API_KEY=" ++ api_key ++ [0x0A]) ;;
        os_file_write o (u ".env") (u "DEEPSEEK_API_URL=" ++ api_url ++ [0x0A])) ;;
     session_set (u "api_key") (JStr api_key) ;;
     session_set (u "api_url") (JStr api_url) ;;
     ret true)
    Exception
    (fun e => logger ERROR (u "保存API配置失败: " ++ exn_str e) ;; ret false).

(** [initialize_api]: [None] for a client that cannot be built. *)
Definition initialize_api (env : Api.environ) : IO (option Api.DeepSeekAPI) :=
  try_except
    (let* api := lift (Api.__init__ env) in ret (Some api))
    ValueError
    (fun _ => ret None).

(** [save_uploaded_file], for the bytes of the upload
    ([uploaded_file.getvalue()]): the path of the copy, or [None]. *)
Definition save_uploaded_file (o : os) (data : list N) : IO (option str) :=
  try_except
    (let* name := tempfile_named o in
     with_file o name
       (os_file_write_bytes o name data ;;
        ret (Some name)))
    Exception
    (fun e => logger ERROR (u "保存文件失败: " ++ exn_str e) ;; ret None).

Section ProcessPdf.
(** The flag [has_magic] of [pdf_processor.py], what the libraries see of
    the file at a path, the module-level [pdf_processor], and the text of
    [traceback.format_exc()] for an exception. *)
Variable o : os.
Variable has_magic : bool.
Variable file_at : str -> file.
Variable pdf_processor : PDFProcessor.PDFProcessor.
Variable format_exc : exn -> str.

Definition process_pdf (file_path : str) : IO bool :=
  try_except
    (try_except
       (PDFProcessor.cleanup o pdf_processor)
       Exception
       (fun e => logger WARNING (u "清理临时目录失败: " ++ exn_str e)) ;;
     let* text := lift (PdfProcessor.extract_text has_magic (file_at file_path)) in
     session_set (u "pdf_text") (JStr text) ;;
     ret true)
    Exception
    (fun e =>
       logger ERROR (u "处理PDF失败: " ++ exn_str e) ;;
       logger ERROR (format_exc e) ;;
       ret false).

End ProcessPdf.

End Shell.

(** * Properties *)

Import Json Py Api PdfProcessor.
Local Open Scope py_scope.

(** A world in which nothing has happened yet. *)
Definition fresh : world := World [] [] 0.

(** ** Truncation (lines 64-66, 83-85, 102-104 of [api.py]) *)

Section Truncation.

Lemma len_app (a b : str) : len (a ++ b) = len a + len b.
Proof. unfold len. rewrite length_app. lia. Qed.

Lemma truncate_short (text : str) :
  len text <= max_length -> truncate text = text.
Proof.
  intros H. unfold truncate.
  destruct (N.ltb_spec max_length (len text)); [lia | reflexivity].
Qed.

Lemma truncate_long (text : str) :
  max_length < len text ->
  truncate text = slice_to max_length text ++ truncation_marker.
Proof.
  intros H. unfold truncate.
  destruct (N.ltb_spec max_length (len text)); [reflexivity | lia].
Qed.

Lemma len_slice_to (n : N) (s : str) : len (slice_to n s) = N.min n (len s).
Proof. unfold len, slice_to. rewrite length_take. lia. Qed.

Lemma truncate_bound (text : str) :
  len (truncate text) <= max_length + len truncation_marker.
Proof.
  destruct (N.le_gt_cases (len text) max_length) as [H | H].
  - rewrite truncate_short by exact H. lia.
  - rewrite truncate_long by exact H. rewrite len_app, len_slice_to. lia.
Qed.

(** C1. A text of at most 15,000 characters passes through the truncation
    step unchanged; a longer one becomes its first 15,000 characters
    followed by the fixed marker; the result is never longer than 15,000
    plus the length of the marker. The user message of each of the three
    operations embeds the text after this step. *)
Theorem truncation_step (text : str) :
  (len text <= 15000 -> truncate text = text)
  /\ (15000 < len text ->
      truncate text = slice_to 15000 text ++ u "...[内容过长，已截断]"
      /\ len (slice_to 15000 text) = 15000)
  /\ len (truncate text) <= 15000 + len truncation_marker
  /\ (forall analysis_type, exists system prompt,
        analyze_messages text analysis_type
        = JArr [system; message (u "user") (prompt ++ nl ++ nl ++ truncate text)])
  /\ (forall question, exists system,
        answer_messages text question
        = JArr [system;
                message (u "user")
                  (u "论文内容：" ++ nl ++ nl ++ truncate text
                     ++ nl ++ nl ++ u "问题：" ++ question)])
  /\ (exists system,
        key_points_messages text
        = JArr [system;
                message (u "user") (key_points_prompt ++ nl ++ nl ++ truncate text)]).
Proof.
  split; [exact (truncate_short text) |].
  split.
  { intros H. split; [| rewrite len_slice_to; lia].
    rewrite (truncate_long text H). unfold truncation_marker, max_length.
    reflexivity. }
  split; [exact (truncate_bound text) |].
  repeat split.
  - intros t. unfold analyze_messages. eauto.
  - intros q. unfold answer_messages. eauto.
  - unfold key_points_messages. eauto.
Qed.

(** The marker is thirteen characters long. *)
Example truncation_marker_length : len truncation_marker = 13.
Proof. reflexivity. Qed.

Lemma truncation_step_witness :
  truncate (u "abstract") = u "abstract"
  /\ truncate (replicate (N.to_nat 15001) 0x61)
     = replicate (N.to_nat 15000) 0x61 ++ truncation_marker.
Proof.
  split.
  - apply (proj1 (truncation_step (u "abstract"))). vm_compute. discriminate.
  - destruct (proj1 (proj2 (truncation_step (replicate (N.to_nat 15001) 0x61))))
      as [E _].
    + vm_compute. reflexivity.
    + rewrite E. vm_compute. reflexivity.
Defined.

End Truncation.


(** ** The prompt pipeline ([api.py]) *)

Section Pipeline.

Lemma isinstance_Exception (e : exn) : isinstance e Exception = true.
Proof. destruct e as [k s r]. destruct k; reflexivity. Qed.

Lemma prompts_summary :
  prompts !! u "summary" = Some (prompts !!! u "summary").
Proof. vm_compute. reflexivity. Qed.

Lemma prompts_unknown (t : str) :
  t ∉ [u "summary"; u "methodology"; u "results"; u "conclusion"] ->
  prompts !! t = None.
Proof.
  intros H.
  apply not_elem_of_cons in H as [H1 H].
  apply not_elem_of_cons in H as [H2 H].
  apply not_elem_of_cons in H as [H3 H].
  apply not_elem_of_cons in H as [H4 _].
  unfold prompts.
  rewrite lookup_insert_ne by (intros E; apply H1; symmetry; exact E).
  rewrite lookup_insert_ne by (intros E; apply H2; symmetry; exact E).
  rewrite lookup_insert_ne by (intros E; apply H3; symmetry; exact E).
  apply lookup_singleton_ne. intros E; apply H4; symmetry; exact E.
Qed.

Lemma analyze_messages_unknown (text t : str) :
  t ∉ [u "summary"; u "methodology"; u "results"; u "conclusion"] ->
  analyze_messages text t = analyze_messages text (u "summary").
Proof.
  intros H. unfold analyze_messages.
  rewrite (prompts_unknown t H), prompts_summary.
  cbn [default from_option id]. reflexivity.
Qed.



(** *** Construction of the client *)

(** The request [_call_api] posts. *)
Definition call_request (self : DeepSeekAPI) (messages : json) (temperature : str)
    : request :=
  Request (api_url self) (headers self)
    (JObj [(u "model", JStr (model self));
           (u "messages", messages);
           (u "temperature", JFloat temperature)]).

(** Every call of [_call_api] issues exactly one POST, whatever the
    endpoint does and whatever the client holds: there is no retry, and no
    check of the key at call time. *)
Lemma call_api_posts_once (self : DeepSeekAPI) (net : endpoint)
    (messages : json) (temperature : str) (w : world) :
  posts (_call_api self net messages temperature w).2
  = posts w ++ [call_request self messages temperature].
Proof.
  unfold _call_api, try_except, bind, requests_post.
  fold (call_request self messages temperature).
  destruct (net (call_request self messages temperature)) as [r | e]; cbn.
  - unfold raise_for_status. destruct (ok (info r)) eqn:Hok; cbn.
    + unfold response_json. destruct (json_method r) as [v | msg]; cbn; reflexivity.
    + rewrite Hok. reflexivity.
  - destruct (isinstance e RequestException); [| reflexivity].
    cbn. destruct (exn_response e) as [ri |]; [destruct (ok ri) |]; reflexivity.
Qed.

(** C7. With no API key configured (the variable unset, or empty)
    constructing the client raises the ValueError that the specification
    calls AuthError, and nothing has happened by then: no POST, no log
    record. The key is checked there and not per call: [_call_api] posts
    its request whatever client it is given. *)
Theorem init_without_key (env : environ) (w : world) :
  env !! u "DEEPSEEK_API_KEY" = None \/ env !! u "DEEPSEEK_API_KEY" = Some [] ->
  __init__ env w
    = (Raise (Exn ValueError (u "未设置DEEPSEEK_API_KEY环境变量") None), w)
  /\ (forall self net messages temperature w',
        posts (_call_api self net messages temperature w').2
        = posts w' ++ [call_request self messages temperature]).
Proof.
  intros H. split.
  - unfold __init__. destruct H as [-> | ->]; reflexivity.
  - intros. apply call_api_posts_once.
Qed.

Lemma init_without_key_witness :
  __init__ ∅ fresh
  = (Raise (Exn ValueError (u "未设置DEEPSEEK_API_KEY环境变量") None), fresh).
Proof.
  apply (init_without_key ∅ fresh). left. apply lookup_empty.
Defined.

(** With a key the client is built, again without touching the world. *)
Lemma init_with_key (env : environ) (w : world) (k0 : char) (k : str) :
  env !! u "DEEPSEEK_API_KEY" = Some (k0 :: k) ->
  exists self, __init__ env w = (Return self, w) /\ api_key self = k0 :: k.
Proof.
  intros H. unfold __init__. rewrite H. eexists. split; reflexivity.
Qed.

End Pipeline.

(** ** Errors of the model call *)

Section Transport.

Variable self : DeepSeekAPI.
Variable net : endpoint.

(** A status for which [raise_for_status] raises. *)
Definition error_status (st : Z) : Prop := (400 <= st < 600)%Z.

Lemma ok_error_status (ri : response_info) :
  error_status (status_code ri) -> ok ri = false.
Proof.
  unfold error_status, ok. intros [H1 H2].
  destruct (Z.leb_spec 400 (status_code ri)); [| lia].
  destruct (Z.ltb_spec (status_code ri) 600); [reflexivity | lia].
Qed.

Lemma ok_other_status (ri : response_info) :
  ~ error_status (status_code ri) -> ok ri = true.
Proof.
  unfold error_status, ok. intros H.
  destruct (Z.leb_spec 400 (status_code ri)); [| reflexivity].
  destruct (Z.ltb_spec (status_code ri) 600); [lia | reflexivity].
Qed.

(** What [_call_api] does with a 4xx or 5xx response: the [HTTPError] of
    [raise_for_status] is caught, one record is logged, and the same
    exception is raised again. The two records for the status and the body
    are not written, because the response of such an error is false. *)
Lemma call_api_error_status (messages : json) (temperature : str) (w : world)
    (r : response) :
  net (call_request self messages temperature) = inl r ->
  error_status (status_code (info r)) ->
  _call_api self net messages temperature w
  = (Raise (Exn HTTPError (http_error_msg r) (Some (info r))),
     World (posts w ++ [call_request self messages temperature])
           (log w ++ [Log ERROR (u "API请求失败: " ++ http_error_msg r)])
           (open_docs w)).
Proof.
  intros Hnet Hst.
  unfold _call_api, try_except, bind, requests_post.
  fold (call_request self messages temperature). rewrite Hnet.
  unfold raise_for_status. rewrite (ok_error_status _ Hst). cbn.
  rewrite (ok_error_status _ Hst). reflexivity.
Qed.

(** With any other status the body decides: the decoded value is
    returned. *)
Lemma call_api_other_status (messages : json) (temperature : str) (w : world)
    (r : response) (v : json) :
  net (call_request self messages temperature) = inl r ->
  ~ error_status (status_code (info r)) ->
  json_method r = inl v ->
  _call_api self net messages temperature w
  = (Return v,
     World (posts w ++ [call_request self messages temperature]) (log w) (open_docs w)).
Proof.
  intros Hnet Hst Hjson.
  unfold _call_api, try_except, bind, requests_post.
  fold (call_request self messages temperature). rewrite Hnet.
  unfold raise_for_status. rewrite (ok_other_status _ Hst). cbn.
  unfold response_json. rewrite Hjson. reflexivity.
Qed.

(** C6, as amended. When the endpoint answers with a 4xx or 5xx status,
    [_call_api] raises the [HTTPError] of [raise_for_status], a
    [RequestException] that carries the status code and the body of the
    response; and in every case, whatever the endpoint does, exactly one
    POST has been issued when the call ends. *)
Theorem call_api_http_error (messages : json) (temperature : str) (w : world) :
  (forall r,
     net (call_request self messages temperature) = inl r ->
     error_status (status_code (info r)) ->
     exists e,
       (_call_api self net messages temperature w).1 = Raise e
       /\ isinstance e RequestException = true
       /\ exn_response e = Some (info r))
  /\ posts (_call_api self net messages temperature w).2
     = posts w ++ [call_request self messages temperature].
Proof.
  split.
  - intros r Hnet Hst.
    rewrite (call_api_error_status messages temperature w r Hnet Hst).
    eexists. repeat split.
  - apply call_api_posts_once.
Qed.

End Transport.

(** A client and three endpoints for the examples below. *)
Definition a_client : DeepSeekAPI :=
  {| api_key := u "sk-test";
     api_url := u "https://api.deepseek.com/v1/chat/completions";
     model := u "deepseek-chat";
     headers := [(u "Content-Type", u "application/json");
                 (u "Authorization", u "Bearer sk-test")] |}.

Definition not_found : response :=
  Response (ResponseInfo 404 (u "no such route")) (u "Not Found")
           (u "https://api.deepseek.com/v1/chat/completions")
           (inr (u "Expecting value: line 1 column 1 (char 0)")).

Definition not_modified : response :=
  Response (ResponseInfo 304 (u "{}")) (u "Not Modified")
           (u "https://api.deepseek.com/v1/chat/completions")
           (inl (JObj [])).

Lemma call_api_http_error_witness :
  exists e,
    (_call_api a_client (fun _ => inl not_found) (JArr []) default_temperature fresh).1
    = Raise e
    /\ isinstance e RequestException = true
    /\ exn_response e = Some (ResponseInfo 404 (u "no such route")).
Proof.
  apply (proj1 (call_api_http_error a_client (fun _ => inl not_found)
                  (JArr []) default_temperature fresh) not_found).
  - reflexivity.
  - unfold error_status. cbn. lia.
Defined.

(** C6, as stated, fails: a response with status 304 is not a 2xx
    response, and [_call_api] raises nothing for it; it returns the
    decoded body. *)
Lemma call_api_non_2xx_counterexample :
  ~ (200 <= status_code (info not_modified) < 300)%Z
  /\ (_call_api a_client (fun _ => inl not_modified) (JArr []) default_temperature
        fresh).1
     = Return (JObj []).
Proof.
  split.
  - cbn. lia.
  - rewrite (call_api_other_status a_client (fun _ => inl not_modified)
               (JArr []) default_temperature fresh not_modified (JObj []));
      [reflexivity | reflexivity | unfold error_status; cbn; lia | reflexivity].
Qed.

(** The log after a 404: the one record of the failure, and neither the
    status code nor the body. *)
Example call_api_404_log :
  log (_call_api a_client (fun _ => inl not_found) (JArr []) default_temperature
         fresh).2
  = [Log ERROR (u "API请求失败: 404 Client Error: Not Found for url: https://api.deepseek.com/v1/chat/completions")].
Proof. vm_compute. reflexivity. Qed.

(** ** Which errors reach the caller *)

Section Propagation.

Variable decode_error_text : str -> str.
Variable self : DeepSeekAPI.
Variable net : endpoint.

(** The model call of an operation followed by the navigation into the
    reply: what the three operations run inside their [try]. *)
Definition ask (messages : json) (temperature : str) : M json :=
  let* response := _call_api self net messages temperature in
  reply_content response.

Lemma analyze_paper_reraises (text t : str) (w w1 : world) (e : exn) :
  ask (analyze_messages text t) default_temperature w = (Raise e, w1) ->
  (analyze_paper self net text t w).1 = Raise e.
Proof.
  unfold ask, analyze_paper, try_except. intros ->.
  rewrite isinstance_Exception. reflexivity.
Qed.

Lemma answer_question_reraises (text q : str) (w w1 : world) (e : exn) :
  ask (answer_messages text q) default_temperature w = (Raise e, w1) ->
  (answer_question self net text q w).1 = Raise e.
Proof.
  unfold ask, answer_question, try_except. intros ->.
  rewrite isinstance_Exception. reflexivity.
Qed.

Lemma recover_json_returns (content : json) (w : world) :
  (exists v w1, recover_json decode_error_text content w = (Return v, w1))
  \/ (exists e w1, recover_json decode_error_text content w = (Raise e, w1)
                   /\ exn_cls e = TypeError).
Proof.
  unfold recover_json, try_except, json_loads.
  destruct content; try (right; eexists _, _; split; reflexivity).
  left. destruct (loads (json_candidate s)); cbn; eauto.
Qed.

(** Whatever happens inside, [extract_key_points] returns a value. *)
Lemma extract_key_points_returns (text : str) (w : world) :
  exists v, (extract_key_points decode_error_text self net text w).1 = Return v.
Proof.
  unfold extract_key_points, try_except.
  match goal with |- context [match ?b w with _ => _ end] => destruct (b w) as [[v | e] w1] end.
  - eauto.
  - rewrite isinstance_Exception. cbn. eauto.
Qed.

(** An error of the model call or of the navigation into the reply
    becomes an error-flagged value that carries the text of the error. *)
Lemma extract_key_points_absorbs (text : str) (w w1 : world) (e : exn) :
  ask (key_points_messages text) low_temperature w = (Raise e, w1) ->
  (extract_key_points decode_error_text self net text w).1
  = Return (JObj [(u "error", JBool true); (u "message", JStr (exn_str e))]).
Proof.
  unfold ask, extract_key_points, try_except, bind.
  destruct (_call_api self net (key_points_messages text) low_temperature w)
    as [[response | e0] w0].
  - destruct (reply_content response w0) as [[content | e1] w2]; [discriminate |].
    intros [= -> ->]. rewrite isinstance_Exception. reflexivity.
  - intros [= -> ->]. rewrite isinstance_Exception. reflexivity.
Qed.

End Propagation.

Section DocumentErrors.

Lemma extract_text_reraises_validation (has_magic : bool) (f : file) (w : world)
    (e : exn) :
  (validate_pdf has_magic f w).1 = Raise e ->
  (extract_text has_magic f w).1 = Raise e.
Proof.
  unfold extract_text, bind.
  destruct (validate_pdf has_magic f w) as [[b | e0] w0]; cbn; [discriminate |].
  intros [= ->]. rewrite isinstance_Exception. reflexivity.
Qed.

Lemma extract_text_reraises_open (has_magic : bool) (f : file) (w w0 : world)
    (b : bool) (e : exn) :
  validate_pdf has_magic f w = (Return b, w0) ->
  fitz_open f = inr e ->
  (extract_text has_magic f w).1 = Raise e.
Proof.
  unfold extract_text, bind, fitz_open_. intros -> ->.
  rewrite isinstance_Exception. reflexivity.
Qed.

End DocumentErrors.


Definition unreachable : endpoint :=
  fun _ => inr (Exn ConnectionError (u "Connection refused") None).



(** The same for a reply of the wrong shape: no [choices] key. *)
Example key_points_shape_error :
  (extract_key_points (fun _ => []) a_client (fun _ => inl not_modified)
     (u "text") fresh).1
  = Return (JObj [(u "error", JBool true); (u "message", JStr (u "'choices'"))]).
Proof. vm_compute. reflexivity. Qed.

(** ** Text extraction ([pdf_processor.py]) *)

Section Extraction.

(** A page whose text comes out. *)
Definition text_page (t : str) : page := Page (inl t).

Lemma pages_loop_text_pages (texts : list str) (rest : list page) (n : Z)
    (acc : list str) (w : world) :
  pages_loop (map text_page texts ++ rest) n acc w
  = pages_loop rest (n + Z.of_nat (length texts))%Z (acc ++ texts) w.
Proof.
  revert n acc. induction texts as [| t texts IH]; intros n acc; cbn [map app length].
  - rewrite Z.add_0_r, app_nil_r. reflexivity.
  - cbn [pages_loop text_page]. unfold bind at 1. unfold try_except, bind, get_text_, ret.
    rewrite IH. f_equal; [lia |]. rewrite <- app_assoc. reflexivity.
Qed.

Lemma pages_loop_failing_page (e : exn) (rest : list page) (n : Z)
    (acc : list str) (w : world) :
  pages_loop (Page (inr e) :: rest) n acc w
  = pages_loop rest (n + 1)%Z acc
      (World (posts w)
             (log w ++ [Log WARNING (u "提取第" ++ str_of_int (n + 1)
                                       ++ u "页文本时出错: " ++ exn_str e)])
             (open_docs w)).
Proof.
  cbn [pages_loop]. unfold bind at 1. unfold try_except, bind at 1, get_text_, raise.
  rewrite isinstance_Exception. reflexivity.
Qed.

Lemma pages_loop_nil (n : Z) (acc : list str) (w : world) :
  pages_loop [] n acc w = (Return acc, w).
Proof. reflexivity. Qed.

(** C4. When the validation passes and the document opens, and the text
    extraction of exactly one page raises, [extract_text] returns the texts
    of the other pages, in page order, joined by line breaks; it does not
    raise. *)
Theorem extract_text_skips_failing_page (has_magic : bool) (f : file)
    (w w0 : world) (b : bool) (before after : list str) (e : exn) :
  validate_pdf has_magic f w = (Return b, w0) ->
  fitz_open f = inl (map text_page before ++ Page (inr e) :: map text_page after) ->
  (extract_text has_magic f w).1 = Return (join [0x0A] (before ++ after)).
Proof.
  intros Hv Ho. unfold extract_text.
  unfold bind at 1. rewrite Hv. unfold fitz_open_. rewrite Ho.
  unfold try_finally, try_except. unfold bind at 1.
  rewrite pages_loop_text_pages, pages_loop_failing_page.
  rewrite <- (app_nil_r (map text_page after)).
  rewrite pages_loop_text_pages, pages_loop_nil.
  reflexivity.
Qed.

(** *** The document handle *)

Lemma logger_open_docs (lv : level) (msg : str) (w : world) :
  open_docs (logger lv msg w).2 = open_docs w.
Proof. reflexivity. Qed.

Lemma validate_pdf_open_docs (has_magic : bool) (f : file) (w : world) :
  open_docs (validate_pdf has_magic f w).2 = open_docs w.
Proof.
  unfold validate_pdf, try_except, bind.
  destruct has_magic.
  - unfold magic_from_file_. destruct (magic_from_file f) as [t | e]; cbn.
    + destruct (negb (Str.eqb t pdf_mime)); cbn; [| reflexivity].
      reflexivity.
    + rewrite isinstance_Exception. reflexivity.
  - destruct (negb (bool_decide (guess_type f = Some pdf_mime))); cbn; [| reflexivity].
    unfold fitz_open_. destruct (fitz_open f) as [doc | e]; cbn; [reflexivity |].
    rewrite isinstance_Exception. cbn. reflexivity.
Qed.

Lemma pages_loop_open_docs (doc : list page) (n : Z) (acc : list str) (w : world) :
  open_docs (pages_loop doc n acc w).2 = open_docs w.
Proof.
  revert n acc w. induction doc as [| p doc IH]; intros n acc w; [reflexivity |].
  destruct p as [[t | e] | e].
  - change (Page (inl t) :: doc) with (map text_page [t] ++ doc).
    rewrite pages_loop_text_pages. apply IH.
  - rewrite pages_loop_failing_page, IH. reflexivity.
  - reflexivity.
Qed.

(** C9. On every exit path of [extract_text] the document it opened has
    been closed when the call ends: the number of open documents is what it
    was before the call, whether the call returns the text or raises, from
    the validation, from opening the file, or from a page. *)
Theorem extract_text_releases_document (has_magic : bool) (f : file) (w : world) :
  open_docs (extract_text has_magic f w).2 = open_docs w.
Proof.
  unfold extract_text. unfold bind at 1.
  pose proof (validate_pdf_open_docs has_magic f w) as Hv.
  destruct (validate_pdf has_magic f w) as [[b | e] w0]; cbn [snd] in Hv.
  - unfold fitz_open_. destruct (fitz_open f) as [doc | e].
    + unfold try_finally, try_except, doc_close. unfold bind at 1.
      pose proof (pages_loop_open_docs doc 0 [] (World (posts w0) (log w0) (S (open_docs w0))))
        as Hp.
      destruct (pages_loop doc 0 []
                  (World (posts w0) (log w0) (S (open_docs w0)))) as [[texts | e] w1];
        cbn [snd open_docs] in *.
      * cbn. rewrite Hp. cbn. exact Hv.
      * rewrite isinstance_Exception. cbn. rewrite Hp. cbn. exact Hv.
    + rewrite isinstance_Exception. cbn. exact Hv.
  - rewrite isinstance_Exception. cbn. exact Hv.
Qed.

(** The handle is really opened on the way: between the opening and the
    [finally] clause one more document is open. *)
Lemma fitz_open_opens (f : file) (doc : list page) (w : world) :
  fitz_open f = inl doc ->
  fitz_open_ f w = (Return doc, World (posts w) (log w) (S (open_docs w))).
Proof. unfold fitz_open_. intros ->. reflexivity. Qed.

End Extraction.

(** Three files for the examples: a PDF of three pages whose second page
    cannot be read, a text file named like a PDF, and a text file. *)
Definition broken_page : exn := Exn RuntimeError (u "cannot load page contents") None.

Definition three_pages : file :=
  {| magic_from_file := inl (u "application/pdf");
     guess_type := Some (u "application/pdf");
     fitz_open := inl [Page (inl (u "one")); Page (inr broken_page);
                       Page (inl (u "three"))] |}.

Definition not_a_pdf : exn := Exn RuntimeError (u "Failed to open file") None.

Definition renamed_text_file : file :=
  {| magic_from_file := inl (u "text/plain");
     guess_type := Some (u "application/pdf");
     fitz_open := inr not_a_pdf |}.

Definition text_file : file :=
  {| magic_from_file := inl (u "text/plain");
     guess_type := Some (u "text/plain");
     fitz_open := inr not_a_pdf |}.

Lemma extract_text_skips_failing_page_witness :
  (extract_text true three_pages fresh).1 = Return (u "one" ++ [0x0A] ++ u "three").
Proof.
  apply (extract_text_skips_failing_page true three_pages fresh fresh true
           [u "one"] [u "three"] broken_page); reflexivity.
Defined.

Section Validation.

Lemma validate_pdf_sniffed (f : file) (w : world) (t : str) :
  magic_from_file f = inl t ->
  t <> pdf_mime ->
  validate_pdf true f w
  = (Raise (Exn ValueError (u "无效的文件类型: " ++ t) None),
     World (posts w)
           (log w ++ [Log ERROR (u "PDF验证失败: " ++ (u "无效的文件类型: " ++ t))])
           (open_docs w)).
Proof.
  intros Hm Ht. unfold validate_pdf, try_except, bind, magic_from_file_.
  rewrite Hm. cbn. unfold Str.eqb. rewrite bool_decide_eq_false_2 by exact Ht.
  reflexivity.
Qed.

Lemma validate_pdf_fallback_rejects (f : file) (w : world) (e0 : exn) :
  guess_type f <> Some pdf_mime ->
  fitz_open f = inr e0 ->
  validate_pdf false f w
  = (Raise (Exn ValueError (u "无效的PDF文件: " ++ exn_str e0) None),
     World (posts w)
           (log w ++ [Log ERROR (u "PDF验证失败: " ++ (u "无效的PDF文件: " ++ exn_str e0))])
           (open_docs w)).
Proof.
  intros Hg Ho. unfold validate_pdf, try_except, bind, fitz_open_.
  rewrite bool_decide_eq_false_2 by exact Hg. cbn. rewrite Ho.
  rewrite isinstance_Exception. reflexivity.
Qed.

Lemma validate_pdf_fallback_accepts_name (f : file) (w : world) :
  guess_type f = Some pdf_mime ->
  validate_pdf false f w = (Return true, w).
Proof.
  intros Hg. unfold validate_pdf, try_except, bind.
  rewrite bool_decide_eq_true_2 by exact Hg. reflexivity.
Qed.

(** C5, as amended. With content sniffing, a file whose sniffed type is not
    application/pdf makes [validate_pdf] and [extract_text] raise the
    ValueError the specification calls InvalidDocument. With the fallback,
    the same holds for a file whose name is not guessed as PDF and which
    cannot be opened; a file whose name is guessed as PDF passes
    [validate_pdf] whatever it contains. *)
Theorem validate_pdf_rejections (f : file) (w : world) :
  (forall t,
     magic_from_file f = inl t -> t <> pdf_mime ->
     exists e, exn_cls e = ValueError
               /\ (validate_pdf true f w).1 = Raise e
               /\ (extract_text true f w).1 = Raise e)
  /\ (forall e0,
        guess_type f <> Some pdf_mime -> fitz_open f = inr e0 ->
        exists e, exn_cls e = ValueError
                  /\ (validate_pdf false f w).1 = Raise e
                  /\ (extract_text false f w).1 = Raise e)
  /\ (guess_type f = Some pdf_mime -> validate_pdf false f w = (Return true, w)).
Proof.
  split; [| split].
  - intros t Hm Ht. eexists. split; [| split].
    2: { rewrite (validate_pdf_sniffed f w t Hm Ht). reflexivity. }
    + reflexivity.
    + apply extract_text_reraises_validation.
      rewrite (validate_pdf_sniffed f w t Hm Ht). reflexivity.
  - intros e0 Hg Ho. eexists. split; [| split].
    2: { rewrite (validate_pdf_fallback_rejects f w e0 Hg Ho). reflexivity. }
    + reflexivity.
    + apply extract_text_reraises_validation.
      rewrite (validate_pdf_fallback_rejects f w e0 Hg Ho). reflexivity.
  - apply validate_pdf_fallback_accepts_name.
Qed.

End Validation.

Lemma validate_pdf_rejections_witness :
  (exists e, exn_cls e = ValueError
             /\ (validate_pdf true renamed_text_file fresh).1 = Raise e
             /\ (extract_text true renamed_text_file fresh).1 = Raise e)
  /\ (exists e, exn_cls e = ValueError
                /\ (validate_pdf false text_file fresh).1 = Raise e
                /\ (extract_text false text_file fresh).1 = Raise e).
Proof.
  split.
  - apply (proj1 (validate_pdf_rejections renamed_text_file fresh) (u "text/plain")).
    + reflexivity.
    + vm_compute. discriminate.
  - apply (proj1 (proj2 (validate_pdf_rejections text_file fresh)) not_a_pdf).
    + vm_compute. discriminate.
    + reflexivity.
Defined.

(** C5, as stated, fails: with the name-based fallback a text file that
    carries a .pdf name passes [validate_pdf], and [extract_text] then
    fails with the error of opening it, which is no ValueError. *)
Lemma renamed_text_file_counterexample :
  magic_from_file renamed_text_file <> inl pdf_mime
  /\ (validate_pdf false renamed_text_file fresh).1 = Return true
  /\ (extract_text false renamed_text_file fresh).1 = Raise not_a_pdf
  /\ isinstance not_a_pdf ValueError = false.
Proof.
  split; [vm_compute; discriminate |].
  repeat split; vm_compute; reflexivity.
Qed.

(** ** JSON recovery (lines 129-149 of [api.py]) *)

(** *** The regular expressions *)

Import Re.

(** Number of leading characters that satisfy [p]. *)
Fixpoint run_length (p : char -> bool) (s : str) : nat :=
  match s with
  | x :: s' => if p x then S (run_length p s') else O
  | [] => O
  end.

(** The offset just after the last character that satisfies [p]; [0] when
    there is none. *)
Fixpoint through_last (p : char -> bool) (s : str) : nat :=
  match s with
  | x :: s' => if p x || existsb p s' then S (through_last p s') else O
  | [] => O
  end.

Section ReFacts.
Context {R : Type}.
Implicit Types (k : @cont R) (p : N -> bool).

Lemma run_lits (w : str) k (i : nat) (g : span) (rest : str) :
  run (lits w) k i g rest
  = match strip_prefix w rest with
    | Some rest' => k (i + length w)%nat g rest'
    | None => None
    end.
Proof.
  revert i rest. induction w as [| a w IH]; intros i rest; cbn.
  - rewrite Nat.add_0_r. reflexivity.
  - destruct rest as [| x rest]; [reflexivity |].
    rewrite (N.eqb_sym a x). destruct (x =? a); [| reflexivity].
    rewrite IH. rewrite Nat.add_succ_r. reflexivity.
Qed.

(** A greedy run followed by a literal whose first character is outside
    the class: only the end of the maximal run can match. *)
Lemma star_greedy_lits p (a : char) (w : str) k (i : nat) (g : span) (rest : str) :
  p a = false ->
  star_greedy p (run (lits (a :: w)) k) i g rest
  = run (lits (a :: w)) k (i + run_length p rest)%nat g (drop (run_length p rest) rest).
Proof.
  intros Ha. revert i. induction rest as [| x rest IH]; intros i.
  - cbn [star_greedy run_length drop]. rewrite Nat.add_0_r. reflexivity.
  - cbn [star_greedy run_length]. destruct (p x) eqn:Hx.
    + rewrite IH. cbn [drop].
      replace (i + S (run_length p rest))%nat with (S i + run_length p rest)%nat by lia.
      destruct (run (lits (a :: w)) k (S i + run_length p rest)
                  g (drop (run_length p rest) rest)); [reflexivity |].
      cbn. destruct (N.eqb_spec x a) as [-> | _]; [congruence | reflexivity].
    + cbn [drop]. rewrite Nat.add_0_r. reflexivity.
Qed.

End ReFacts.

(** The continuation that ends a match attempt started at [i0]. *)
Definition final (ma : bool) (i0 : nat) : @cont match_object :=
  fun j g _ => if ma && (j =? i0)%nat then None else Some (Match i0 j g).

Lemma match_at_final r ma i rest : match_at r ma i rest = run r (final ma i) i None rest.
Proof. reflexivity. Qed.

Lemma star_greedy_final p ma (i0 i : nat) (g : span) (rest : str) :
  (i0 <= i)%nat ->
  star_greedy p (final ma i0) i g rest
  = if ma && (i + run_length p rest =? i0)%nat then None
    else Some (Match i0 (i + run_length p rest) g).
Proof.
  revert i. induction rest as [| x rest IH]; intros i Hi.
  - cbn [star_greedy run_length]. rewrite Nat.add_0_r. reflexivity.
  - cbn [star_greedy run_length]. destruct (p x).
    + rewrite IH by lia. rewrite Nat.add_succ_r. cbn [Nat.add].
      replace (S (i + run_length p rest) =? i0)%nat with false
        by (symmetry; apply Nat.eqb_neq; lia).
      rewrite andb_false_r. reflexivity.
    + rewrite Nat.add_0_r. reflexivity.
Qed.

(** A pattern anchored at the start matches nowhere else. *)
Lemma search_from_bol (r : regex) ma (i : nat) (rest : str) :
  search_from (Cat Bol r) ma (S i) rest = None.
Proof.
  revert ma i. induction rest as [| x rest IH]; intros ma i; cbn; [reflexivity |].
  apply IH.
Qed.

Lemma search_from_unfold r ma i rest :
  search_from r ma i rest
  = match match_at r ma i rest with
    | Some mo => Some mo
    | None =>
      match rest with
      | [] => None
      | _ :: rest' => search_from r false (S i) rest'
      end
    end.
Proof. destruct rest; reflexivity. Qed.

(** [re.sub] with the leading pattern. *)
Lemma sub_leading (x0 : char) (s : str) :
  Re.sub (Cat Bol (Star true (notchar x0))) [] s
  = drop (run_length (notchar x0) s) s.
Proof.
  unfold Re.sub.
  replace (2 * length s + 2)%nat with (S (S (2 * length s))) by lia.
  cbn [sub_loop].
  rewrite search_from_unfold, match_at_final. cbn [run].
  rewrite star_greedy_final by lia. cbn [andb Nat.add m_start m_end].
  rewrite Nat.sub_0_r. cbn [take app].
  rewrite search_from_unfold, match_at_final.
  destruct (run_length (notchar x0) s) as [| n'] eqn:Hn.
  - cbn [run Nat.eqb Nat.sub]. rewrite !drop_0. rewrite star_greedy_final by lia. rewrite Hn. cbn.
    destruct s; [reflexivity |]. rewrite search_from_bol. reflexivity.
  - cbn [run Nat.eqb Nat.sub]. destruct (drop (S n') s); [reflexivity |].
    rewrite search_from_bol. reflexivity.
Qed.

(** *** The trailing pattern *)

Definition is_char (x0 : char) (x : char) : bool := x =? x0.

Lemma star_greedy_eol_blocked {R} (x0 : char) (k : @cont R) (i : nat) (g : span)
    (rest : str) :
  (x0 =? 0x0A) = false ->
  existsb (is_char x0) rest = true ->
  star_greedy (notchar x0) (run Eol k) i g rest = None.
Proof.
  intros Hnl. revert i. induction rest as [| x rest IH]; intros i H; [discriminate |].
  cbn [existsb] in H. cbn [star_greedy]. unfold notchar at 1. unfold is_char at 1 in H.
  destruct (N.eqb_spec x x0) as [-> | Hx]; cbn [negb orb] in *.
  - cbn [run]. destruct rest; [rewrite Hnl |]; reflexivity.
  - rewrite (IH _ H). cbn [run]. destruct rest; [discriminate | reflexivity].
Qed.

Lemma star_greedy_eol_free (x0 : char) ma (i0 i : nat) (g : span) (rest : str) :
  (i0 <= i)%nat ->
  existsb (is_char x0) rest = false ->
  star_greedy (notchar x0) (run Eol (final ma i0)) i g rest
  = if ma && (i + length rest =? i0)%nat then None
    else Some (Match i0 (i + length rest) g).
Proof.
  revert i. induction rest as [| x rest IH]; intros i Hi H.
  - cbn. rewrite Nat.add_0_r. reflexivity.
  - cbn [existsb] in H. apply orb_false_elim in H as [Hx H].
    cbn [star_greedy length]. unfold notchar at 1. unfold is_char in Hx. rewrite Hx.
    cbn [negb]. rewrite (IH (S i)) by (lia || exact H). cbn [Nat.add].
    rewrite Nat.add_succ_r.
    replace (S (i + length rest) =? i0)%nat with false
      by (symmetry; apply Nat.eqb_neq; lia).
    rewrite andb_false_r. reflexivity.
Qed.

Lemma match_at_trailing (x0 : char) ma (i : nat) (rest : str) :
  (x0 =? 0x0A) = false ->
  match_at (Cat (Star true (notchar x0)) Eol) ma i rest
  = if existsb (is_char x0) rest then None
    else if ma && (length rest =? 0)%nat then None
    else Some (Match i (i + length rest) None).
Proof.
  intros Hnl. rewrite match_at_final.
  change (run (Cat (Star true (notchar x0)) Eol) (final ma i) i None rest)
    with (star_greedy (notchar x0) (run Eol (final ma i)) i None rest).
  destruct (existsb (is_char x0) rest) eqn:H.
  - apply star_greedy_eol_blocked; assumption.
  - rewrite star_greedy_eol_free by (lia || exact H).
    replace (i + length rest =? i)%nat with (length rest =? 0)%nat; [reflexivity |].
    destruct (Nat.eqb_spec (length rest) 0), (Nat.eqb_spec (i + length rest) i);
      (reflexivity || lia).
Qed.

Lemma search_from_trailing (x0 : char) (i : nat) (rest : str) :
  (x0 =? 0x0A) = false ->
  search_from (Cat (Star true (notchar x0)) Eol) false i rest
  = Some (Match (i + through_last (is_char x0) rest) (i + length rest) None).
Proof.
  intros Hnl. revert i. induction rest as [| x rest IH]; intros i.
  - rewrite search_from_unfold, match_at_trailing by exact Hnl. cbn.
    rewrite Nat.add_0_r. reflexivity.
  - rewrite search_from_unfold, match_at_trailing by exact Hnl.
    cbn [existsb through_last]. destruct (is_char x0 x || existsb (is_char x0) rest).
    + rewrite IH. cbn [length]. rewrite !Nat.add_succ_r. reflexivity.
    + cbn. rewrite Nat.add_0_r. reflexivity.
Qed.

Lemma sub_trailing (x0 : char) (s : str) :
  (x0 =? 0x0A) = false ->
  Re.sub (Cat (Star true (notchar x0)) Eol) [] s
  = take (through_last (is_char x0) s) s.
Proof.
  intros Hnl. unfold Re.sub.
  replace (2 * length s + 2)%nat with (S (S (2 * length s))) by lia.
  generalize (2 * length s)%nat as fuel. intros fuel.
  cbn [sub_loop]. rewrite search_from_trailing by exact Hnl.
  cbn [m_start m_end Nat.add]. rewrite !Nat.sub_0_r, drop_all.
  rewrite search_from_unfold, match_at_trailing by exact Hnl.
  cbn [existsb length Nat.eqb andb]. rewrite andb_true_r.
  rewrite <- (app_nil_r (take _ s)) at 2. f_equal.
  destruct (length s =? through_last (is_char x0) s)%nat; [reflexivity |].
  cbn [m_start m_end app]. rewrite take_nil, drop_nil, Nat.add_0_r, Nat.eqb_refl.
  destruct fuel as [| fuel]; [reflexivity |].
  cbn [sub_loop]. rewrite search_from_unfold, match_at_trailing by exact Hnl.
  reflexivity.
Qed.

(** *** The fence pattern *)

(** The text before the first occurrence of [w] in [s], and the text after
    that occurrence. *)
Fixpoint find (w s : str) : option (str * str) :=
  match strip_prefix w s with
  | Some rest => Some ([], rest)
  | None =>
    match s with
    | [] => None
    | x :: s' =>
      match find w s' with
      | Some (a, b) => Some (x :: a, b)
      | None => None
      end
    end
  end.

Definition nonspace (x : char) : bool := negb (isspace x).

Lemma strip_prefix_split (w s r : str) : strip_prefix w s = Some r -> s = w ++ r.
Proof.
  revert s. induction w as [| a w IH]; intros s H; cbn in H.
  - injection H as <-. reflexivity.
  - destruct s as [| x s]; [discriminate |].
    destruct (N.eqb_spec a x) as [-> | _]; [| discriminate].
    cbn. f_equal. apply IH. exact H.
Qed.

Lemma strip_prefix_app (w r : str) : strip_prefix w (w ++ r) = Some r.
Proof.
  induction w as [| a w IH]; cbn; [reflexivity |]. rewrite N.eqb_refl. exact IH.
Qed.

Lemma find_split (w s a b : str) : find w s = Some (a, b) -> s = a ++ w ++ b.
Proof.
  revert a. induction s as [| x s IH]; intros a H; cbn [find] in H.
  - destruct (strip_prefix w []) eqn:E; [| discriminate].
    injection H as <- <-. apply strip_prefix_split in E. exact E.
  - destruct (strip_prefix w (x :: s)) eqn:E.
    + injection H as <- <-. apply strip_prefix_split in E. exact E.
    + destruct (find w s) as [[a' b'] |] eqn:F; [| discriminate].
      injection H as <- <-. cbn. f_equal. apply IH. reflexivity.
Qed.

Lemma find_cons_none (w : str) (x : char) (s : str) :
  find w (x :: s) = None -> find w s = None.
Proof.
  cbn [find]. destruct (strip_prefix w (x :: s)); [discriminate |].
  destruct (find w s) as [[a b] |]; [discriminate | reflexivity].
Qed.

Lemma find_drop_none (w : str) (n : nat) (s : str) :
  find w s = None -> find w (drop n s) = None.
Proof.
  revert s. induction n as [| n IH]; intros s H; [rewrite drop_0; exact H |].
  destruct s as [| x s]; [exact H |]. cbn [drop]. apply IH.
  exact (find_cons_none _ _ _ H).
Qed.

Lemma find_none_prefix (w s : str) : find w s = None -> strip_prefix w s = None.
Proof.
  destruct s; cbn [find]; destruct (strip_prefix w _); (discriminate || reflexivity).
Qed.

Lemma through_last_0 (p : char -> bool) (s : str) :
  through_last p s = O <-> existsb p s = false.
Proof.
  destruct s as [| x s]; cbn; [tauto |].
  destruct (p x || existsb p s); split; (discriminate || reflexivity).
Qed.

Section Fence.

Variable a : char.
Variable w : str.                  (* the closing literal is [a :: w] *)
Hypothesis a_nonspace : isspace a = false.

(** The least offset from which only white space precedes the closing
    literal. *)
Fixpoint lazy_end (r : str) : option nat :=
  match strip_prefix (a :: w) (drop (run_length isspace r) r) with
  | Some _ => Some O
  | None =>
    match r with
    | [] => None
    | _ :: r' => S <$> lazy_end r'
    end
  end.

Lemma strip_prefix_close_space (x : char) (r : str) :
  isspace x = true -> strip_prefix (a :: w) (x :: r) = None.
Proof using a a_nonspace w.
  intros Hx. cbn. destruct (N.eqb_spec a x) as [-> | _]; [congruence | reflexivity].
Qed.

Lemma lazy_end_find_none (r : str) : find (a :: w) r = None -> lazy_end r = None.
Proof.
  induction r as [| x r IH]; intros H.
  - cbn [lazy_end run_length]. rewrite drop_0, (find_none_prefix _ _ H). reflexivity.
  - cbn [lazy_end].
    rewrite (find_none_prefix _ _ (find_drop_none _ (run_length isspace (x :: r)) _ H)).
    rewrite (IH (find_cons_none _ _ _ H)). reflexivity.
Qed.

Lemma lazy_end_unfold (r : str) :
  lazy_end r
  = match strip_prefix (a :: w) (drop (run_length isspace r) r) with
    | Some _ => Some O
    | None =>
      match r with
      | [] => None
      | _ :: r' => S <$> lazy_end r'
      end
    end.
Proof. destruct r; reflexivity. Qed.

Lemma lazy_end_find (r inner post : str) :
  find (a :: w) r = Some (inner, post) ->
  lazy_end r = Some (through_last nonspace inner).
Proof using a a_nonspace w.
  revert inner. induction r as [| x r IH]; intros inner H.
  - cbn in H. discriminate.
  - cbn [find] in H. destruct (strip_prefix (a :: w) (x :: r)) as [r0 |] eqn:E.
    + injection H as <- <-. rewrite lazy_end_unfold.
      assert (isspace x = false) as Hx.
      { cbn in E. destruct (N.eqb_spec a x) as [<- | _]; [exact a_nonspace | discriminate]. }
      cbn [run_length]. rewrite Hx, drop_0, E. reflexivity.
    + destruct (find (a :: w) r) as [[inner' post'] |] eqn:F; [| discriminate].
      injection H as <- <-. specialize (IH inner' eq_refl).
      rewrite lazy_end_unfold. cbn [run_length through_last]. unfold nonspace at 1.
      destruct (isspace x) eqn:Hx; cbn [negb orb skipn].
      * pose proof IH as IH2. rewrite lazy_end_unfold in IH2.
        destruct (strip_prefix (a :: w) (drop (run_length isspace r) r)) eqn:E2.
        -- injection IH2 as IH2. symmetry in IH2. apply through_last_0 in IH2.
           rewrite IH2. reflexivity.
        -- rewrite IH. destruct (existsb nonspace inner') eqn:Ex; [reflexivity |].
           apply through_last_0 in Ex. rewrite Ex in IH2.
           destruct r as [| y r]; [discriminate |].
           destruct (lazy_end r); discriminate.
      * rewrite E, IH. reflexivity.
Qed.

End Fence.

Lemma star_lazy_unfold {R} p (k : @cont R) i g rest :
  star_lazy p k i g rest
  = match k i g rest with
    | Some r => Some r
    | None =>
      match rest with
      | x :: rest' => if p x then star_lazy p k (S i) g rest' else None
      | [] => None
      end
    end.
Proof. destruct rest; reflexivity. Qed.

Section FenceMatch.

Variable op : str.
Variable a : char.
Variable w : str.
Hypothesis a_nonspace : isspace a = false.

Abbreviation close := (a :: w).
Abbreviation lazy_end := (lazy_end a w).

(** White space and the closing literal. *)
Definition closing : regex := Cat (Star true isspace) (lits close).

(** The pattern from the group on, and the whole pattern. *)
Definition body_pattern : regex := Cat (Group (Star false anychar)) closing.
Definition fence : regex := Cat (lits op) (Cat (Star true isspace) body_pattern).

Lemma run_closing {R} (k : @cont R) (j : nat) (g : span) (r : str) :
  run closing k j g r
  = match strip_prefix close (drop (run_length isspace r) r) with
    | Some r' => k (j + run_length isspace r + length close)%nat g r'
    | None => None
    end.
Proof using a a_nonspace w.
  change (run closing k j g r) with (star_greedy isspace (run (lits close) k) j g r).
  rewrite star_greedy_lits by exact a_nonspace. apply run_lits.
Qed.

(** Where a match attempt that has reached the group ends. *)
Definition fence_end (j t : nat) (r : str) : nat :=
  (j + t + run_length isspace (drop t r) + length close)%nat.

Lemma star_lazy_closing (i0 b : nat) (r : str) (j : nat) (g : span) :
  star_lazy anychar
    (fun j' _ r' => run closing (final false i0) j' (Some (b, j')) r') j g r
  = match lazy_end r with
    | Some t => Some (Match i0 (fence_end j t r) (Some (b, j + t)%nat))
    | None => None
    end.
Proof using a a_nonspace w.
  revert j. induction r as [| x r IH]; intros j.
  - rewrite star_lazy_unfold, run_closing, lazy_end_unfold.
    destruct (strip_prefix close (drop (run_length isspace []) [])); [| reflexivity].
    unfold fence_end, final. cbn [andb]. rewrite drop_0, !Nat.add_0_r. reflexivity.
  - rewrite star_lazy_unfold, run_closing, lazy_end_unfold.
    destruct (strip_prefix close (drop (run_length isspace (x :: r)) (x :: r))).
    + unfold fence_end, final. cbn [andb]. rewrite drop_0, !Nat.add_0_r. reflexivity.
    + unfold anychar at 1. rewrite IH. destruct (lazy_end r) as [t |]; [| reflexivity].
      cbn [fmap option_fmap option_map]. unfold fence_end. cbn [skipn].
      rewrite !Nat.add_succ_r. reflexivity.
Qed.

Lemma run_body_pattern (i0 j : nat) (g : span) (r : str) :
  run body_pattern (final false i0) j g r
  = match lazy_end r with
    | Some t => Some (Match i0 (fence_end j t r) (Some (j, j + t)%nat))
    | None => None
    end.
Proof using a a_nonspace w. apply (star_lazy_closing i0 j r j g). Qed.

Lemma find_skip_space (r : str) :
  find close (drop (run_length isspace r) r) = None -> find close r = None.
Proof using a a_nonspace w.
  induction r as [| x r IH]; cbn [run_length]; [rewrite drop_0; tauto |].
  destruct (isspace x) eqn:Hx; [| rewrite drop_0; tauto].
  cbn [skipn]. intros H. cbn [find].
  rewrite (strip_prefix_close_space a w a_nonspace x r Hx), (IH H). reflexivity.
Qed.

Lemma lazy_end_none_find (r : str) : lazy_end r = None -> find close r = None.
Proof using a a_nonspace w.
  intros H. destruct (find close r) as [[inner post] |] eqn:F; [| reflexivity].
  rewrite (lazy_end_find a w a_nonspace r inner post F) in H. discriminate.
Qed.

Lemma lazy_end_skip_space (r : str) :
  lazy_end (drop (run_length isspace r) r) = None -> lazy_end r = None.
Proof using a a_nonspace w.
  intros H. apply lazy_end_find_none, find_skip_space, lazy_end_none_find, H.
Qed.

Lemma star_greedy_body (i0 : nat) (r : str) (j : nat) :
  star_greedy isspace (run body_pattern (final false i0)) j None r
  = run body_pattern (final false i0) (j + run_length isspace r)%nat None
      (drop (run_length isspace r) r).
Proof using a a_nonspace w.
  revert j. induction r as [| x r IH]; intros j.
  - cbn [star_greedy run_length]. rewrite drop_0, Nat.add_0_r. reflexivity.
  - cbn [star_greedy run_length]. destruct (isspace x) eqn:Hx.
    + rewrite IH. cbn [skipn]. rewrite Nat.add_succ_r. cbn [Nat.add].
      destruct (run body_pattern (final false i0) (S (j + run_length isspace r))
                  None (drop (run_length isspace r) r)) eqn:E; [reflexivity |].
      rewrite run_body_pattern in E |- *.
      destruct (lazy_end (drop (run_length isspace r) r)) eqn:L; [discriminate |].
      rewrite (lazy_end_skip_space (x :: r)); [reflexivity |].
      cbn [run_length]. rewrite Hx. cbn [skipn]. exact L.
    + rewrite drop_0, Nat.add_0_r. reflexivity.
Qed.

Lemma match_at_fence (i : nat) (rest : str) :
  match_at fence false i rest
  = match strip_prefix op rest with
    | None => None
    | Some rest1 =>
      let n := run_length isspace rest1 in
      let j := (i + length op + n)%nat in
      match lazy_end (drop n rest1) with
      | Some t => Some (Match i (fence_end j t (drop n rest1)) (Some (j, j + t)%nat))
      | None => None
      end
    end.
Proof using a a_nonspace op w.
  rewrite match_at_final.
  change (run fence (final false i) i None rest)
    with (run (lits op)
            (star_greedy isspace (run body_pattern (final false i))) i None rest).
  rewrite run_lits. destruct (strip_prefix op rest) as [rest1 |]; [| reflexivity].
  rewrite star_greedy_body, run_body_pattern. reflexivity.
Qed.

End FenceMatch.

Lemma run_length_le (p : char -> bool) (s : str) : (run_length p s <= length s)%nat.
Proof. induction s as [| x s IH]; cbn; [lia |]. destruct (p x); cbn; lia. Qed.

Lemma through_last_le (p : char -> bool) (s : str) : (through_last p s <= length s)%nat.
Proof.
  induction s as [| x s IH]; cbn; [lia |]. destruct (p x || existsb p s); cbn; lia.
Qed.

Lemma run_length_app_stop (p : char -> bool) (s : str) (x : char) (t : str) :
  p x = false -> run_length p (s ++ x :: t) = run_length p s.
Proof.
  intros Hx. induction s as [| y s IH]; cbn; [rewrite Hx; reflexivity |].
  destruct (p y); [rewrite IH |]; reflexivity.
Qed.

Section FenceSearch.

Variable op : str.
Variable a : char.
Variable w : str.
Hypothesis a_nonspace : isspace a = false.

Abbreviation close := (a :: w).
Abbreviation lazy_end := (lazy_end a w).
Abbreviation fence := (fence op a w).

Lemma search_fence_no_opening (i : nat) (rest : str) :
  find op rest = None -> search_from fence false i rest = None.
Proof using a_nonspace.
  revert i. induction rest as [| x rest IH]; intros i H;
    rewrite search_from_unfold, match_at_fence by exact a_nonspace;
    rewrite (find_none_prefix _ _ H); [reflexivity |].
  apply IH. exact (find_cons_none _ _ _ H).
Qed.

Lemma search_fence_no_closing (i : nat) (rest : str) :
  (forall j, find close (drop (length op + j) rest) = None) ->
  search_from fence false i rest = None.
Proof using a_nonspace.
  revert i. induction rest as [| x rest IH]; intros i H;
    rewrite search_from_unfold, match_at_fence by exact a_nonspace.
  - destruct (strip_prefix op []) as [rest1 |] eqn:E; [| reflexivity].
    cbn zeta. rewrite lazy_end_find_none; [reflexivity |].
    apply find_drop_none. specialize (H O). rewrite drop_nil in H.
    apply strip_prefix_split in E. destruct op, rest1; try discriminate. exact H.
  - assert (search_from fence false (S i) rest = None) as Hrest.
    { apply IH. intros j. specialize (H (S j)). rewrite Nat.add_succ_r in H. exact H. }
    rewrite Hrest.
    destruct (strip_prefix op (x :: rest)) as [rest1 |] eqn:E; [| reflexivity].
    cbn zeta. rewrite lazy_end_find_none; [reflexivity |].
    apply find_drop_none. specialize (H O). rewrite Nat.add_0_r in H.
    apply strip_prefix_split in E. rewrite E, drop_app_length in H. exact H.
Qed.

Lemma find_skip_space_some (r inner post : str) :
  find close r = Some (inner, post) ->
  run_length isspace r = run_length isspace inner
  /\ find close (drop (run_length isspace r) r)
     = Some (drop (run_length isspace inner) inner, post).
Proof using a_nonspace.
  intros H. pose proof (find_split _ _ _ _ H) as ->.
  rewrite <- app_comm_cons in *.
  rewrite (run_length_app_stop isspace inner a (w ++ post) a_nonspace).
  split; [reflexivity |].
  revert H. induction inner as [| y inner IH]; intros H.
  - cbn [run_length]. rewrite !drop_0. exact H.
  - cbn [run_length]. destruct (isspace y) eqn:Hy; [| rewrite !drop_0; exact H].
    cbn [skipn app]. apply IH.
    cbn [find app] in H. rewrite (strip_prefix_close_space a w a_nonspace y _ Hy) in H.
    destruct (find close (inner ++ a :: w ++ post)) as [[a' b'] |]; [| discriminate].
    injection H as -> ->. reflexivity.
Qed.

(** [re.search] with the fence pattern, in terms of [find]. *)
Lemma search_fence (i : nat) (rest pre rest1 : str) :
  find op rest = Some (pre, rest1) ->
  search_from fence false i rest
  = match find close rest1 with
    | None => None
    | Some (inner, post) =>
      let n := run_length isspace inner in
      let j := (i + length pre + length op + n)%nat in
      let t := through_last nonspace (drop n inner) in
      Some (Match (i + length pre) (fence_end a w j t (drop n rest1))
                  (Some (j, j + t)%nat))
    end.
Proof using a_nonspace.
  revert i pre. induction rest as [| x rest IH]; intros i pre H.
  - cbn [find] in H. destruct (strip_prefix op []) as [r0 |] eqn:E; [| discriminate].
    injection H as <- <-. rewrite search_from_unfold, match_at_fence by exact a_nonspace.
    rewrite E. cbn zeta. apply strip_prefix_split in E.
    destruct op, r0; try discriminate. cbn. reflexivity.
  - cbn [find] in H. destruct (strip_prefix op (x :: rest)) as [r0 |] eqn:E.
    + injection H as <- <-. rewrite search_from_unfold, match_at_fence by exact a_nonspace.
      rewrite E. cbn zeta. cbn [length]. rewrite Nat.add_0_r.
      destruct (find close r0) as [[inner post] |] eqn:F.
      * destruct (find_skip_space_some r0 inner post F) as [Hn Hf].
        rewrite (lazy_end_find a w a_nonspace _ _ _ Hf). rewrite Hn. reflexivity.
      * rewrite lazy_end_find_none by (apply find_drop_none; exact F).
        apply search_fence_no_closing. intros j.
        apply strip_prefix_split in E.
        change (drop (length op + j) rest) with (drop (S (length op + j)) (x :: rest)).
        rewrite E. replace (S (length op + j)) with (length op + S j)%nat by lia.
        rewrite drop_app_add. apply find_drop_none. exact F.
    + destruct (find op rest) as [[pre' r1] |] eqn:F; [| discriminate].
      injection H as <- <-. rewrite search_from_unfold, match_at_fence by exact a_nonspace.
      rewrite E. rewrite (IH (S i) pre' eq_refl).
      destruct (find close r1) as [[inner post] |]; [| reflexivity].
      cbn zeta. cbn [length Nat.add]. rewrite !Nat.add_succ_r. reflexivity.
Qed.

End FenceSearch.

(** *** The recovery algorithm in the specification's words *)

Definition open_fence : str := u "```json".
Definition close_fence : str := u "```".

(** The contents of the first block fenced as JSON: what stands between
    the first opening fence and the first closing fence after it. *)
Definition fenced_block (reply : str) : option str :=
  '(_, after_open) ← find open_fence reply;
  '(inner, _) ← find close_fence after_open;
  Some inner.

(** Strip every character before the first [x0]. *)
Definition strip_before_first (x0 : char) (s : str) : str :=
  drop (run_length (notchar x0) s) s.

(** Strip every character after the last [x0]. *)
Definition strip_after_last (x0 : char) (s : str) : str :=
  take (through_last (is_char x0) s) s.

(** Steps (1) to (3) of the recovery algorithm. *)
Definition recovery_candidate (reply : str) : str :=
  strip_after_last (c "}") (strip_before_first (c "{") (default reply (fenced_block reply))).

(** White space stripped at both ends, as the group of the pattern has it. *)
Definition lstrip (s : str) : str := drop (run_length isspace s) s.
Definition rstrip (s : str) : str := take (through_last nonspace s) s.

Section StripLeading.

Variable x0 : char.
Hypothesis x0_nonspace : isspace x0 = false.

Lemma strip_before_first_lstrip (s : str) :
  strip_before_first x0 (lstrip s) = strip_before_first x0 s.
Proof using x0_nonspace.
  unfold lstrip. induction s as [| x s IH]; [reflexivity |].
  cbn [run_length]. destruct (isspace x) eqn:Hx; [| rewrite drop_0; reflexivity].
  cbn [skipn]. rewrite IH. unfold strip_before_first. cbn [run_length].
  unfold notchar at 2. destruct (N.eqb_spec x x0) as [-> | _]; [congruence |].
  reflexivity.
Qed.

Lemma strip_before_first_spaces (s : str) :
  existsb nonspace s = false -> strip_before_first x0 s = [].
Proof using x0_nonspace.
  unfold strip_before_first. induction s as [| x s IH]; [reflexivity |].
  cbn [existsb run_length]. intros H. apply orb_false_elim in H as [Hx H].
  unfold notchar at 1. destruct (N.eqb_spec x x0) as [-> | _].
  - unfold nonspace in Hx. rewrite x0_nonspace in Hx. discriminate.
  - cbn [negb skipn]. apply IH, H.
Qed.

Lemma rstrip_cons (x : char) (s : str) :
  rstrip (x :: s) = if nonspace x || existsb nonspace s then x :: rstrip s else [].
Proof.
  unfold rstrip. cbn [through_last].
  destruct (nonspace x || existsb nonspace s); reflexivity.
Qed.

Lemma strip_before_first_cons (x : char) (s : str) :
  strip_before_first x0 (x :: s)
  = if x =? x0 then x :: s else strip_before_first x0 s.
Proof.
  unfold strip_before_first. cbn [run_length]. unfold notchar at 1.
  destruct (x =? x0); reflexivity.
Qed.

Lemma strip_before_first_rstrip (s : str) :
  strip_before_first x0 (rstrip s) = rstrip (strip_before_first x0 s).
Proof using x0_nonspace.
  induction s as [| x s IH]; [reflexivity |].
  rewrite rstrip_cons, strip_before_first_cons.
  destruct (N.eqb_spec x x0) as [-> | Hne].
  - unfold nonspace at 1. rewrite x0_nonspace. cbn [negb orb].
    rewrite strip_before_first_cons, N.eqb_refl, rstrip_cons.
    unfold nonspace at 1. rewrite x0_nonspace. reflexivity.
  - destruct (nonspace x || existsb nonspace s) eqn:E.
    + rewrite strip_before_first_cons. apply N.eqb_neq in Hne. rewrite Hne. exact IH.
    + apply orb_false_elim in E as [_ E].
      rewrite (strip_before_first_spaces s E). reflexivity.
Qed.

End StripLeading.

Lemma through_last_rest (q : char -> bool) (s : str) :
  existsb q (drop (through_last q s) s) = false.
Proof.
  induction s as [| x s IH]; [reflexivity |].
  cbn [through_last]. destruct (q x || existsb q s) eqn:E; [exact IH |].
  rewrite drop_0. exact E.
Qed.

Lemma through_last_app_none (p : char -> bool) (l1 l2 : str) :
  existsb p l2 = false -> through_last p (l1 ++ l2) = through_last p l1.
Proof.
  intros H. induction l1 as [| x l1 IH]; cbn [app through_last].
  - apply through_last_0. exact H.
  - rewrite existsb_app, H, orb_false_r, IH. reflexivity.
Qed.

Lemma existsb_weaken (p q : char -> bool) (s : str) :
  (forall x, p x = true -> q x = true) ->
  existsb q s = false -> existsb p s = false.
Proof.
  intros Hpq. induction s as [| x s IH]; [reflexivity |].
  cbn [existsb]. intros H. apply orb_false_elim in H as [Hx H].
  rewrite (IH H), orb_false_r. destruct (p x) eqn:Hp; [| reflexivity].
  rewrite (Hpq x Hp) in Hx. discriminate.
Qed.

Lemma through_last_take (p q : char -> bool) (s : str) :
  (forall x, p x = true -> q x = true) ->
  through_last p (take (through_last q s) s) = through_last p s.
Proof.
  intros Hpq. rewrite <- (take_drop (through_last q s) s) at 3.
  symmetry. apply through_last_app_none.
  apply (existsb_weaken p q _ Hpq), through_last_rest.
Qed.

Lemma strip_after_last_rstrip (x1 : char) (s : str) :
  isspace x1 = false ->
  strip_after_last x1 (rstrip s) = strip_after_last x1 s.
Proof.
  intros x1_nonspace.
  assert (forall x, is_char x1 x = true -> nonspace x = true) as Himp.
  { intros x Hx. apply N.eqb_eq in Hx as ->. unfold nonspace. rewrite x1_nonspace.
    reflexivity. }
  unfold strip_after_last, rstrip. rewrite (through_last_take _ _ s Himp).
  rewrite take_take. f_equal.
  pose proof (through_last_le (is_char x1) (take (through_last nonspace s) s)) as Hle.
  rewrite (through_last_take _ _ s Himp), length_take in Hle. lia.
Qed.

Lemma strip_trim (x0 x1 : char) (s : str) :
  isspace x0 = false -> isspace x1 = false ->
  strip_after_last x1 (strip_before_first x0 (rstrip (lstrip s)))
  = strip_after_last x1 (strip_before_first x0 s).
Proof.
  intros H0 H1.
  rewrite strip_before_first_rstrip, strip_after_last_rstrip, strip_before_first_lstrip
    by assumption.
  reflexivity.
Qed.

(** *** The source's candidate is the specification's candidate *)

Lemma fence_pattern_fence :
  fence_pattern = fence open_fence 0x60 [0x60; 0x60].
Proof. vm_compute. reflexivity. Qed.

Lemma close_fence_eq : close_fence = [0x60; 0x60; 0x60].
Proof. vm_compute. reflexivity. Qed.

Lemma backtick_nonspace : isspace 0x60 = false.
Proof. reflexivity. Qed.

(** What [m.group(1)] is when the pattern matches: the block's contents
    without the white space at either end. *)
Lemma search_fence_pattern (content : str) :
  match fenced_block content with
  | None => Re.search fence_pattern content = None
  | Some inner =>
    exists mo, Re.search fence_pattern content = Some mo
               /\ Re.group1 content mo = rstrip (lstrip inner)
  end.
Proof.
  unfold fenced_block, Re.search. rewrite fence_pattern_fence, close_fence_eq.
  destruct (find open_fence content) as [[pre rest1] |] eqn:F; cbn [mbind option_bind].
  2: { apply search_fence_no_opening; [reflexivity | exact F]. }
  rewrite (search_fence open_fence 0x60 [0x60; 0x60] backtick_nonspace O content pre rest1 F).
  destruct (find [0x60; 0x60; 0x60] rest1) as [[inner post] |] eqn:G;
    cbn [mbind option_bind]; [| reflexivity].
  eexists. split; [reflexivity |].
  unfold Re.group1. cbn [m_group1 Nat.add].
  apply find_split in F. apply find_split in G. subst content rest1.
  set (n := run_length isspace inner).
  set (t := through_last nonspace (drop n inner)).
  replace (length pre + length open_fence + n + t - (length pre + length open_fence + n))%nat
    with t by lia.
  rewrite <- Nat.add_assoc, drop_app_add, drop_app_add.
  rewrite drop_app_le by apply run_length_le.
  rewrite take_app_le by apply through_last_le.
  reflexivity.
Qed.

Lemma lbrace_nonspace : isspace (c "{") = false.
Proof. reflexivity. Qed.

Lemma rbrace_nonspace : isspace (c "}") = false.
Proof. reflexivity. Qed.

(** The text handed to [json.loads] is the candidate of the recovery
    algorithm. *)
Lemma json_candidate_recovery (content : str) :
  json_candidate content = recovery_candidate content.
Proof.
  unfold json_candidate, recovery_candidate, leading_pattern, trailing_pattern.
  rewrite sub_trailing by reflexivity. rewrite sub_leading.
  fold (strip_before_first (c "{")). fold (strip_after_last (c "}")).
  pose proof (search_fence_pattern content) as H.
  destruct (fenced_block content) as [inner |].
  - destruct H as (mo & -> & ->). cbn [default from_option id].
    apply strip_trim; reflexivity.
  - rewrite H. reflexivity.
Qed.

(** *** The recovery step *)

Section Recovery.

Variable decode_error_text : str -> str.

(** The value returned when the candidate does not parse. *)
Definition recovery_error (content : str) : json :=
  JObj [(u "error", JBool true);
        (u "message", JStr (u "API返回的内容不是有效的JSON格式"));
        (u "raw_response", JStr content)].

(** [recover_json] on a [str] reply: it returns in both cases, the parsed
    candidate or the error-flagged value with the raw reply. *)
Lemma recover_json_str (content : str) (w : world) :
  recover_json decode_error_text (JStr content) w
  = match loads (recovery_candidate content) with
    | Some v => (Return v, w)
    | None =>
      (Return (recovery_error content),
       World (posts w)
             (log w ++ [Log ERROR (u "JSON解析失败: "
                                     ++ decode_error_text (recovery_candidate content))])
             (open_docs w))
    end.
Proof.
  unfold recover_json, try_except, json_loads. rewrite json_candidate_recovery.
  destruct (loads (recovery_candidate content)); reflexivity.
Qed.

(** The candidate is a piece of the reply. *)
Lemma recovery_candidate_substring (content : str) :
  exists before after, content = before ++ recovery_candidate content ++ after.
Proof.
  unfold recovery_candidate, fenced_block.
  destruct (find open_fence content) as [[pre rest1] |] eqn:F; cbn [mbind option_bind].
  2: { cbn [default from_option id]. unfold strip_after_last, strip_before_first.
       set (z := drop _ content). set (m := through_last _ z).
       exists (take (run_length (notchar (c "{")) content) content), (drop m z).
       rewrite take_drop. subst z. rewrite take_drop. reflexivity. }
  destruct (find close_fence rest1) as [[inner post] |] eqn:G;
    cbn [mbind option_bind default from_option id].
  - apply find_split in F. apply find_split in G. subst content rest1.
    unfold strip_after_last, strip_before_first.
    set (k := run_length _ inner). set (z := drop k inner). set (m := through_last _ z).
    exists (pre ++ open_fence ++ take k inner), (drop m z ++ close_fence ++ post).
    rewrite <- !app_assoc. do 2 f_equal.
    rewrite (app_assoc (take m z)), take_drop. subst z.
    rewrite (app_assoc (take k inner)), take_drop. reflexivity.
  - unfold strip_after_last, strip_before_first.
    set (z := drop _ content). set (m := through_last _ z).
    exists (take (run_length (notchar (c "{")) content) content), (drop m z).
    rewrite take_drop. subst z. rewrite take_drop. reflexivity.
Qed.

Lemma strip_before_first_head (x0 : char) (s : str) :
  strip_before_first x0 s = [] \/ exists r, strip_before_first x0 s = x0 :: r.
Proof.
  induction s as [| x s IH]; [left; reflexivity |].
  rewrite strip_before_first_cons. destruct (N.eqb_spec x x0) as [-> | _]; eauto.
Qed.

(** The candidate is empty or starts with an opening brace. *)
Lemma recovery_candidate_head (content : str) :
  recovery_candidate content = []
  \/ exists r, recovery_candidate content = c "{" :: r.
Proof.
  unfold recovery_candidate.
  destruct (strip_before_first_head (c "{") (default content (fenced_block content)))
    as [-> | [r ->]]; [left; reflexivity |].
  unfold strip_after_last.
  destruct (through_last (is_char (c "}")) (c "{" :: r)); [left | right; eexists];
    reflexivity.
Qed.

(** A text that starts with an opening brace decodes to a dict or not at
    all. *)
Lemma loads_brace (r : str) (v : json) :
  loads (c "{" :: r) = Some v -> exists items, v = JObj items.
Proof.
  unfold loads. change (c "{") with 0x7B.
  cbn [skip_ws is_ws N.eqb Pos.eqb orb length scan_once].
  unfold JSONObject.
  destruct (skip_ws r) as [| x r']; [discriminate |].
  destruct (x =? 0x7D).
  - cbn. destruct (skip_ws r'); [| discriminate]. intros [= <-]. eauto.
  - destruct (object_items _ _ _) as [[kvs r''] |]; [| discriminate].
    cbn. destruct (skip_ws r''); [| discriminate]. intros [= <-]. eauto.
Qed.

Lemma loads_nil : loads [] = None.
Proof. reflexivity. Qed.

(** A reply no piece of which is the text of a JSON object. *)
Definition no_json_object (content : str) : Prop :=
  forall before s after items,
    content = before ++ s ++ after -> loads s <> Some (JObj items).

Lemma no_json_object_candidate (content : str) :
  no_json_object content -> loads (recovery_candidate content) = None.
Proof.
  intros H. destruct (recovery_candidate_substring content) as (before & after & E).
  destruct (loads (recovery_candidate content)) as [v |] eqn:L; [| reflexivity].
  exfalso. destruct (recovery_candidate_head content) as [Hc | [r Hc]].
  - rewrite Hc, loads_nil in L. discriminate.
  - rewrite Hc in L. destruct (loads_brace r v L) as [items ->].
    rewrite <- Hc in L. exact (H _ _ _ items E L).
Qed.

End Recovery.

Definition is_number (v : json) : Prop :=
  match v with JInt _ | JFloat _ => True | _ => False end.

Lemma match_number_number (s : str) (v : json) (r : str) :
  match_number s = Some (v, r) -> is_number v.
Proof.
  unfold match_number.
  destruct (match s with
            | x :: r => if x =? 0x2D then (true, r) else (false, s)
            | [] => (false, s)
            end) as [neg s1].
  destruct (scan_int_part s1) as [[ip s2] |]; [| discriminate].
  cbn [mbind option_bind]. destruct (scan_frac s2) as [frac s3].
  destruct (scan_exp s3) as [exp s4]. intros [= <- <-].
  unfold number_value. destruct frac, exp; exact I.
Qed.

Lemma loads_object_head (s : str) (items : list (str * json)) :
  loads s = Some (JObj items) -> exists r, skip_ws s = 0x7B :: r.
Proof.
  unfold loads.
  assert (forall fuel x r v r',
            scan_once (S fuel) (x :: r) = Some (v, r') ->
            (exists its, v = JObj its) -> x = 0x7B) as Hscan.
  { intros fuel x r v r' H [its ->]. cbn [scan_once] in H.
    destruct (N.eqb_spec x 0x22); [destruct (scanstring r) as [[t r1] |]; discriminate |].
    destruct (N.eqb_spec x 0x7B); [assumption |].
    destruct (N.eqb_spec x 0x5B).
    { unfold JSONArray in H. destruct (skip_ws r) as [| y r1]; [discriminate |].
      destruct (y =? 0x5D); [discriminate |].
      destruct (array_items _ _ _) as [[vs r2] |]; discriminate. }
    destruct (strip_prefix (u "null") (x :: r)); [discriminate |].
    destruct (strip_prefix (u "true") (x :: r)); [discriminate |].
    destruct (strip_prefix (u "false") (x :: r)); [discriminate |].
    destruct (match_number (x :: r)) as [[v r1] |] eqn:Hn.
    { injection H as -> ->. apply match_number_number in Hn. destruct Hn. }
    destruct (strip_prefix (u "NaN") (x :: r)); [discriminate |].
    destruct (strip_prefix (u "Infinity") (x :: r)); [discriminate |].
    destruct (strip_prefix (u "-Infinity") (x :: r)); discriminate. }
  intros H.
  assert (match scan_once (S (length s)) (skip_ws s) with
          | Some (v, _) => v = JObj items
          | None => False
          end) as Hv.
  { destruct s as [| x0 s0]; [cbn in H; discriminate |].
    assert (match x0 :: s0 with
            | 0xFEFF :: _ => None
            | _ => '(v, r) ← scan_once (S (length (x0 :: s0))) (skip_ws (x0 :: s0));
                   match skip_ws r with [] => Some v | _ :: _ => None end
            end
            = '(v, r) ← scan_once (S (length (x0 :: s0))) (skip_ws (x0 :: s0));
              match skip_ws r with [] => Some v | _ :: _ => None end) as E.
    { destruct x0 as [| p]; [reflexivity |].
      repeat (destruct p as [p | p |]; try reflexivity). }
    rewrite E in H.
    destruct (scan_once _ _) as [[v r] |]; [| discriminate]. cbn in H.
    destruct (skip_ws r); [| discriminate]. congruence. }
  destruct (skip_ws s) as [| x r] eqn:Es; [cbn in Hv; contradiction |].
  destruct (scan_once (S (length s)) (x :: r)) as [[v r'] |] eqn:Hs; [| contradiction].
  subst v. exists r. f_equal. eapply Hscan; eauto.
Qed.

Lemma skip_ws_head (s : str) (x : char) (r : str) :
  skip_ws s = x :: r -> existsb (is_char x) s = true.
Proof.
  induction s as [| y s IH]; [discriminate |].
  cbn [skip_ws existsb]. destruct (is_ws y).
  - intros H. rewrite (IH H). apply orb_true_r.
  - intros [= -> ->]. unfold is_char. rewrite N.eqb_refl. reflexivity.
Qed.

(** A reply without an opening brace contains no JSON object. *)
Lemma no_brace_no_json_object (content : str) :
  existsb (is_char (c "{")) content = false -> no_json_object content.
Proof.
  intros H before s after items -> L.
  destruct (loads_object_head s items L) as [r Hr].
  apply skip_ws_head in Hr.
  rewrite !existsb_app in H. change (c "{") with 0x7B in H.
  rewrite Hr, orb_true_l, orb_true_r in H. discriminate.
Qed.

(** When the model call returns a [str] reply, [extract_key_points]
    returns what the recovery step returns. *)
Lemma extract_key_points_recovers (decode_error_text : str -> str)
    (self : DeepSeekAPI) (net : endpoint) (text content : str) (w w1 : world) :
  ask self net (key_points_messages text) low_temperature w = (Return (JStr content), w1) ->
  (extract_key_points decode_error_text self net text w).1
  = Return (match loads (recovery_candidate content) with
            | Some v => v
            | None => recovery_error content
            end).
Proof.
  unfold ask, extract_key_points, try_except, bind.
  destruct (_call_api self net (key_points_messages text) low_temperature w)
    as [[response | e0] w0]; [| discriminate].
  intros H. rewrite H. rewrite recover_json_str.
  destruct (loads (recovery_candidate content)); reflexivity.
Qed.

(** The reply of the specification's example: a sentence, a block fenced
    as JSON, a word of thanks. *)
Definition dq : str := [0x22].
Definition example_reply : str :=
  u "Here you go:" ++ nl ++ u "```json" ++ nl
    ++ u "{" ++ dq ++ u "title" ++ dq ++ u ":" ++ dq ++ u "T" ++ dq ++ u "}" ++ nl
    ++ u "```" ++ nl ++ u "Thanks".

Example example_reply_candidate :
  recovery_candidate example_reply
  = u "{" ++ dq ++ u "title" ++ dq ++ u ":" ++ dq ++ u "T" ++ dq ++ u "}".
Proof. vm_compute. reflexivity. Qed.



(** A reply with braces around something that is no JSON: the candidate
    is found and does not parse. *)
Example braces_without_json :
  (recover_json (fun _ => []) (JStr (u "the set {a, b} is small")) fresh).1
  = Return (recovery_error (u "the set {a, b} is small")).
Proof. vm_compute. reflexivity. Qed.

(** A reply that is a JSON array holds no JSON object either. *)
Example array_reply :
  (recover_json (fun _ => []) (JStr (u "[1, 2]")) fresh).1
  = Return (recovery_error (u "[1, 2]")).
Proof. vm_compute. reflexivity. Qed.

(** ** The export of the key points (lines 174-181 of [main.py]) *)

(** *** Strings *)

Lemma scanstring_control (x : char) (r : str) :
  (x <? 0x20) = true ->
  scanstring (escape_char x ++ r) = cons_char x (scanstring r).
Proof.
  intros H. destruct x as [| p]; [reflexivity |].
  do 5 (destruct p as [p | p |]; try reflexivity);
    exfalso; revert H; clear; intros H; apply N.ltb_lt in H; lia.
Qed.

Lemma escape_char_plain (x : char) :
  (x <? 0x20) = false -> x <> 0x22 -> x <> 0x5C -> escape_char x = [x].
Proof.
  intros H H1 H2. apply N.ltb_ge in H. unfold escape_char.
  repeat match goal with
         | |- context [?a =? ?b] => destruct (N.eqb_spec a b); [lia |]
         end.
  destruct (N.ltb_spec x 0x20); [lia | reflexivity].
Qed.

Lemma scanstring_escape_char (x : char) (r : str) :
  scanstring (escape_char x ++ r) = cons_char x (scanstring r).
Proof.
  destruct (x <? 0x20) eqn:H; [apply scanstring_control, H |].
  destruct (N.eqb_spec x 0x22) as [-> | H1]; [reflexivity |].
  destruct (N.eqb_spec x 0x5C) as [-> | H2]; [reflexivity |].
  rewrite escape_char_plain by assumption.
  cbn [app scanstring]. apply N.eqb_neq in H1, H2. rewrite H1, H2, H. reflexivity.
Qed.

Lemma scanstring_escape (s rest : str) :
  scanstring (escape s ++ 0x22 :: rest) = Some (s, rest).
Proof.
  induction s as [| x s IH]; [reflexivity |].
  cbn [escape]. rewrite <- app_assoc, scanstring_escape_char, IH. reflexivity.
Qed.

(** *** Integers *)

Definition digit_step (acc : Z) (x : char) : Z := (acc * 10 + (Z.of_N x - 0x30))%Z.

Lemma int_of_digits_foldl (ds : str) : int_of_digits ds = foldl digit_step 0%Z ds.
Proof. reflexivity. Qed.

Lemma foldl_of_uint_acc (d : Decimal.uint) (acc : positive) :
  foldl digit_step (Z.pos acc) (str_of_uint d) = Z.pos (Pos.of_uint_acc d acc).
Proof.
  revert acc. induction d; intros acc; cbn [str_of_uint foldl Pos.of_uint_acc];
    [reflexivity | rewrite <- IHd; f_equal; unfold digit_step; lia ..].
Qed.

Lemma int_of_digits_of_uint (d : Decimal.uint) :
  int_of_digits (str_of_uint d) = Z.of_N (Pos.of_uint d).
Proof.
  rewrite int_of_digits_foldl.
  induction d; cbn [str_of_uint foldl Pos.of_uint];
    [reflexivity | exact IHd | apply (foldl_of_uint_acc d) ..].
Qed.

Lemma int_of_digits_pos (p : positive) :
  int_of_digits (str_of_uint (Pos.to_uint p)) = Z.pos p.
Proof. rewrite int_of_digits_of_uint, Unsigned.of_to. reflexivity. Qed.

(** The digits of a positive number: a digit from 1 to 9, then digits. *)
Definition is_nonzero_digit (x : char) : bool := (0x31 <=? x) && (x <=? 0x39).

Lemma str_of_uint_digits (d : Decimal.uint) :
  forallb is_digit (str_of_uint d) = true.
Proof. induction d; cbn [str_of_uint forallb]; [reflexivity | exact IHd ..]. Qed.

Lemma to_uint_normal (p : positive) : Decimal.nzhead (Pos.to_uint p) = Pos.to_uint p.
Proof.
  pose proof (Unsigned.to_of (Pos.to_uint p)) as H.
  rewrite Unsigned.of_to in H. cbn [N.to_uint] in H.
  assert (Decimal.nzhead (Pos.to_uint p) <> Decimal.Nil) as Hnz.
  { intros E. apply unorm_0 in E. rewrite E in H.
    exact (Unsigned.to_uint_nonzero p H). }
  rewrite (unorm_nzhead _ Hnz) in H. symmetry. exact H.
Qed.

Lemma str_of_pos_head (p : positive) :
  exists x ds, str_of_uint (Pos.to_uint p) = x :: ds
               /\ is_nonzero_digit x = true /\ forallb is_digit ds = true.
Proof.
  pose proof (to_uint_normal p) as Hn.
  pose proof (Unsigned.to_uint_nonnil p) as Hnil.
  pose proof (str_of_uint_digits (Pos.to_uint p)) as Hd.
  destruct (Pos.to_uint p) as [| d | d | d | d | d | d | d | d | d | d] eqn:E;
    [congruence | exfalso; exact (nzhead_nonzero _ _ Hn) | ..];
    cbn [str_of_uint forallb] in Hd |- *; apply andb_prop in Hd as [_ Hd];
    eexists _, _; (split; [reflexivity | split; [reflexivity | exact Hd]]).
Qed.

(** What may follow a value in the text [dumps] writes: the end, a comma,
    or a line break. *)
Definition delimited (rest : str) : bool :=
  match rest with
  | [] => true
  | x :: _ => (x =? 0x2C) || (x =? 0x0A)
  end.

Lemma span_digits_app (ds rest : str) :
  forallb is_digit ds = true -> delimited rest = true ->
  span_digits (ds ++ rest) = (ds, rest).
Proof.
  intros Hd Hr. induction ds as [| x ds IH].
  - destruct rest as [| y rest]; [reflexivity |]. cbn in Hr |- *.
    destruct (is_digit y) eqn:Hy; [| reflexivity].
    exfalso. unfold is_digit in Hy.
    destruct (N.eqb_spec y 0x2C) as [-> | _]; [discriminate |].
    destruct (N.eqb_spec y 0x0A) as [-> | _]; discriminate.
  - cbn [forallb] in Hd. apply andb_prop in Hd as [Hx Hd].
    cbn [app span_digits]. rewrite Hx, (IH Hd). reflexivity.
Qed.

Lemma scan_frac_delimited (rest : str) :
  delimited rest = true -> scan_frac rest = ([], rest).
Proof.
  destruct rest as [| p [| f r]]; try reflexivity. cbn [delimited scan_frac].
  intros H. destruct (N.eqb_spec p 0x2E) as [-> | _]; [discriminate | reflexivity].
Qed.

Lemma scan_exp_delimited (rest : str) :
  delimited rest = true -> scan_exp rest = ([], rest).
Proof.
  destruct rest as [| e r]; [reflexivity |]. cbn [delimited scan_exp].
  intros H. destruct (N.eqb_spec e 0x65) as [-> | _]; [discriminate |].
  destruct (N.eqb_spec e 0x45) as [-> | _]; [discriminate | reflexivity].
Qed.

Lemma scan_int_part_pos (p : positive) (rest : str) :
  delimited rest = true ->
  scan_int_part (str_of_uint (Pos.to_uint p) ++ rest)
  = Some (str_of_uint (Pos.to_uint p), rest).
Proof.
  intros Hr. destruct (str_of_pos_head p) as (x & ds & -> & Hx & Hd).
  cbn [app scan_int_part]. unfold is_nonzero_digit in Hx. rewrite Hx.
  rewrite (span_digits_app ds rest Hd Hr). reflexivity.
Qed.

Lemma match_number_int (z : Z) (rest : str) :
  delimited rest = true ->
  match_number (str_of_int z ++ rest) = Some (JInt z, rest).
Proof.
  intros Hr. destruct z as [| p | p]; unfold str_of_int.
  - unfold match_number. cbn [app N.eqb Pos.eqb scan_int_part andb N.leb N.compare
                            Pos.compare Pos.compare_cont mbind option_bind].
    rewrite (scan_frac_delimited rest Hr), (scan_exp_delimited rest Hr). reflexivity.
  - unfold match_number.
    destruct (str_of_pos_head p) as (x & ds & E & Hx & Hd).
    assert ((x =? 0x2D) = false) as Hm.
    { unfold is_nonzero_digit in Hx. destruct (N.eqb_spec x 0x2D) as [-> | _];
        [discriminate | reflexivity]. }
    pose proof (scan_int_part_pos p rest Hr) as Hs. rewrite E in Hs |- *.
    cbn [app]. rewrite Hm. cbn [app] in Hs. rewrite Hs. cbn [mbind option_bind].
    rewrite (scan_frac_delimited rest Hr), (scan_exp_delimited rest Hr).
    unfold number_value. rewrite <- E, int_of_digits_pos. reflexivity.
  - unfold match_number. cbn [app N.eqb Pos.eqb].
    rewrite (scan_int_part_pos p rest Hr). cbn [mbind option_bind].
    rewrite (scan_frac_delimited rest Hr), (scan_exp_delimited rest Hr).
    unfold number_value. rewrite int_of_digits_pos. reflexivity.
Qed.

Lemma str_of_int_head (z : Z) :
  exists x r, str_of_int z = x :: r /\ (is_digit x || (x =? 0x2D)) = true.
Proof.
  destruct z as [| p | p]; unfold str_of_int.
  - eexists _, _. split; reflexivity.
  - destruct (str_of_pos_head p) as (x & ds & -> & Hx & _).
    eexists _, _. split; [reflexivity |].
    unfold is_nonzero_digit in Hx. unfold is_digit.
    apply andb_prop in Hx as [H1 H2]. apply N.leb_le in H1. rewrite H2.
    destruct (N.leb_spec 0x30 x); [reflexivity | lia].
  - eexists _, _. split; reflexivity.
Qed.

(** A text that starts with a digit or a minus sign is dispatched to the
    number scanner. *)
Lemma scan_once_number (fuel : nat) (x : char) (r : str) (res : json * str) :
  (is_digit x || (x =? 0x2D)) = true ->
  match_number (x :: r) = Some res ->
  scan_once (S fuel) (x :: r) = Some res.
Proof.
  intros Hx Hm.
  assert (x = 0x2D \/ x = 0x30 \/ x = 0x31 \/ x = 0x32 \/ x = 0x33 \/ x = 0x34
          \/ x = 0x35 \/ x = 0x36 \/ x = 0x37 \/ x = 0x38 \/ x = 0x39) as Hcases.
  { unfold is_digit in Hx. apply orb_prop in Hx as [Hx | Hx].
    - apply andb_prop in Hx as [H1 H2]. apply N.leb_le in H1, H2. lia.
    - apply N.eqb_eq in Hx. lia. }
  clear Hx.
  repeat (destruct Hcases as [-> | Hcases]); try subst x;
    cbv -[match_number]; rewrite Hm; reflexivity.
Qed.

Lemma scan_once_int (fuel : nat) (z : Z) (rest : str) :
  delimited rest = true ->
  scan_once (S fuel) (str_of_int z ++ rest) = Some (JInt z, rest).
Proof.
  intros Hr. pose proof (match_number_int z rest Hr) as Hm.
  destruct (str_of_int_head z) as (x & r & E & Hx). rewrite E in Hm |- *.
  cbn [app] in *. apply scan_once_number; assumption.
Qed.

(** *** Values *)

(** Induction on a value with the hypothesis for every item. *)
Lemma json_induction (P : json -> Prop) :
  P JNull -> (forall b, P (JBool b)) -> (forall z, P (JInt z)) ->
  (forall lit, P (JFloat lit)) -> (forall s, P (JStr s)) ->
  (forall items, Forall P items -> P (JArr items)) ->
  (forall items, Forall (fun kv => P kv.2) items -> P (JObj items)) ->
  forall v, P v.
Proof.
  intros Hnull Hbool Hint Hfloat Hstr Harr Hobj.
  exact (fix F (v : json) : P v :=
           match v with
           | JNull => Hnull
           | JBool b => Hbool b
           | JInt z => Hint z
           | JFloat lit => Hfloat lit
           | JStr s => Hstr s
           | JArr items =>
             Harr items
               ((fix G (l : list json) : Forall P l :=
                   match l with
                   | [] => @List.Forall_nil _ P
                   | x :: l' => @List.Forall_cons _ P x l' (F x) (G l')
                   end) items)
           | JObj items =>
             Hobj items
               ((fix G (l : list (str * json)) : Forall (fun kv => P kv.2) l :=
                   match l with
                   | [] => @List.Forall_nil _ (fun kv => P kv.2)
                   | kv :: l' => @List.Forall_cons _ (fun kv => P kv.2) kv l' (F kv.2) (G l')
                   end) items)
           end).
Qed.

(** The values this development can follow through [dumps]: no float
    (binary64 is outside the embedding), and the keys of every dict
    distinct, as they are in a Python dict. *)
Fixpoint representable (v : json) : Prop :=
  match v with
  | JFloat _ => False
  | JArr items =>
    (fix all (l : list json) : Prop :=
       match l with
       | [] => True
       | x :: l' => representable x /\ all l'
       end) items
  | JObj items =>
    NoDup (map fst items)
    /\ (fix all (l : list (str * json)) : Prop :=
          match l with
          | [] => True
          | kv :: l' => representable kv.2 /\ all l'
          end) items
  | _ => True
  end.

Lemma representable_arr (items : list json) :
  representable (JArr items) <-> Forall representable items.
Proof.
  cbn [representable]. induction items as [| x items IH].
  - split; [constructor | trivial].
  - rewrite Forall_cons, <- IH. reflexivity.
Qed.

Lemma representable_obj (items : list (str * json)) :
  representable (JObj items)
  <-> NoDup (map fst items) /\ Forall (fun kv => representable kv.2) items.
Proof.
  cbn [representable]. apply and_iff_compat_l. induction items as [| x items IH].
  - split; [constructor | trivial].
  - rewrite Forall_cons, <- IH. reflexivity.
Qed.

(** The fuel [scan_once] needs for a value: its nesting depth. *)
Fixpoint need (v : json) : nat :=
  match v with
  | JArr items => S (foldr Nat.max O (List.map need items))
  | JObj items => S (foldr Nat.max O (List.map (fun kv => need kv.2) items))
  | _ => 1
  end.

Lemma skip_ws_nonws (x : char) (r : str) :
  is_ws x = false -> skip_ws (x :: r) = x :: r.
Proof. intros H. cbn. rewrite H. reflexivity. Qed.

Lemma skip_ws_spaces (n : nat) (s : str) :
  skip_ws (replicate n 0x20 ++ s) = skip_ws s.
Proof. induction n as [| n IH]; [reflexivity |]. exact IH. Qed.

Lemma skip_ws_newline_indent (level : nat) (s : str) :
  skip_ws (newline_indent level ++ s) = skip_ws s.
Proof. unfold newline_indent. cbn [app skip_ws is_ws N.eqb Pos.eqb orb]. apply skip_ws_spaces. Qed.

Lemma delimited_newline_indent (level : nat) (s : str) :
  delimited (newline_indent level ++ s) = true.
Proof. reflexivity. Qed.

(** [dict(pairs)] for pairs with distinct keys. *)
Lemma dict_set_fresh (k : str) (v : json) (d : list (str * json)) :
  k ∉ map fst d -> dict_set k v d = d ++ [(k, v)].
Proof.
  induction d as [| [k' v'] d IH]; intros H; [reflexivity |].
  cbn [map fst] in H. apply not_elem_of_cons in H as [Hne H].
  cbn [dict_set app]. unfold Str.eqb. rewrite bool_decide_eq_false_2 by exact Hne.
  rewrite (IH H). reflexivity.
Qed.

Lemma dict_of_pairs_app (acc pairs : list (str * json)) :
  NoDup (map fst (acc ++ pairs)) ->
  foldl (fun d kv => dict_set kv.1 kv.2 d) acc pairs = acc ++ pairs.
Proof.
  revert acc. induction pairs as [| [k v] pairs IH]; intros acc H.
  - rewrite app_nil_r. reflexivity.
  - cbn [foldl fst snd]. rewrite dict_set_fresh.
    + rewrite IH; rewrite <- app_assoc; [reflexivity | exact H].
    + rewrite map_app in H. apply NoDup_app in H as (_ & H & _).
      intros Hin. apply (H k Hin). cbn. left.
Qed.

Lemma dict_of_pairs_distinct (pairs : list (str * json)) :
  NoDup (map fst pairs) -> dict_of_pairs pairs = pairs.
Proof. intros H. apply (dict_of_pairs_app [] pairs H). Qed.

Lemma join_cons (sep p : str) (l : list str) :
  join sep (p :: l) = p ++ match l with [] => [] | _ :: _ => sep ++ join sep l end.
Proof. destruct l; cbn [join]; [rewrite app_nil_r |]; reflexivity. Qed.

Lemma join_length (sep : str) (parts : list str) :
  Forall (fun p => p <> []) parts -> (length parts <= length (join sep parts))%nat.
Proof.
  induction 1 as [| p parts Hp _ IH]; [cbn; lia |].
  rewrite join_cons, length_app. cbn [length].
  assert (1 <= length p)%nat by (destruct p; [congruence | cbn; lia]).
  destruct parts; [cbn; lia |]. rewrite length_app. lia.
Qed.

(** A character a value can start with: no white space, no closing
    bracket or brace, no byte order mark. *)
Definition starts_value (h : char) : Prop :=
  is_ws h = false /\ h <> 0x5D /\ h <> 0x7D /\ h <> 0xFEFF.

Lemma scan_once_array (fuel : nat) (r : str) :
  scan_once (S fuel) (0x5B :: r) = JSONArray (scan_once fuel) (S (length r)) r.
Proof. reflexivity. Qed.

Lemma scan_once_object (fuel : nat) (r : str) :
  scan_once (S fuel) (0x7B :: r) = JSONObject (scan_once fuel) (S (length r)) r.
Proof. reflexivity. Qed.

Lemma scan_once_string (fuel : nat) (s rest : str) :
  scan_once (S fuel) (encode_basestring s ++ rest) = Some (JStr s, rest).
Proof.
  unfold encode_basestring. rewrite <- !app_assoc. cbn [app scan_once N.eqb Pos.eqb].
  rewrite scanstring_escape. reflexivity.
Qed.

Section Encoded.

Variable float_repr : str -> str.

Abbreviation enc := (iterencode float_repr).

Definition item_sep (level : nat) : str := 0x2C :: newline_indent level.

Definition member (level : nat) (kv : str * json) : str :=
  encode_basestring kv.1 ++ [0x3A; 0x20] ++ enc kv.2 level.

Lemma enc_arr (x : json) (items : list json) (level : nat) :
  enc (JArr (x :: items)) level
  = [0x5B] ++ newline_indent (S level)
      ++ join (item_sep (S level)) (List.map (fun v => enc v (S level)) (x :: items))
      ++ newline_indent level ++ [0x5D].
Proof. reflexivity. Qed.

Lemma enc_obj (kv : str * json) (items : list (str * json)) (level : nat) :
  enc (JObj (kv :: items)) level
  = [0x7B] ++ newline_indent (S level)
      ++ join (item_sep (S level)) (List.map (member (S level)) (kv :: items))
      ++ newline_indent level ++ [0x7D].
Proof. reflexivity. Qed.

Lemma enc_head (v : json) (level : nat) :
  representable v -> exists h t, enc v level = h :: t /\ starts_value h.
Proof.
  unfold starts_value. destruct v as [| [|] | z | lit | s | [| x items] | [| kv items]];
    intros Hv; try (eexists _, _; split; [reflexivity | repeat split; discriminate]).
  - destruct (str_of_int_head z) as (h & t & E & Hh).
    exists h, t. split; [exact E |].
    assert (h = 0x2D \/ (0x30 <= h <= 0x39)) as Hc.
    { apply orb_prop in Hh as [Hh | Hh].
      - unfold is_digit in Hh. apply andb_prop in Hh as [H1 H2].
        apply N.leb_le in H1, H2. lia.
      - apply N.eqb_eq in Hh. lia. }
    unfold is_ws.
    repeat match goal with
           | |- context [?a =? ?b] => destruct (N.eqb_spec a b); [lia |]
           end.
    repeat split; lia.
  - destruct Hv.
Qed.

Lemma skip_ws_enc (v : json) (level : nat) (s : str) :
  representable v -> skip_ws (enc v level ++ s) = enc v level ++ s.
Proof.
  intros Hv. destruct (enc_head v level Hv) as (h & t & -> & Hh & _).
  apply skip_ws_nonws, Hh.
Qed.

Section Items.

Variable fuel : nat.
Variable level : nat.
Variable rest : str.

(** The hypothesis of the induction, for the items of one container. *)
Definition scans (v : json) : Prop :=
  representable v
  /\ forall lvl rest', delimited rest' = true ->
                       scan_once fuel (enc v lvl ++ rest') = Some (v, rest').

Lemma skip_ws_join (sep : str) (y : json) (lvl : nat) (parts : list str) (s : str) :
  representable y ->
  skip_ws (join sep (enc y lvl :: parts) ++ s) = join sep (enc y lvl :: parts) ++ s.
Proof. intros Hy. rewrite join_cons, <- app_assoc. apply skip_ws_enc, Hy. Qed.

Lemma array_items_enc (items : list json) (n : nat) :
  items <> [] -> Forall scans items -> (length items <= n)%nat ->
  array_items (scan_once fuel) n
    (join (item_sep (S level)) (List.map (fun v => enc v (S level)) items)
       ++ newline_indent level ++ 0x5D :: rest)
  = Some (items, rest).
Proof.
  intros Hne Hall. revert n. induction Hall as [| x items [Hx Hscan] Hall IH];
    [congruence |]. intros n Hn. destruct n as [| n]; [cbn in Hn; lia |].
  cbn [List.map]. rewrite join_cons. cbn [array_items].
  destruct items as [| y items].
  - cbn [List.map]. rewrite app_nil_r, Hscan by reflexivity.
    cbn [mbind option_bind]. rewrite skip_ws_newline_indent.
    cbn [skip_ws is_ws N.eqb Pos.eqb orb]. reflexivity.
  - cbn [List.map]. rewrite <- !app_assoc, Hscan by reflexivity.
    cbn [mbind option_bind]. unfold item_sep at 1.
    cbn [app skip_ws is_ws N.eqb Pos.eqb orb].
    rewrite skip_ws_newline_indent.
    specialize (IH ltac:(congruence) n ltac:(cbn [length] in Hn |- *; lia)).
    cbn [List.map] in IH |- *.
    rewrite skip_ws_join by (apply Forall_cons in Hall as [[Hy _] _]; exact Hy).
    rewrite IH. reflexivity.
Qed.

Lemma member_text (kv : str * json) (lvl : nat) (tail : str) :
  member lvl kv ++ tail
  = 0x22 :: escape kv.1 ++ 0x22 :: 0x3A :: 0x20 :: enc kv.2 lvl ++ tail.
Proof.
  unfold member, encode_basestring. rewrite <- !app_assoc. reflexivity.
Qed.

Lemma object_items_enc (items : list (str * json)) (n : nat) :
  items <> [] -> Forall (fun kv => scans kv.2) items -> (length items <= n)%nat ->
  object_items (scan_once fuel) n
    (join (item_sep (S level)) (List.map (member (S level)) items)
       ++ newline_indent level ++ 0x7D :: rest)
  = Some (items, rest).
Proof.
  intros Hne Hall. revert n. induction Hall as [| [k v] items [Hv Hscan] Hall IH];
    [congruence |]. intros n Hn. destruct n as [| n]; [cbn in Hn; lia |].
  cbn [List.map]. rewrite join_cons.
  destruct items as [| kv' items].
  - cbn [List.map]. rewrite app_nil_r, member_text. cbn [fst snd] in *.
    cbn [object_items N.eqb Pos.eqb]. rewrite scanstring_escape.
    cbn [mbind option_bind skip_ws is_ws N.eqb Pos.eqb orb].
    rewrite (skip_ws_enc v (S level) _ Hv), Hscan by reflexivity.
    cbn [mbind option_bind]. rewrite skip_ws_newline_indent.
    cbn [skip_ws is_ws N.eqb Pos.eqb orb]. reflexivity.
  - cbn [List.map]. rewrite <- !app_assoc, member_text. cbn [fst snd] in *.
    cbn [object_items N.eqb Pos.eqb]. rewrite scanstring_escape.
    cbn [mbind option_bind skip_ws is_ws N.eqb Pos.eqb orb].
    rewrite (skip_ws_enc v (S level) _ Hv), Hscan by reflexivity.
    cbn [mbind option_bind]. unfold item_sep at 1.
    cbn [app skip_ws is_ws N.eqb Pos.eqb orb].
    rewrite skip_ws_newline_indent.
    specialize (IH ltac:(congruence) n ltac:(cbn [length] in Hn |- *; lia)).
    cbn [List.map] in IH |- *.
    assert (forall parts s,
              skip_ws (join (item_sep (S level)) (member (S level) kv' :: parts) ++ s)
              = join (item_sep (S level)) (member (S level) kv' :: parts) ++ s) as Hskip.
    { intros parts s. rewrite join_cons, <- app_assoc, member_text. reflexivity. }
    rewrite Hskip, IH. reflexivity.
Qed.

End Items.

End Encoded.

Section RoundTrip.

Variable float_repr : str -> str.

Abbreviation enc := (iterencode float_repr).

Lemma need_items_le (items : list json) (f : nat) :
  (foldr Nat.max O (List.map need items) <= f)%nat ->
  Forall (fun x => (need x <= f)%nat) items.
Proof.
  induction items as [| x items IH]; cbn [List.map foldr]; intros H; constructor.
  - lia.
  - apply IH. lia.
Qed.

Lemma need_members_le (items : list (str * json)) (f : nat) :
  (foldr Nat.max O (List.map (fun kv => need kv.2) items) <= f)%nat ->
  Forall (fun kv => (need kv.2 <= f)%nat) items.
Proof.
  induction items as [| x items IH]; cbn [List.map foldr]; intros H; constructor.
  - lia.
  - apply IH. lia.
Qed.

(** Scanning the text of a value gives the value back and stops right
    after it. *)
Lemma scan_once_enc (v : json) :
  representable v ->
  forall level fuel rest,
    (need v <= fuel)%nat -> delimited rest = true ->
    scan_once fuel (enc v level ++ rest) = Some (v, rest).
Proof.
  induction v as [| b | z | lit | s | items IH | items IH] using json_induction;
    intros Hv level fuel rest Hfuel Hrest;
    (destruct fuel as [| fuel]; [cbn in Hfuel; lia |]).
  - reflexivity.
  - destruct b; reflexivity.
  - apply scan_once_int, Hrest.
  - destruct Hv.
  - apply scan_once_string.
  - destruct items as [| x items]; [reflexivity |].
    rewrite enc_arr, <- !app_assoc. cbn [app]. rewrite scan_once_array.
    unfold JSONArray. rewrite skip_ws_newline_indent.
    apply representable_arr in Hv.
    cbn [need] in Hfuel. apply le_S_n, need_items_le in Hfuel.
    assert (Forall (scans float_repr fuel) (x :: items)) as Hscans.
    { apply Forall_forall. intros y Hy. split.
      - exact (proj1 (Forall_forall _ _) Hv y Hy).
      - intros lvl rest' Hr. apply (proj1 (Forall_forall _ _) IH y Hy).
        + exact (proj1 (Forall_forall _ _) Hv y Hy).
        + exact (proj1 (Forall_forall _ _) Hfuel y Hy).
        + exact Hr. }
    pose proof (array_items_enc float_repr fuel level rest (x :: items)) as Hitems.
    cbn [List.map] in Hitems |- *.
    rewrite skip_ws_join by (apply Forall_cons in Hv as [Hx _]; exact Hx).
    set (body := join _ _ ++ _) in *.
    assert (exists h t, body = h :: t /\ h <> 0x5D) as (h & t & Eb & Hh).
    { subst body. rewrite join_cons, <- app_assoc.
      apply Forall_cons in Hv as [Hx _].
      destruct (enc_head float_repr x (S level) Hx) as (h & t & -> & _ & Hh & _).
      eexists _, _. split; [reflexivity | exact Hh]. }
    rewrite Eb. apply N.eqb_neq in Hh. rewrite Hh. rewrite <- Eb.
    rewrite Hitems; [reflexivity | congruence | exact Hscans |].
    rewrite length_app. subst body. rewrite length_app.
    pose proof (join_length (item_sep (S level))
                  (enc x (S level) :: List.map (fun v => enc v (S level)) items)) as Hlen.
    cbn [length] in Hlen |- *. rewrite length_map in Hlen.
    enough (Forall (fun p => p <> [])
              (enc x (S level) :: List.map (fun v => enc v (S level)) items)) as Hnn
        by (specialize (Hlen Hnn); lia).
    change (Forall (fun p => p <> []) (List.map (fun v => enc v (S level)) (x :: items))).
    apply Forall_map. apply (Forall_impl _ _ _ Hv). intros y Hy.
    destruct (enc_head float_repr y (S level) Hy) as (h' & t' & E & _).
    cbn. rewrite E. discriminate.
  - destruct items as [| kv items]; [reflexivity |].
    rewrite enc_obj, <- !app_assoc. cbn [app]. rewrite scan_once_object.
    unfold JSONObject. rewrite skip_ws_newline_indent.
    apply representable_obj in Hv as [Hkeys Hv].
    cbn [need] in Hfuel. apply le_S_n, need_members_le in Hfuel.
    assert (Forall (fun kv => scans float_repr fuel kv.2) (kv :: items)) as Hscans.
    { apply Forall_forall. intros y Hy. split.
      - exact (proj1 (Forall_forall _ _) Hv y Hy).
      - intros lvl rest' Hr. apply (proj1 (Forall_forall _ _) IH y Hy).
        + exact (proj1 (Forall_forall _ _) Hv y Hy).
        + exact (proj1 (Forall_forall _ _) Hfuel y Hy).
        + exact Hr. }
    pose proof (object_items_enc float_repr fuel level rest (kv :: items)) as Hitems.
    cbn [List.map] in Hitems |- *.
    set (body := join _ _ ++ _) in *.
    assert (exists t, body = 0x22 :: t) as (t & Eb).
    { subst body. rewrite join_cons, <- app_assoc, member_text. eexists. reflexivity. }
    rewrite Eb. cbn [skip_ws is_ws N.eqb Pos.eqb orb]. rewrite <- Eb.
    rewrite Hitems; [| congruence | exact Hscans |].
    + cbn [mbind option_bind]. rewrite (dict_of_pairs_distinct _ Hkeys). reflexivity.
    + rewrite length_app. rewrite Eb. cbn [length].
      pose proof (join_length (item_sep (S level))
                    (member float_repr (S level) kv
                       :: List.map (member float_repr (S level)) items)) as Hlen.
      assert (length body = S (length t)) as Hb by (rewrite Eb; reflexivity).
      subst body. rewrite length_app in Hb.
      cbn [length] in Hlen. rewrite length_map in Hlen.
      enough (Forall (fun p => p <> [])
                (member float_repr (S level) kv
                   :: List.map (member float_repr (S level)) items)) as Hnn
          by (specialize (Hlen Hnn); lia).
      change (Forall (fun p => p <> [])
                (List.map (member float_repr (S level)) (kv :: items))).
      apply Forall_map, Forall_forall. intros y _. cbn.
      unfold member, encode_basestring. discriminate.
Qed.


Lemma join_part_length (sep : str) (parts : list str) :
  Forall (fun p => (length p <= length (join sep parts))%nat) parts.
Proof.
  induction parts as [| p parts IH]; constructor.
  - rewrite join_cons, length_app. lia.
  - apply (Forall_impl _ _ _ IH). intros q Hq. rewrite join_cons, length_app.
    destruct parts; [inversion IH; cbn in *; lia |]. rewrite length_app. lia.
Qed.

(** The text of a value is at least as long as the value is deep. *)
Lemma need_le_length (v : json) :
  representable v -> forall level, (need v <= length (enc v level))%nat.
Proof.
  induction v as [| b | z | lit | s | items IH | items IH] using json_induction;
    intros Hv level.
  - vm_compute. lia.
  - destruct b; vm_compute; lia.
  - destruct (enc_head float_repr (JInt z) level Hv) as (h & t & -> & _). cbn. lia.
  - destruct Hv.
  - cbn [need iterencode]. unfold encode_basestring. rewrite length_app. cbn. lia.
  - destruct items as [| x items]; [vm_compute; lia |].
    rewrite enc_arr, !length_app. cbn [need length].
    apply representable_arr in Hv.
    enough (foldr Nat.max O (List.map need (x :: items))
            <= length (join (item_sep (S level))
                         (List.map (fun v => enc v (S level)) (x :: items))))%nat by lia.
    pose proof (join_part_length (item_sep (S level))
                  (List.map (fun v => enc v (S level)) (x :: items))) as Hparts.
    apply Forall_map in Hparts.
    set (total := length _) in *. clearbody total.
    induction (x :: items) as [| y l IHl]; cbn [List.map foldr]; [lia |].
    apply Forall_cons in IH as [IHy IH], Hv as [Hy Hv], Hparts as [Hp Hparts].
    specialize (IHl IH Hv Hparts). specialize (IHy Hy (S level)). cbn beta in Hp.
    apply Nat.max_lub; [lia | exact IHl].
  - destruct items as [| kv items]; [vm_compute; lia |].
    rewrite enc_obj, !length_app. cbn [need length].
    apply representable_obj in Hv as [_ Hv].
    enough (foldr Nat.max O (List.map (fun kv => need kv.2) (kv :: items))
            <= length (join (item_sep (S level))
                         (List.map (member float_repr (S level)) (kv :: items))))%nat
      by lia.
    pose proof (join_part_length (item_sep (S level))
                  (List.map (member float_repr (S level)) (kv :: items))) as Hparts.
    apply Forall_map in Hparts.
    set (total := length _) in *. clearbody total.
    induction (kv :: items) as [| y l IHl]; cbn [List.map foldr]; [lia |].
    apply Forall_cons in IH as [IHy IH], Hv as [Hy Hv], Hparts as [Hp Hparts].
    specialize (IHl IH Hv Hparts). specialize (IHy Hy (S level)). cbn beta in Hp.
    unfold member in Hp. rewrite !length_app in Hp.
    apply Nat.max_lub; [lia | exact IHl].
Qed.

(** The check for a byte order mark changes nothing in the outcome: the
    scanner refuses such a text as well. *)
Lemma loads_scan (s : str) :
  loads s
  = '(v, r) ← scan_once (S (length s)) (skip_ws s);
    match skip_ws r with
    | [] => Some v
    | _ :: _ => None
    end.
Proof.
  destruct s as [| x0 s0]; [reflexivity |].
  destruct x0 as [| p]; [reflexivity |].
  unfold loads. repeat (destruct p as [p | p |]; try reflexivity).
Qed.

(** Decoding what [dumps] wrote gives the value back. *)
Lemma loads_dumps (v : json) :
  representable v -> loads (dumps float_repr v) = Some v.
Proof.
  intros Hv. rewrite loads_scan. unfold dumps.
  rewrite <- (app_nil_r (enc v 0)) at 2.
  rewrite (skip_ws_enc float_repr v 0 [] Hv).
  rewrite (scan_once_enc v Hv 0 _ []); [reflexivity | | reflexivity].
  pose proof (need_le_length v Hv 0). lia.
Qed.

End RoundTrip.

(** *** UTF-8 *)

(** A Unicode scalar value: a code point that is no surrogate. *)
Definition scalar (x : char) : bool :=
  (x <? 0xD800) || ((0xDFFF <? x) && (x <=? 0x10FFFF)).

Ltac decide_order :=
  repeat match goal with
         | |- context [?a <? ?b] => destruct (N.ltb_spec a b)
         | |- context [?a <=? ?b] => destruct (N.leb_spec a b)
         end.

Lemma decode_utf8_char (x : char) (r : list N) :
  scalar x = true ->
  exists b, utf8_char x = Some b /\ decode_utf8 (b ++ r) = push x (decode_utf8 r).
Proof.
  unfold scalar, utf8_char. intros Hx.
  assert (x < 0xD800 \/ 0xDFFF < x <= 0x10FFFF) as Hr.
  { revert Hx. decide_order; cbn; intros; try discriminate; lia. }
  clear Hx.
  pose proof (N.div_mod x 64 ltac:(lia)) as E1.
  pose proof (N.mod_lt x 64 ltac:(lia)) as L1.
  pose proof (N.div_mod (x / 64) 64 ltac:(lia)) as E2.
  pose proof (N.mod_lt (x / 64) 64 ltac:(lia)) as L2.
  pose proof (N.div_mod (x / 4096) 64 ltac:(lia)) as E3.
  pose proof (N.mod_lt (x / 4096) 64 ltac:(lia)) as L3.
  assert (x / 4096 = x / 64 / 64) as D2 by (rewrite N.Div0.div_div; reflexivity).
  assert (x / 262144 = x / 4096 / 64) as D3 by (rewrite N.Div0.div_div; reflexivity).
  set (q1 := x / 64) in *. set (m1 := x mod 64) in *.
  set (q2 := x / 4096) in *. set (m2 := q1 mod 64) in *.
  set (q3 := x / 262144) in *. set (m3 := q2 mod 64) in *.
  destruct (N.ltb_spec x 0x80) as [H1 | H1].
  { eexists. split; [reflexivity |]. cbn [app decode_utf8].
    destruct (N.ltb_spec x 0x80); [reflexivity | lia]. }
  destruct (N.ltb_spec x 0x800) as [H2 | H2].
  { eexists. split; [reflexivity |]. cbn [app decode_utf8]. unfold is_cont.
    replace (0xC0 + q1 <? 0x80) with false by (symmetry; apply N.ltb_ge; lia).
    replace (0xC2 <=? 0xC0 + q1) with true by (symmetry; apply N.leb_le; lia).
    replace (0xC0 + q1 <=? 0xDF) with true by (symmetry; apply N.leb_le; lia).
    replace (0x80 <=? 0x80 + m1) with true by (symmetry; apply N.leb_le; lia).
    replace (0x80 + m1 <=? 0xBF) with true by (symmetry; apply N.leb_le; lia).
    cbn [andb]. f_equal. lia. }
  destruct (N.ltb_spec x 0x10000) as [H3 | H3].
  { replace ((0xD800 <=? x) && (x <=? 0xDFFF)) with false
      by (symmetry; apply andb_false_iff; rewrite N.leb_gt, N.leb_gt; lia).
    eexists. split; [reflexivity |]. cbn [app decode_utf8]. unfold is_cont.
    replace (0xE0 + q2 <? 0x80) with false by (symmetry; apply N.ltb_ge; lia).
    replace ((0xC2 <=? 0xE0 + q2) && (0xE0 + q2 <=? 0xDF)) with false
      by (symmetry; apply andb_false_iff; rewrite N.leb_gt, N.leb_gt; lia).
    replace (0xE0 <=? 0xE0 + q2) with true by (symmetry; apply N.leb_le; lia).
    replace (0xE0 + q2 <=? 0xEF) with true by (symmetry; apply N.leb_le; lia).
    replace (0x80 <=? 0x80 + m2) with true by (symmetry; apply N.leb_le; lia).
    replace (0x80 + m2 <=? 0xBF) with true by (symmetry; apply N.leb_le; lia).
    replace (0x80 <=? 0x80 + m1) with true by (symmetry; apply N.leb_le; lia).
    replace (0x80 + m1 <=? 0xBF) with true by (symmetry; apply N.leb_le; lia).
    cbn [andb].
    replace ((0xE0 + q2 - 0xE0) * 4096 + (0x80 + m2 - 0x80) * 64 + (0x80 + m1 - 0x80))
      with x by lia.
    replace (0x800 <=? x) with true by (symmetry; apply N.leb_le; lia).
    replace ((0xD800 <=? x) && (x <=? 0xDFFF)) with false
      by (symmetry; apply andb_false_iff; rewrite N.leb_gt, N.leb_gt; lia).
    reflexivity. }
  eexists. split; [reflexivity |]. cbn [app decode_utf8]. unfold is_cont.
  replace (0xF0 + q3 <? 0x80) with false by (symmetry; apply N.ltb_ge; lia).
  replace ((0xC2 <=? 0xF0 + q3) && (0xF0 + q3 <=? 0xDF)) with false
    by (symmetry; apply andb_false_iff; rewrite N.leb_gt, N.leb_gt; lia).
  replace ((0xE0 <=? 0xF0 + q3) && (0xF0 + q3 <=? 0xEF)) with false
    by (symmetry; apply andb_false_iff; rewrite N.leb_gt, N.leb_gt; lia).
  replace (0xF0 <=? 0xF0 + q3) with true by (symmetry; apply N.leb_le; lia).
  replace (0xF0 + q3 <=? 0xF4) with true by (symmetry; apply N.leb_le; lia).
  replace (0x80 <=? 0x80 + m3) with true by (symmetry; apply N.leb_le; lia).
  replace (0x80 + m3 <=? 0xBF) with true by (symmetry; apply N.leb_le; lia).
  replace (0x80 <=? 0x80 + m2) with true by (symmetry; apply N.leb_le; lia).
  replace (0x80 + m2 <=? 0xBF) with true by (symmetry; apply N.leb_le; lia).
  replace (0x80 <=? 0x80 + m1) with true by (symmetry; apply N.leb_le; lia).
  replace (0x80 + m1 <=? 0xBF) with true by (symmetry; apply N.leb_le; lia).
  cbn [andb].
  replace ((0xF0 + q3 - 0xF0) * 262144 + (0x80 + m3 - 0x80) * 4096
           + (0x80 + m2 - 0x80) * 64 + (0x80 + m1 - 0x80)) with x by lia.
  replace (0x10000 <=? x) with true by (symmetry; apply N.leb_le; lia).
  replace (x <=? 0x10FFFF) with true by (symmetry; apply N.leb_le; lia).
  reflexivity.
Qed.

Lemma decode_encode_utf8 (s : str) :
  forallb scalar s = true ->
  exists data, encode_utf8 s = Some data /\ decode_utf8 data = Some s.
Proof.
  induction s as [| x s IH]; intros H; [exists []; split; reflexivity |].
  cbn [forallb] in H. apply andb_prop in H as [Hx Hs].
  destruct (IH Hs) as (data & E & D).
  destruct (decode_utf8_char x data Hx) as (b & Eb & Db).
  exists (b ++ data). cbn [encode_utf8]. rewrite Eb, E. split; [reflexivity |].
  rewrite Db, D. reflexivity.
Qed.

(** *** The text [dumps] writes can be encoded *)

Abbreviation clean s := (forallb scalar s = true).

(** Every [str] in the value, keys included, holds Unicode scalar values
    only. *)
Fixpoint encodable (v : json) : Prop :=
  match v with
  | JStr s => clean s
  | JArr items =>
    (fix all (l : list json) : Prop :=
       match l with
       | [] => True
       | x :: l' => encodable x /\ all l'
       end) items
  | JObj items =>
    (fix all (l : list (str * json)) : Prop :=
       match l with
       | [] => True
       | kv :: l' => (clean kv.1 /\ encodable kv.2) /\ all l'
       end) items
  | _ => True
  end.

Lemma encodable_arr (items : list json) :
  encodable (JArr items) <-> Forall encodable items.
Proof.
  cbn [encodable]. induction items as [| x items IH].
  - split; [constructor | trivial].
  - rewrite Forall_cons, <- IH. reflexivity.
Qed.

Lemma encodable_obj (items : list (str * json)) :
  encodable (JObj items) <-> Forall (fun kv => clean kv.1 /\ encodable kv.2) items.
Proof.
  cbn [encodable]. induction items as [| x items IH].
  - split; [constructor | trivial].
  - rewrite Forall_cons, <- IH. reflexivity.
Qed.

Lemma clean_app (a b : str) : clean a -> clean b -> clean (a ++ b).
Proof. intros Ha Hb. rewrite forallb_app, Ha, Hb. reflexivity. Qed.

Lemma clean_newline_indent (level : nat) : clean (newline_indent level).
Proof.
  unfold newline_indent. cbn [forallb]. apply andb_true_intro. split; [reflexivity |].
  induction (2 * level)%nat as [| n IH]; [reflexivity |]. cbn. exact IH.
Qed.

Lemma clean_escape_char (x : char) : scalar x = true -> clean (escape_char x).
Proof.
  intros Hx. destruct (x <? 0x20) eqn:H.
  - clear Hx. destruct x as [| p]; [reflexivity |].
    do 5 (destruct p as [p | p |]; try reflexivity);
      exfalso; revert H; clear; intros H; apply N.ltb_lt in H; lia.
  - destruct (N.eqb_spec x 0x22) as [-> | H1]; [reflexivity |].
    destruct (N.eqb_spec x 0x5C) as [-> | H2]; [reflexivity |].
    rewrite escape_char_plain by assumption. cbn. rewrite Hx. reflexivity.
Qed.

Lemma clean_escape (s : str) : clean s -> clean (escape s).
Proof.
  induction s as [| x s IH]; [reflexivity |]. cbn [forallb escape].
  intros H. apply andb_prop in H as [Hx Hs].
  apply clean_app; [apply clean_escape_char, Hx | apply IH, Hs].
Qed.

Lemma clean_encode_basestring (s : str) : clean s -> clean (encode_basestring s).
Proof.
  intros H. unfold encode_basestring.
  apply clean_app; [reflexivity |]. apply clean_app; [apply clean_escape, H | reflexivity].
Qed.

Lemma clean_digits (ds : str) : forallb is_digit ds = true -> clean ds.
Proof.
  induction ds as [| x ds IH]; [reflexivity |]. cbn [forallb].
  intros H. apply andb_prop in H as [Hx Hd]. rewrite (IH Hd), andb_true_r.
  unfold is_digit in Hx. apply andb_prop in Hx as [_ Hx]. apply N.leb_le in Hx.
  unfold scalar. destruct (N.ltb_spec x 0xD800); [reflexivity | lia].
Qed.

Lemma clean_str_of_int (z : Z) : clean (str_of_int z).
Proof.
  destruct z as [| p | p]; unfold str_of_int; [reflexivity | |].
  - apply clean_digits, str_of_uint_digits.
  - cbn [forallb]. rewrite (clean_digits _ (str_of_uint_digits _)). reflexivity.
Qed.

Lemma clean_join (sep : str) (parts : list str) :
  clean sep -> Forall (fun p => clean p) parts -> clean (join sep parts).
Proof.
  intros Hs. induction 1 as [| p parts Hp _ IH]; [reflexivity |].
  rewrite join_cons. apply clean_app; [exact Hp |].
  destruct parts; [reflexivity |]. apply clean_app; [exact Hs | exact IH].
Qed.

Section Bytes.

Variable float_repr : str -> str.

Abbreviation enc := (iterencode float_repr).

Lemma clean_item_sep (level : nat) : clean (item_sep level).
Proof.
  unfold item_sep. cbn [forallb]. rewrite clean_newline_indent. reflexivity.
Qed.

Lemma clean_enc (v : json) :
  representable v -> encodable v -> forall level, clean (enc v level).
Proof.
  induction v as [| b | z | lit | s | items IH | items IH] using json_induction;
    intros Hv He level.
  - reflexivity.
  - destruct b; reflexivity.
  - apply clean_str_of_int.
  - destruct Hv.
  - apply clean_encode_basestring, He.
  - destruct items as [| x items]; [reflexivity |].
    rewrite enc_arr. apply representable_arr in Hv. apply encodable_arr in He.
    apply clean_app; [reflexivity |].
    apply clean_app; [apply clean_newline_indent |].
    apply clean_app; [| apply clean_app; [apply clean_newline_indent | reflexivity]].
    apply clean_join; [apply clean_item_sep |].
    apply Forall_map, Forall_forall. intros y Hy. cbn.
    apply (proj1 (Forall_forall _ _) IH y Hy).
    + exact (proj1 (Forall_forall _ _) Hv y Hy).
    + exact (proj1 (Forall_forall _ _) He y Hy).
  - destruct items as [| kv items]; [reflexivity |].
    rewrite enc_obj. apply representable_obj in Hv as [_ Hv]. apply encodable_obj in He.
    apply clean_app; [reflexivity |].
    apply clean_app; [apply clean_newline_indent |].
    apply clean_app; [| apply clean_app; [apply clean_newline_indent | reflexivity]].
    apply clean_join; [apply clean_item_sep |].
    apply Forall_map, Forall_forall. intros y Hy. cbn. unfold member.
    destruct (proj1 (Forall_forall _ _) He y Hy) as [Hk Hy'].
    apply clean_app; [apply clean_encode_basestring, Hk |].
    apply (clean_app [58; 32]); [reflexivity |].
    apply (proj1 (Forall_forall _ _) IH y Hy).
    + exact (proj1 (Forall_forall _ _) Hv y Hy).
    + exact Hy'.
Qed.

End Bytes.

(** *** What [loads] builds *)

Fixpoint float_free (v : json) : Prop :=
  match v with
  | JFloat _ => False
  | JArr items =>
    (fix all (l : list json) : Prop :=
       match l with
       | [] => True
       | x :: l' => float_free x /\ all l'
       end) items
  | JObj items =>
    (fix all (l : list (str * json)) : Prop :=
       match l with
       | [] => True
       | kv :: l' => float_free kv.2 /\ all l'
       end) items
  | _ => True
  end.

(** No [dict] in the value has a key twice: what holds of every Python
    value. *)
Fixpoint distinct_keys (v : json) : Prop :=
  match v with
  | JArr items =>
    (fix all (l : list json) : Prop :=
       match l with
       | [] => True
       | x :: l' => distinct_keys x /\ all l'
       end) items
  | JObj items =>
    NoDup (map fst items)
    /\ (fix all (l : list (str * json)) : Prop :=
          match l with
          | [] => True
          | kv :: l' => distinct_keys kv.2 /\ all l'
          end) items
  | _ => True
  end.

Lemma float_free_arr (items : list json) :
  float_free (JArr items) <-> Forall float_free items.
Proof.
  cbn [float_free]. induction items as [| x items IH].
  - split; [constructor | trivial].
  - rewrite Forall_cons, <- IH. reflexivity.
Qed.

Lemma float_free_obj (items : list (str * json)) :
  float_free (JObj items) <-> Forall (fun kv => float_free kv.2) items.
Proof.
  cbn [float_free]. induction items as [| x items IH].
  - split; [constructor | trivial].
  - rewrite Forall_cons, <- IH. reflexivity.
Qed.

Lemma distinct_keys_arr (items : list json) :
  distinct_keys (JArr items) <-> Forall distinct_keys items.
Proof.
  cbn [distinct_keys]. induction items as [| x items IH].
  - split; [constructor | trivial].
  - rewrite Forall_cons, <- IH. reflexivity.
Qed.

Lemma distinct_keys_obj (items : list (str * json)) :
  distinct_keys (JObj items)
  <-> NoDup (map fst items) /\ Forall (fun kv => distinct_keys kv.2) items.
Proof.
  cbn [distinct_keys]. apply and_iff_compat_l. induction items as [| x items IH].
  - split; [constructor | trivial].
  - rewrite Forall_cons, <- IH. reflexivity.
Qed.

Lemma representable_iff (v : json) :
  representable v <-> distinct_keys v /\ float_free v.
Proof.
  induction v as [| b | z | lit | s | items IH | items IH] using json_induction;
    try (cbn; tauto).
  - rewrite representable_arr, distinct_keys_arr, float_free_arr.
    induction IH as [| x items Hx _ IHl]; [repeat split; constructor |].
    rewrite !Forall_cons, IHl, Hx. tauto.
  - rewrite representable_obj, distinct_keys_obj, float_free_obj.
    assert (Forall (fun kv => representable kv.2) items
            <-> Forall (fun kv => distinct_keys kv.2) items
                /\ Forall (fun kv => float_free kv.2) items) as E; [| tauto].
    induction IH as [| x items Hx _ IHl]; [repeat split; constructor |].
    rewrite !Forall_cons, IHl, Hx. tauto.
Qed.

Lemma dict_set_key (x k : str) (v : json) (d : list (str * json)) :
  x ∈ map fst (dict_set k v d) -> x = k \/ x ∈ map fst d.
Proof.
  induction d as [| [k' v'] d IH]; cbn [dict_set map fst].
  - intros H. apply elem_of_cons in H as [-> | H]; [left; reflexivity | inversion H].
  - unfold Str.eqb. destruct (bool_decide_reflect (k = k')) as [<- | Hne];
      cbn [map fst]; intros H; apply elem_of_cons in H as [-> | H].
    + left. reflexivity.
    + right. apply elem_of_cons. right. exact H.
    + right. apply elem_of_cons. left. reflexivity.
    + destruct (IH H) as [-> | H']; [left; reflexivity |].
      right. apply elem_of_cons. right. exact H'.
Qed.

Lemma dict_set_keys (k : str) (v : json) (d : list (str * json)) :
  NoDup (map fst d) -> NoDup (map fst (dict_set k v d)).
Proof.
  induction d as [| [k' v'] d IH]; cbn [dict_set map fst]; intros H.
  - apply NoDup_singleton.
  - apply NoDup_cons in H as [Hk' H]. unfold Str.eqb.
    destruct (bool_decide_reflect (k = k')) as [<- | Hne]; cbn [map fst].
    + apply NoDup_cons. split; assumption.
    + apply NoDup_cons. split; [| apply IH, H].
      intros Hin. destruct (dict_set_key _ _ _ _ Hin) as [-> | Hin']; [congruence | auto].
Qed.

Lemma dict_set_values (P : json -> Prop) (k : str) (v : json) (d : list (str * json)) :
  P v -> Forall (fun kv => P kv.2) d -> Forall (fun kv => P kv.2) (dict_set k v d).
Proof.
  intros Hv. induction 1 as [| [k' v'] d Hk Hd IH]; cbn [dict_set].
  - constructor; [exact Hv | constructor].
  - destruct (Str.eqb k k'); constructor; assumption.
Qed.

Lemma dict_of_pairs_dict (P : json -> Prop) (pairs : list (str * json)) :
  Forall (fun kv => P kv.2) pairs ->
  NoDup (map fst (dict_of_pairs pairs)) /\ Forall (fun kv => P kv.2) (dict_of_pairs pairs).
Proof.
  unfold dict_of_pairs.
  assert (NoDup (map fst (@nil (str * json))) /\ Forall (fun kv => P kv.2) (@nil (str * json)))
    as Hacc by (split; constructor).
  revert Hacc. generalize (@nil (str * json)) as acc.
  induction pairs as [| [k v] pairs IH]; intros acc [Hn Ha] Hp; [split; assumption |].
  apply Forall_cons in Hp as [Hv Hp]. cbn [foldl fst snd]. apply IH; [| exact Hp].
  split; [apply dict_set_keys, Hn | apply dict_set_values; assumption].
Qed.

Section Scanned.

Variable P : json -> Prop.
Variable scan : str -> option (json * str).
Hypothesis scan_P : forall s v r, scan s = Some (v, r) -> P v.

Lemma array_items_all (n : nat) (s : str) (vs : list json) (r : str) :
  array_items scan n s = Some (vs, r) -> Forall P vs.
Proof using scan_P.
  revert s vs r. induction n as [| n IH]; intros s vs r H; [discriminate |].
  cbn [array_items] in H. destruct (scan s) as [[v r0] |] eqn:E; [| discriminate].
  cbn in H. destruct (skip_ws r0) as [| x r1]; [discriminate |].
  destruct (x =? 0x5D).
  { injection H as <- <-. constructor; [eapply scan_P, E | constructor]. }
  destruct (x =? 0x2C); [| discriminate].
  destruct (array_items scan n (skip_ws r1)) as [[vs' r2] |] eqn:E'; [| discriminate].
  cbn in H. injection H as <- <-. constructor; [eapply scan_P, E | eapply IH, E'].
Qed.

Lemma object_items_all (n : nat) (s : str) (kvs : list (str * json)) (r : str) :
  object_items scan n s = Some (kvs, r) -> Forall (fun kv => P kv.2) kvs.
Proof using scan_P.
  revert s kvs r. induction n as [| n IH]; intros s kvs r H; [discriminate |].
  cbn [object_items] in H. destruct s as [| q r0]; [discriminate |].
  destruct (q =? 0x22); [| discriminate].
  destruct (scanstring r0) as [[key r1] |]; [| discriminate].
  cbn in H. destruct (skip_ws r1) as [| colon r2]; [discriminate |].
  destruct (colon =? 0x3A); [| discriminate].
  destruct (scan (skip_ws r2)) as [[v r3] |] eqn:E; [| discriminate].
  cbn in H. destruct (skip_ws r3) as [| x r4]; [discriminate |].
  destruct (x =? 0x7D).
  { injection H as <- <-. constructor; [eapply scan_P, E | constructor]. }
  destruct (x =? 0x2C); [| discriminate].
  destruct (object_items scan n (skip_ws r4)) as [[kvs' r5] |] eqn:E'; [| discriminate].
  cbn in H. injection H as <- <-. constructor; [eapply scan_P, E | eapply IH, E'].
Qed.

End Scanned.

Lemma scan_once_distinct_keys (fuel : nat) (s : str) (v : json) (r : str) :
  scan_once fuel s = Some (v, r) -> distinct_keys v.
Proof.
  revert s v r. induction fuel as [| fuel IH]; intros s v r H; [discriminate |].
  cbn [scan_once] in H. destruct s as [| x s]; [discriminate |].
  destruct (x =? 0x22).
  { destruct (scanstring s) as [[t r'] |]; [| discriminate]. injection H as <- <-. exact I. }
  destruct (x =? 0x7B).
  { unfold JSONObject in H. destruct (skip_ws s) as [| y r0]; [discriminate |].
    destruct (y =? 0x7D).
    { injection H as <- <-. apply distinct_keys_obj. split; constructor. }
    destruct (object_items (scan_once fuel) (S (length s)) (y :: r0))
      as [[kvs r1] |] eqn:E; [| discriminate].
    cbn in H. injection H as <- <-. apply distinct_keys_obj.
    apply dict_of_pairs_dict. eapply object_items_all; [exact IH | exact E]. }
  destruct (x =? 0x5B).
  { unfold JSONArray in H. destruct (skip_ws s) as [| y r0]; [discriminate |].
    destruct (y =? 0x5D).
    { injection H as <- <-. apply distinct_keys_arr. constructor. }
    destruct (array_items (scan_once fuel) (S (length s)) (y :: r0))
      as [[vs r1] |] eqn:E; [| discriminate].
    cbn in H. injection H as <- <-. apply distinct_keys_arr.
    eapply array_items_all; [exact IH | exact E]. }
  destruct (strip_prefix (u "null") (x :: s)); [injection H as <- <-; exact I |].
  destruct (strip_prefix (u "true") (x :: s)); [injection H as <- <-; exact I |].
  destruct (strip_prefix (u "false") (x :: s)); [injection H as <- <-; exact I |].
  destruct (match_number (x :: s)) as [[n r'] |] eqn:E.
  { injection H as <- <-. unfold match_number in E.
    destruct (match x :: s with
              | x0 :: r0 => if x0 =? 0x2D then (true, r0) else (false, x :: s)
              | [] => (false, x :: s)
              end) as [neg s1].
    destruct (scan_int_part s1) as [[ip s2] |]; [| discriminate]. cbn in E.
    destruct (scan_frac s2) as [frac s3]. destruct (scan_exp s3) as [exp s4].
    injection E as <- <-. unfold number_value.
    destruct frac, exp; try exact I; destruct neg; exact I. }
  destruct (strip_prefix (u "NaN") (x :: s)); [injection H as <- <-; exact I |].
  destruct (strip_prefix (u "Infinity") (x :: s)); [injection H as <- <-; exact I |].
  destruct (strip_prefix (u "-Infinity") (x :: s)); [injection H as <- <-; exact I |].
  discriminate.
Qed.

(** Whatever [loads] returns is a Python value. *)
Lemma loads_distinct_keys (s : str) (v : json) : loads s = Some v -> distinct_keys v.
Proof.
  rewrite loads_scan. intros H.
  destruct (scan_once (S (length s)) (skip_ws s)) as [[v' r] |] eqn:E; [| discriminate].
  cbn in H. destruct (skip_ws r); [| discriminate]. injection H as <-.
  eapply scan_once_distinct_keys, E.
Qed.

Lemma recover_json_distinct_keys (decode_error_text : str -> str)
    (content : json) (w : world) (v : json) :
  (recover_json decode_error_text content w).1 = Return v -> distinct_keys v.
Proof.
  unfold recover_json, try_except.
  destruct content as [| b | z | lit | s | items | items]; try (cbn; discriminate).
  unfold json_loads. destruct (loads (json_candidate s)) as [v' |] eqn:E; cbn.
  - intros [= <-]. eapply loads_distinct_keys, E.
  - intros [= <-]. apply distinct_keys_obj. split; [| repeat constructor].
    apply (bool_decide_unpack _). vm_compute. exact I.
Qed.

(** What [extract_key_points] returns, the error-flagged values included,
    is a Python value. *)
Lemma extract_key_points_distinct_keys (decode_error_text : str -> str)
    (self : DeepSeekAPI) (net : endpoint) (text : str) (w : world) (v : json) :
  (extract_key_points decode_error_text self net text w).1 = Return v -> distinct_keys v.
Proof.
  unfold extract_key_points, try_except, bind.
  destruct (_call_api self net (key_points_messages text) low_temperature w)
    as [[response | e0] w0].
  - destruct (reply_content response w0) as [[content | e1] w2].
    + pose proof (recover_json_distinct_keys decode_error_text content w2) as H.
      destruct (recover_json decode_error_text content w2) as [[v' | e2] w3].
      * cbn in *. intros [= <-]. apply H. reflexivity.
      * rewrite isinstance_Exception. cbn. intros [= <-].
        apply distinct_keys_obj. split; [| repeat constructor].
        apply (bool_decide_unpack _). vm_compute. exact I.
    + rewrite isinstance_Exception. cbn. intros [= <-].
      apply distinct_keys_obj. split; [| repeat constructor].
      apply (bool_decide_unpack _). vm_compute. exact I.
  - rewrite isinstance_Exception. cbn. intros [= <-].
    apply distinct_keys_obj. split; [| repeat constructor].
    apply (bool_decide_unpack _). vm_compute. exact I.
Qed.

(** A result of [extract_key_points] in which the model wrote no float is
    representable. *)
Lemma key_points_representable (decode_error_text : str -> str)
    (self : DeepSeekAPI) (net : endpoint) (text : str) (w : world) (key_points : json) :
  (extract_key_points decode_error_text self net text w).1 = Return key_points ->
  float_free key_points -> representable key_points.
Proof.
  intros H Hf. apply representable_iff. split; [| exact Hf].
  eapply extract_key_points_distinct_keys, H.
Qed.


(** A result with every field of the schema. *)
Definition example_key_points : json :=
  JObj [(u "title", JStr (u "论文 T"));
        (u "authors", JArr [JStr (u "A. Author"); JStr (u "作者二")]);
        (u "keywords", JArr [JStr (u "k1"); JStr (u "k2")]);
        (u "research_purpose", JStr (u "目的"));
        (u "methodology",
         JObj [(u "approach", JStr (u "方法"));
               (u "data_collection", JStr (u "line 1
line 2"));
               (u "analysis_methods", JArr [JStr (u "m1")])]);
        (u "main_findings", JArr [JStr (u "f1"); JStr (u "f2")]);
        (u "conclusions", JArr []);
        (u "future_work", JArr [JStr (u "w1")])].


(** * Further properties of the code *)

(** ** What [extract_key_points] returns (lines 98-155 of [api.py]) *)

(** A candidate that parses is a dict: it starts with an opening brace. *)
Lemma loads_candidate_dict (content : str) (v : json) :
  loads (recovery_candidate content) = Some v -> exists items, v = JObj items.
Proof.
  intros L. destruct (recovery_candidate_head content) as [Hc | [r Hc]]; rewrite Hc in L.
  - rewrite loads_nil in L. discriminate.
  - exact (loads_brace r v L).
Qed.

(** X1. Whatever the endpoint does and whatever the model replies,
    [extract_key_points] returns a dict: the parsed candidate is one, since
    it starts with an opening brace, and so are the two error-flagged
    values. The membership test of line 125 of [main.py] is therefore
    always a test on a dict. *)
Theorem extract_key_points_returns_dict (decode_error_text : str -> str)
    (self : DeepSeekAPI) (net : endpoint) (text : str) (w : world) :
  exists items,
    (extract_key_points decode_error_text self net text w).1 = Return (JObj items).
Proof.
  unfold extract_key_points, try_except, bind.
  destruct (_call_api self net (key_points_messages text) low_temperature w)
    as [[response | e0] w0].
  2: { rewrite isinstance_Exception. cbn. eauto. }
  destruct (reply_content response w0) as [[content | e1] w2].
  2: { rewrite isinstance_Exception. cbn. eauto. }
  destruct content as [| b | z | lit | s | its | its];
    try (unfold recover_json, try_except; cbn; solve [eauto]).
  rewrite recover_json_str.
  destruct (loads (recovery_candidate s)) as [v |] eqn:L; cbn; [| eauto].
  destruct (loads_candidate_dict s v L) as [items ->]. eauto.
Qed.

(** ** Replies the recovery step understands (lines 129-142 of [api.py]) *)

(** A text in braces. *)
Definition braced (mid : str) : str := c "{" :: mid ++ [c "}"].

Lemma strip_before_first_app (x0 : char) (pre rest : str) :
  existsb (is_char x0) pre = false ->
  strip_before_first x0 (pre ++ x0 :: rest) = x0 :: rest.
Proof.
  induction pre as [| x pre IH]; cbn [app existsb]; intros H.
  - rewrite strip_before_first_cons, N.eqb_refl. reflexivity.
  - apply orb_false_elim in H as [Hx H]. unfold is_char in Hx.
    rewrite strip_before_first_cons, Hx. exact (IH H).
Qed.

Lemma through_last_snoc (p : char -> bool) (s : str) (x : char) :
  p x = true -> through_last p (s ++ [x]) = length (s ++ [x]).
Proof.
  intros Hx. induction s as [| y s IH]; cbn [app through_last existsb length].
  - rewrite Hx. reflexivity.
  - rewrite existsb_app. cbn [existsb]. rewrite Hx, orb_true_l, !orb_true_r, IH.
    reflexivity.
Qed.

Lemma strip_after_last_app (x1 : char) (s post : str) :
  existsb (is_char x1) post = false ->
  strip_after_last x1 (s ++ [x1] ++ post) = s ++ [x1].
Proof.
  intros H. unfold strip_after_last. rewrite app_assoc.
  rewrite (through_last_app_none _ _ _ H).
  rewrite through_last_snoc by apply N.eqb_refl.
  rewrite take_app_length. reflexivity.
Qed.

(** Both strips leave a braced text that stands between brace-free
    texts. *)
Lemma strip_braced (pre mid post : str) :
  existsb (is_char (c "{")) pre = false ->
  existsb (is_char (c "}")) post = false ->
  strip_after_last (c "}") (strip_before_first (c "{") (pre ++ braced mid ++ post))
  = braced mid.
Proof.
  intros Hpre Hpost. unfold braced. rewrite <- app_comm_cons.
  rewrite strip_before_first_app by exact Hpre.
  rewrite <- app_assoc.
  exact (strip_after_last_app (c "}") (c "{" :: mid) post Hpost).
Qed.

(** The first occurrence of a literal none of whose first character
    stands before it. *)
Lemma find_after (a : char) (w' pre rest : str) :
  existsb (is_char a) pre = false ->
  find (a :: w') (pre ++ (a :: w') ++ rest) = Some (pre, rest).
Proof.
  change ((a :: w') ++ rest) with (a :: w' ++ rest).
  induction pre as [| x pre IH]; cbn [app existsb]; intros H.
  - cbn [find]. change (a :: w' ++ rest) with ((a :: w') ++ rest).
    rewrite strip_prefix_app. reflexivity.
  - apply orb_false_elim in H as [Hx H]. unfold is_char in Hx.
    cbn [find strip_prefix]. rewrite (N.eqb_sym a x), Hx, (IH H). reflexivity.
Qed.

Lemma recover_json_candidate (decode_error_text : str -> str) (content : str)
    (v : json) (w : world) :
  loads (json_candidate content) = Some v ->
  recover_json decode_error_text (JStr content) w = (Return v, w).
Proof.
  intros L. rewrite recover_json_str, <- json_candidate_recovery, L. reflexivity.
Qed.





(** ** The exported text as a reply *)

Lemma dumps_dict_braced (float_repr : str -> str) (items : list (str * json)) :
  exists mid, dumps float_repr (JObj items) = braced mid.
Proof.
  unfold dumps. destruct items as [| kv items].
  - exists []. vm_compute. reflexivity.
  - rewrite enc_obj. eexists. unfold braced. change (c "{") with 0x7B.
    change (c "}") with 0x7D. cbn [app]. f_equal.
    rewrite !app_assoc. reflexivity.
Qed.



(** ** The shape of the candidate *)

Lemma take_through_last (p : char -> bool) (s : str) :
  existsb p s = true ->
  exists mid x, take (through_last p s) s = mid ++ [x] /\ p x = true.
Proof.
  induction s as [| y s IH]; [discriminate |].
  cbn [existsb through_last]. intros H. rewrite H. cbn [take].
  destruct (existsb p s) eqn:E.
  - destruct (IH eq_refl) as (mid & x & -> & Hx). exists (y :: mid), x. split; [reflexivity | exact Hx].
  - rewrite orb_false_r in H. apply through_last_0 in E. rewrite E. cbn [take].
    exists [], y. split; [reflexivity | exact H].
Qed.

(** X19. The text handed to [json.loads] is a contiguous piece of the
    reply, and it is either empty or a text that starts with an opening
    brace and ends with a closing brace: no prose outside the braces ever
    reaches the parser. *)
Theorem json_candidate_shape (content : str) :
  (exists before after, content = before ++ json_candidate content ++ after)
  /\ (json_candidate content = [] \/ exists mid, json_candidate content = braced mid).
Proof.
  rewrite json_candidate_recovery. split; [apply recovery_candidate_substring |].
  unfold recovery_candidate.
  destruct (strip_before_first_head (c "{") (default content (fenced_block content)))
    as [-> | [r ->]]; [left; reflexivity |].
  unfold strip_after_last. cbn [through_last].
  change (is_char (c "}") (c "{")) with false. cbn [orb].
  destruct (existsb (is_char (c "}")) r) eqn:E; [| left; reflexivity].
  right. cbn [take]. destruct (take_through_last _ r E) as (mid & x & -> & Hx).
  apply N.eqb_eq in Hx as ->. exists mid. reflexivity.
Qed.

(** ** The reply of the endpoint (lines 74, 93 and 126 of [api.py]) *)

(** The content of the first choice of a reply of the expected shape: a
    dict whose [choices] is a list that starts with a dict whose [message]
    is a dict with a [content]. *)
Definition first_choice_content (response : json) : option json :=
  match response with
  | JObj d =>
    match dict_get (u "choices") d with
    | Some (JArr (JObj choice :: _)) =>
      match dict_get (u "message") choice with
      | Some (JObj msg) => dict_get (u "content") msg
      | _ => None
      end
    | _ => None
    end
  | _ => None
  end.

(** The errors of a lookup in a reply of another shape. *)
Definition shape_error (e : exn) : Prop :=
  (exn_cls e = KeyError \/ exn_cls e = IndexError \/ exn_cls e = TypeError)
  /\ exn_response e = None.

Lemma reply_content_cases (response : json) (w : world) :
  match first_choice_content response with
  | Some content => reply_content response w = (Return content, w)
  | None => exists e, reply_content response w = (Raise e, w) /\ shape_error e
  end.
Proof.
  unfold reply_content, first_choice_content, bind, getitem_str, getitem_0,
    not_subscriptable, raise, ret, shape_error.
  repeat first
    [ reflexivity
    | solve [eexists; split; [reflexivity | split; [tauto | reflexivity]]]
    | match goal with
      | |- context [match dict_get ?k ?d with _ => _ end] => destruct (dict_get k d)
      | |- context [match ?x with _ => _ end] => is_var x; destruct x
      end ].
Qed.

(** X5. The navigation into the reply returns the content of the first
    choice exactly when the reply has the expected shape; on any other
    reply it raises a KeyError, an IndexError or a TypeError; and it never
    touches the world. *)
Theorem reply_content_shape (response : json) (w : world) :
  (forall content,
     reply_content response w = (Return content, w)
     <-> first_choice_content response = Some content)
  /\ (first_choice_content response = None ->
      exists e, reply_content response w = (Raise e, w) /\ shape_error e)
  /\ (reply_content response w).2 = w.
Proof.
  pose proof (reply_content_cases response w) as H.
  destruct (first_choice_content response) as [c0 |].
  - rewrite H. repeat split; congruence.
  - destruct H as (e & -> & He). repeat split; try discriminate. eauto.
Qed.

(** ** The three operations on a reply of the expected shape *)

Section Operations.

Variable self : DeepSeekAPI.
Variable net : endpoint.

(** The world after one POST that logged nothing. *)
Definition posted (w : world) (rq : request) : world :=
  World (posts w ++ [rq]) (log w) (open_docs w).

Lemma ask_returns (messages : json) (temperature : str) (w : world)
    (r : response) (body content : json) :
  net (call_request self messages temperature) = inl r ->
  ~ error_status (status_code (info r)) ->
  json_method r = inl body ->
  first_choice_content body = Some content ->
  ask self net messages temperature w
  = (Return content, posted w (call_request self messages temperature)).
Proof.
  intros Hnet Hst Hjson Hc. unfold ask, bind.
  rewrite (call_api_other_status self net messages temperature w r body Hnet Hst Hjson).
  pose proof (reply_content_cases body
                (World (posts w ++ [call_request self messages temperature])
                       (log w) (open_docs w))) as H.
  rewrite Hc in H. exact H.
Qed.

(** X6. When the endpoint answers the one POST of [analyze_paper] or
    [answer_question] with a status that is no error and a JSON body of the
    expected shape, the operation returns the content of the first choice
    as it is, and writes no log record. *)
Theorem operations_return_first_choice (w : world) (r : response)
    (body content : json) :
  ~ error_status (status_code (info r)) ->
  json_method r = inl body ->
  first_choice_content body = Some content ->
  (forall text t,
     net (call_request self (analyze_messages text t) default_temperature) = inl r ->
     analyze_paper self net text t w
     = (Return content,
        posted w (call_request self (analyze_messages text t) default_temperature)))
  /\ (forall text q,
        net (call_request self (answer_messages text q) default_temperature) = inl r ->
        answer_question self net text q w
        = (Return content,
           posted w (call_request self (answer_messages text q) default_temperature))).
Proof.
  intros Hst Hjson Hc. split.
  - intros text t Hnet.
    pose proof (ask_returns _ _ w r body content Hnet Hst Hjson Hc) as H.
    unfold ask in H. unfold analyze_paper, try_except. rewrite H. reflexivity.
  - intros text q Hnet.
    pose proof (ask_returns _ _ w r body content Hnet Hst Hjson Hc) as H.
    unfold ask in H. unfold answer_question, try_except. rewrite H. reflexivity.
Qed.

End Operations.

(** A reply of the expected shape, and an endpoint that always gives it. *)
Definition chat_body (content : str) : json :=
  JObj [(u "id", JStr (u "1"));
        (u "choices",
         JArr [JObj [(u "index", JInt 0);
                     (u "message", JObj [(u "role", JStr (u "assistant"));
                                         (u "content", JStr content)])]])].

Definition chat_response (content : str) : response :=
  Response (ResponseInfo 200 []) (u "OK")
           (u "https://api.deepseek.com/v1/chat/completions")
           (inl (chat_body content)).

Lemma operations_return_first_choice_witness :
  (analyze_paper a_client (fun _ => inl (chat_response (u "A summary.")))
     (u "text") (u "summary") fresh).1
  = Return (JStr (u "A summary.")).
Proof.
  rewrite (proj1 (operations_return_first_choice a_client
                    (fun _ => inl (chat_response (u "A summary."))) fresh
                    (chat_response (u "A summary.")) (chat_body (u "A summary."))
                    (JStr (u "A summary."))
                    ltac:(unfold error_status; cbn; lia) eq_refl
                    ltac:(vm_compute; reflexivity))
             (u "text") (u "summary") eq_refl).
  reflexivity.
Defined.

(** ** A network failure *)

Section NetworkFailure.

Variable decode_error_text : str -> str.
Variable self : DeepSeekAPI.
Variable net : endpoint.

(** The world after one POST and the given log records. *)
Definition posted_logged (w : world) (rq : request) (records : list log_record) : world :=
  World (posts w ++ [rq]) (log w ++ records) (open_docs w).

Lemma call_api_network_error (messages : json) (temperature : str) (w : world)
    (e : exn) :
  net (call_request self messages temperature) = inr e ->
  isinstance e RequestException = true ->
  exn_response e = None ->
  _call_api self net messages temperature w
  = (Raise e,
     posted_logged w (call_request self messages temperature)
       [Log ERROR (u "API请求失败: " ++ exn_str e)]).
Proof.
  intros Hnet Hcls Hresp. unfold _call_api, try_except, bind, requests_post.
  fold (call_request self messages temperature). rewrite Hnet, Hcls. cbn.
  rewrite Hresp. reflexivity.
Qed.

(** X7. When [requests.post] raises a [RequestException] that carries no
    response (the connection failed), the failure is logged twice, by
    [_call_api] and by the operation. [analyze_paper] and [answer_question]
    then raise the same exception; [extract_key_points] returns the
    error-flagged dict with the text of the exception and no raw reply. *)
Theorem network_failure_logged_twice (w : world) (e : exn) :
  isinstance e RequestException = true ->
  exn_response e = None ->
  (forall text t,
     let rq := call_request self (analyze_messages text t) default_temperature in
     net rq = inr e ->
     analyze_paper self net text t w
     = (Raise e,
        posted_logged w rq [Log ERROR (u "API请求失败: " ++ exn_str e);
                            Log ERROR (u "论文分析失败: " ++ exn_str e)]))
  /\ (forall text q,
        let rq := call_request self (answer_messages text q) default_temperature in
        net rq = inr e ->
        answer_question self net text q w
        = (Raise e,
           posted_logged w rq [Log ERROR (u "API请求失败: " ++ exn_str e);
                               Log ERROR (u "回答问题失败: " ++ exn_str e)]))
  /\ (forall text,
        let rq := call_request self (key_points_messages text) low_temperature in
        net rq = inr e ->
        extract_key_points decode_error_text self net text w
        = (Return (JObj [(u "error", JBool true); (u "message", JStr (exn_str e))]),
           posted_logged w rq [Log ERROR (u "API请求失败: " ++ exn_str e);
                               Log ERROR (u "提取关键信息失败: " ++ exn_str e)])).
Proof.
  intros Hcls Hresp. split; [| split].
  - intros text t rq Hnet. unfold analyze_paper, try_except, bind.
    rewrite (call_api_network_error _ _ w e Hnet Hcls Hresp), isinstance_Exception.
    unfold posted_logged. cbn. rewrite <- app_assoc. reflexivity.
  - intros text q rq Hnet. unfold answer_question, try_except, bind.
    rewrite (call_api_network_error _ _ w e Hnet Hcls Hresp), isinstance_Exception.
    unfold posted_logged. cbn. rewrite <- app_assoc. reflexivity.
  - intros text rq Hnet. unfold extract_key_points, try_except, bind.
    rewrite (call_api_network_error _ _ w e Hnet Hcls Hresp), isinstance_Exception.
    unfold posted_logged. cbn. rewrite <- app_assoc. reflexivity.
Qed.

End NetworkFailure.

Lemma network_failure_logged_twice_witness :
  log (analyze_paper a_client unreachable (u "text") (u "summary") fresh).2
  = [Log ERROR (u "API请求失败: Connection refused");
     Log ERROR (u "论文分析失败: Connection refused")].
Proof.
  rewrite (proj1 (network_failure_logged_twice (fun _ => []) a_client unreachable fresh
                    (Exn ConnectionError (u "Connection refused") None)
                    eq_refl eq_refl)
             (u "text") (u "summary") eq_refl).
  vm_compute. reflexivity.
Defined.

(** ** One request per operation *)

Lemma reply_content_world (response : json) (w : world) :
  (reply_content response w).2 = w.
Proof.
  pose proof (reply_content_cases response w) as H.
  destruct (first_choice_content response); [rewrite H | destruct H as (e & -> & _)];
    reflexivity.
Qed.

Lemma ask_posts (self : DeepSeekAPI) (net : endpoint) (messages : json)
    (temperature : str) (w : world) :
  posts (ask self net messages temperature w).2
  = posts w ++ [call_request self messages temperature].
Proof.
  unfold ask, bind.
  pose proof (call_api_posts_once self net messages temperature w) as H.
  destruct (_call_api self net messages temperature w) as [[response | e] w1];
    cbn [snd] in *; [| exact H].
  pose proof (reply_content_world response w1) as Hw.
  destruct (reply_content response w1) as [[content | e] w2]; cbn [snd] in *;
    subst w2; exact H.
Qed.

Lemma recover_json_posts (decode_error_text : str -> str) (content : json) (w : world) :
  posts (recover_json decode_error_text content w).2 = posts w.
Proof.
  unfold recover_json, try_except, json_loads.
  destruct content; try reflexivity.
  destruct (loads (json_candidate s)); reflexivity.
Qed.

Section OnePost.

Variable decode_error_text : str -> str.
Variable self : DeepSeekAPI.
Variable net : endpoint.

Lemma analyze_paper_posts (text t : str) (w : world) :
  posts (analyze_paper self net text t w).2
  = posts w ++ [call_request self (analyze_messages text t) default_temperature].
Proof.
  unfold analyze_paper, try_except.
  pose proof (ask_posts self net (analyze_messages text t) default_temperature w) as H.
  unfold ask in H.
  match type of H with
  | context [?m w] => destruct (m w) as [[v | e] w1]
  end; cbn [snd] in H; [exact H |].
  rewrite isinstance_Exception. exact H.
Qed.

Lemma answer_question_posts (text q : str) (w : world) :
  posts (answer_question self net text q w).2
  = posts w ++ [call_request self (answer_messages text q) default_temperature].
Proof.
  unfold answer_question, try_except.
  pose proof (ask_posts self net (answer_messages text q) default_temperature w) as H.
  unfold ask in H.
  match type of H with
  | context [?m w] => destruct (m w) as [[v | e] w1]
  end; cbn [snd] in H; [exact H |].
  rewrite isinstance_Exception. exact H.
Qed.

Lemma extract_key_points_posts (text : str) (w : world) :
  posts (extract_key_points decode_error_text self net text w).2
  = posts w ++ [call_request self (key_points_messages text) low_temperature].
Proof.
  unfold extract_key_points, try_except.
  pose proof (ask_posts self net (key_points_messages text) low_temperature w) as H.
  unfold ask, bind in H. unfold bind.
  destruct (_call_api self net (key_points_messages text) low_temperature w)
    as [[response | e] w1]; cbn [snd] in H.
  - destruct (reply_content response w1) as [[content | e] w2]; cbn [snd] in H.
    + pose proof (recover_json_posts decode_error_text content w2) as Hr.
      destruct (recover_json decode_error_text content w2) as [[v | e] w3];
        cbn [snd] in Hr.
      * cbn [snd]. rewrite Hr. exact H.
      * rewrite isinstance_Exception. cbn [snd]. cbn. rewrite Hr. exact H.
    + rewrite isinstance_Exception. exact H.
  - rewrite isinstance_Exception. exact H.
Qed.

End OnePost.

(** X8. With a key in the environment the client is built, and each of its
    three operations issues exactly one POST, whatever the endpoint does
    and however the operation ends: to the URL of the environment, or to
    the default URL when the variable is unset, with the key as bearer
    token, and with a body that names the model, the two messages of the
    operation and the temperature (0.7, and 0.3 for the key points). *)
Theorem operations_post_one_request (decode_error_text : str -> str)
    (env : environ) (k0 : char) (k : str) :
  env !! u "DEEPSEEK_API_KEY" = Some (k0 :: k) ->
  exists self,
    (forall w, __init__ env w = (Return self, w))
    /\ forall net w,
         let request_of messages temperature :=
           Request (default (u "https://api.deepseek.com/v1/chat/completions")
                            (env !! u "DEEPSEEK_API_URL"))
                   [(u "Content-Type", u "application/json");
                    (u "Authorization", u "Bearer " ++ k0 :: k)]
                   (JObj [(u "model", JStr (u "deepseek-chat"));
                          (u "messages", messages);
                          (u "temperature", JFloat temperature)]) in
         (forall text t,
            posts (analyze_paper self net text t w).2
            = posts w ++ [request_of (analyze_messages text t) default_temperature])
         /\ (forall text q,
               posts (answer_question self net text q w).2
               = posts w ++ [request_of (answer_messages text q) default_temperature])
         /\ (forall text,
               posts (extract_key_points decode_error_text self net text w).2
               = posts w ++ [request_of (key_points_messages text) low_temperature]).
Proof.
  intros Hkey. eexists. split.
  { intros w. unfold __init__. rewrite Hkey. reflexivity. }
  intros net w request_of. split; [| split].
  - intros text t. rewrite analyze_paper_posts. reflexivity.
  - intros text q. rewrite answer_question_posts. reflexivity.
  - intros text. rewrite extract_key_points_posts. reflexivity.
Qed.

Definition key_only : environ := {[ u "DEEPSEEK_API_KEY" := u "sk-test" ]}.

Lemma operations_post_one_request_witness :
  exists self,
    (forall w, __init__ key_only w = (Return self, w))
    /\ forall net w,
         posts (extract_key_points (fun _ => []) self net (u "text") w).2
         = posts w
             ++ [Request (u "https://api.deepseek.com/v1/chat/completions")
                         [(u "Content-Type", u "application/json");
                          (u "Authorization", u "Bearer sk-test")]
                         (JObj [(u "model", JStr (u "deepseek-chat"));
                                (u "messages", key_points_messages (u "text"));
                                (u "temperature", JFloat (u "0.3"))])].
Proof.
  destruct (operations_post_one_request (fun _ => []) key_only (c "s") (u "k-test"))
    as (self & Hinit & Hposts).
  { vm_compute. reflexivity. }
  exists self. split; [exact Hinit |]. intros net w.
  rewrite (proj2 (proj2 (Hposts net w))). vm_compute. reflexivity.
Defined.

(** ** Truncation applied twice *)

(** X9. Truncation is idempotent: a text that has been truncated, marker
    included, is left as it is by a second truncation, so the three
    operations build the same messages for a text and for its
    truncation. *)
Theorem truncate_idempotent (text : str) :
  truncate (truncate text) = truncate text
  /\ (forall t, analyze_messages (truncate text) t = analyze_messages text t)
  /\ (forall q, answer_messages (truncate text) q = answer_messages text q)
  /\ key_points_messages (truncate text) = key_points_messages text.
Proof.
  assert (truncate (truncate text) = truncate text) as E.
  { destruct (N.le_gt_cases (len text) max_length) as [H | H].
    - rewrite (truncate_short text H). apply truncate_short, H.
    - rewrite (truncate_long text H).
      assert (length (slice_to max_length text) = N.to_nat max_length) as Hl.
      { unfold slice_to. rewrite length_take. unfold len in H. lia. }
      rewrite truncate_long.
      + unfold slice_to at 1. rewrite <- Hl, take_app_length. reflexivity.
      + rewrite len_app. unfold len at 1. rewrite Hl.
        rewrite truncation_marker_length. lia. }
  split; [exact E |].
  unfold analyze_messages, answer_messages, key_points_messages. rewrite E.
  repeat split.
Qed.

(** ** Which files [validate_pdf] accepts (lines 46-67 of [pdf_processor.py]) *)

(** X10. [validate_pdf] returns [True] exactly for a file that libmagic
    sniffs as application/pdf or, without libmagic, for a file whose name is
    guessed as PDF or which PyMuPDF can open. In that case nothing is
    logged and no document is left open. It never returns [False]: a file
    that is not accepted makes it raise. *)
Theorem validate_pdf_accepts (has_magic : bool) (f : file) (w : world) :
  ((validate_pdf has_magic f w).1 = Return true
   <-> if has_magic then magic_from_file f = inl pdf_mime
       else guess_type f = Some pdf_mime \/ exists doc, fitz_open f = inl doc)
  /\ ((validate_pdf has_magic f w).1 = Return true ->
      (validate_pdf has_magic f w).2 = w)
  /\ (validate_pdf has_magic f w).1 <> Return false.
Proof.
  destruct w as [ps lg od].
  unfold validate_pdf, try_except, bind, magic_from_file_, fitz_open_, doc_close.
  destruct has_magic.
  - destruct (magic_from_file f) as [t | e]; cbn.
    + unfold Str.eqb. destruct (bool_decide_reflect (t = pdf_mime)) as [-> | Ht]; cbn.
      * repeat split; discriminate.
      * repeat split; try discriminate. intros [= E]. contradiction.
    + rewrite isinstance_Exception. cbn. repeat split; discriminate.
  - destruct (bool_decide_reflect (guess_type f = Some pdf_mime)) as [Hg | Hg]; cbn.
    + repeat split; try discriminate. left. exact Hg.
    + destruct (fitz_open f) as [doc | e]; cbn.
      * repeat split; try discriminate. right. eauto.
      * rewrite !isinstance_Exception. cbn.
        repeat split; try discriminate. intros [? | [doc ?]]; [contradiction | discriminate].
Qed.

(** ** The text of a document (lines 69-88 of [pdf_processor.py]) *)

(** A page that the iteration over the document can load. *)
Definition loadable (p : page) : Prop :=
  match p with Page _ => True | Unloadable _ => False end.

(** The texts of the pages whose extraction returns, in page order. *)
Fixpoint page_texts (doc : list page) : list str :=
  match doc with
  | [] => []
  | Page (inl t) :: rest => t :: page_texts rest
  | _ :: rest => page_texts rest
  end.

(** One warning for each page whose extraction raises, with the number of
    the page counted from one; [page_num] is the index of the first page of
    [doc]. *)
Fixpoint page_warnings (doc : list page) (page_num : Z) : list log_record :=
  match doc with
  | [] => []
  | Page (inr e) :: rest =>
    Log WARNING (u "提取第" ++ str_of_int (page_num + 1) ++ u "页文本时出错: " ++ exn_str e)
      :: page_warnings rest (page_num + 1)
  | _ :: rest => page_warnings rest (page_num + 1)
  end.

Lemma pages_loop_loadable_app (before rest : list page) (n : Z) (acc : list str)
    (w : world) :
  Forall loadable before ->
  pages_loop (before ++ rest) n acc w
  = pages_loop rest (n + Z.of_nat (length before))%Z (acc ++ page_texts before)
      (World (posts w) (log w ++ page_warnings before n) (open_docs w)).
Proof.
  intros H. revert n acc w.
  induction H as [| p doc Hp _ IH]; intros n acc w.
  - cbn. rewrite !app_nil_r, Z.add_0_r. destruct w; reflexivity.
  - destruct p as [[t | e] | e]; [| | destruct Hp].
    + change ((Page (inl t) :: doc) ++ rest) with (map text_page [t] ++ doc ++ rest).
      rewrite pages_loop_text_pages, IH. cbn [length page_texts page_warnings map app].
      rewrite <- app_assoc. f_equal. lia.
    + cbn [app]. rewrite pages_loop_failing_page, IH.
      cbn [posts log open_docs page_texts page_warnings length].
      rewrite <- app_assoc. f_equal. lia.
Qed.

Lemma pages_loop_loadable (doc : list page) (n : Z) (acc : list str) (w : world) :
  Forall loadable doc ->
  pages_loop doc n acc w
  = (Return (acc ++ page_texts doc),
     World (posts w) (log w ++ page_warnings doc n) (open_docs w)).
Proof.
  intros H. rewrite <- (app_nil_r doc) at 1.
  rewrite (pages_loop_loadable_app doc [] n acc w H). reflexivity.
Qed.

(** X11. When the validation passes, the document opens and every page
    can be loaded, [extract_text] returns the texts of the pages whose
    extraction succeeds, in page order and joined by line breaks, and logs
    one warning for each page whose extraction raises, with its page
    number; this holds for any number of failing pages, all of them
    included. *)
Theorem extract_text_joins_pages (has_magic : bool) (f : file) (w w0 : world)
    (b : bool) (doc : list page) :
  validate_pdf has_magic f w = (Return b, w0) ->
  fitz_open f = inl doc ->
  Forall loadable doc ->
  extract_text has_magic f w
  = (Return (join [0x0A] (page_texts doc)),
     World (posts w0) (log w0 ++ page_warnings doc 0) (open_docs w0)).
Proof.
  intros Hv Ho Hd. unfold extract_text.
  unfold bind at 1. rewrite Hv. unfold fitz_open_. rewrite Ho.
  unfold try_finally, try_except. unfold bind at 1.
  rewrite (pages_loop_loadable doc 0 [] _ Hd). reflexivity.
Qed.

(** A document of four pages, the second and the fourth of which fail. *)
Definition four_pages : file :=
  {| magic_from_file := inl (u "application/pdf");
     guess_type := Some (u "application/pdf");
     fitz_open := inl [Page (inl (u "one")); Page (inr broken_page);
                       Page (inl (u "three")); Page (inr broken_page)] |}.

Lemma extract_text_joins_pages_witness :
  extract_text true four_pages fresh
  = (Return (u "one" ++ [0x0A] ++ u "three"),
     World [] [Log WARNING (u "提取第2页文本时出错: cannot load page contents");
               Log WARNING (u "提取第4页文本时出错: cannot load page contents")] 0).
Proof.
  rewrite (extract_text_joins_pages true four_pages fresh fresh true
             [Page (inl (u "one")); Page (inr broken_page);
              Page (inl (u "three")); Page (inr broken_page)]
             eq_refl eq_refl ltac:(repeat constructor)).
  vm_compute. reflexivity.
Defined.

(** X12. When the iteration over the document fails to load a page, after
    pages that could be loaded, [extract_text] raises the error of that
    page: the texts extracted so far are dropped, the error is logged after
    the warnings of the earlier pages, and the document is closed. *)
Theorem extract_text_unloadable_page (has_magic : bool) (f : file) (w w0 : world)
    (b : bool) (before after : list page) (e : exn) :
  validate_pdf has_magic f w = (Return b, w0) ->
  fitz_open f = inl (before ++ Unloadable e :: after) ->
  Forall loadable before ->
  extract_text has_magic f w
  = (Raise e,
     World (posts w0)
           (log w0 ++ page_warnings before 0 ++ [Log ERROR (u "文本提取失败: " ++ exn_str e)])
           (open_docs w0)).
Proof.
  intros Hv Ho Hd. unfold extract_text.
  unfold bind at 1. rewrite Hv. unfold fitz_open_. rewrite Ho.
  unfold try_finally, try_except. unfold bind at 1.
  rewrite (pages_loop_loadable_app before _ 0 [] _ Hd).
  cbn [pages_loop]. unfold raise. rewrite isinstance_Exception.
  cbn. rewrite <- app_assoc. reflexivity.
Qed.

Definition damaged : file :=
  {| magic_from_file := inl (u "application/pdf");
     guess_type := Some (u "application/pdf");
     fitz_open := inl [Page (inl (u "one")); Unloadable broken_page;
                       Page (inl (u "three"))] |}.

Lemma extract_text_unloadable_page_witness :
  extract_text true damaged fresh
  = (Raise broken_page,
     World [] [Log ERROR (u "文本提取失败: cannot load page contents")] 0).
Proof.
  rewrite (extract_text_unloadable_page true damaged fresh fresh true
             [Page (inl (u "one"))] [Page (inl (u "three"))] broken_page
             eq_refl eq_refl ltac:(repeat constructor)).
  vm_compute. reflexivity.
Defined.

(** ** The temporary directory (lines 18-44 and 95-108 of [pdf_processor.py]) *)

Section Cleanup.
Import Os.

Variable o : os.

(** The system after more log records and more changes of the file
    system. *)
Definition advanced (s : system) (records : list log_record) (effs : list effect)
    : system :=
  System (World (posts (sys_world s)) (log (sys_world s) ++ records)
                (open_docs (sys_world s)))
         (effects s ++ effs) (session_state s).

Lemma advanced_nil (s : system) : advanced s [] [] = s.
Proof.
  destruct s as [[ps lg od] effs ss]. unfold advanced. cbn. rewrite !app_nil_r.
  reflexivity.
Qed.

Lemma advanced_advanced (s : system) (r1 r2 : list log_record) (e1 e2 : list effect) :
  advanced (advanced s r1 e1) r2 e2 = advanced s (r1 ++ r2) (e1 ++ e2).
Proof. unfold advanced. cbn. rewrite !app_assoc. reflexivity. Qed.

Lemma logger_advanced (lv : level) (msg : str) (s : system) :
  Os.logger lv msg s = (Return tt, advanced s [Log lv msg] []).
Proof.
  unfold Os.logger, lift, Py.logger, advanced. cbn. rewrite app_nil_r. reflexivity.
Qed.

Lemma effect_advanced (s : system) (eff : effect) :
  System (sys_world s) (effects s ++ [eff]) (session_state s) = advanced s [] [eff].
Proof.
  destruct s as [[ps lg od] effs ss]. unfold advanced. cbn. rewrite app_nil_r.
  reflexivity.
Qed.

(** What the loop of [cleanup] does with one path: the change it makes
    and the warning it logs. *)
Definition removal (p : str) : list effect :=
  if isfile o p then match remove o p with None => [Remove p] | Some _ => [] end
  else [].

Definition removal_warning (p : str) : list log_record :=
  if isfile o p then
    match remove o p with
    | None => []
    | Some e => [Log WARNING (u "删除文件失败 " ++ p ++ u ": " ++ exn_str e)]
    end
  else [].

Lemma cleanup_loop (dir : str) (names : list str) (s : system) :
  for_each names
    (fun file =>
       let file_path := path_join dir file in
       Os.try_except
         (if isfile o file_path then os_remove o file_path else Os.ret tt)
         Exception
         (fun e =>
            Os.logger WARNING (u "删除文件失败 " ++ file_path ++ u ": " ++ exn_str e)))
    s
  = (Return tt,
     advanced s (flat_map removal_warning (map (path_join dir) names))
                (flat_map removal (map (path_join dir) names))).
Proof.
  revert s. induction names as [| name names IH]; intros s.
  - cbn. rewrite advanced_nil. reflexivity.
  - cbn [for_each map flat_map]. unfold Os.bind at 1. unfold Os.try_except at 1.
    unfold removal at 1, removal_warning at 1, os_remove, change.
    destruct (isfile o (path_join dir name)).
    + destruct (remove o (path_join dir name)) as [e |].
      * rewrite isinstance_Exception, logger_advanced, IH, advanced_advanced.
        reflexivity.
      * rewrite effect_advanced, IH, advanced_advanced. reflexivity.
    + unfold Os.ret. rewrite IH. reflexivity.
Qed.

Lemma removal_filter (paths : list str) :
  flat_map removal paths
  = map Remove (List.filter (fun p => isfile o p && bool_decide (remove o p = None)) paths).
Proof.
  induction paths as [| p paths IH]; [reflexivity |].
  cbn [flat_map List.filter]. rewrite IH. unfold removal.
  destruct (isfile o p); [| reflexivity].
  destruct (remove o p); reflexivity.
Qed.

Lemma cleanup_listed (self : PDFProcessor.PDFProcessor) (s : system)
    (names : list str) :
  listdir o (PDFProcessor.temp_dir self) = inl names ->
  PDFProcessor.cleanup o self s
  = (Return tt,
     advanced s
       (flat_map removal_warning (map (path_join (PDFProcessor.temp_dir self)) names)
          ++ [Log INFO (u "临时文件清理完成")])
       (flat_map removal (map (path_join (PDFProcessor.temp_dir self)) names))).
Proof.
  intros Hl. unfold PDFProcessor.cleanup. unfold Os.try_except at 1.
  unfold Os.bind at 1. unfold os_listdir. rewrite Hl. unfold Os.ret at 1.
  unfold Os.bind at 1.
  rewrite cleanup_loop, logger_advanced, advanced_advanced, app_nil_r.
  reflexivity.
Qed.

Lemma cleanup_unlisted (self : PDFProcessor.PDFProcessor) (s : system) (e : exn) :
  listdir o (PDFProcessor.temp_dir self) = inr e ->
  PDFProcessor.cleanup o self s
  = (Raise e, advanced s [Log ERROR (u "清理临时文件失败: " ++ exn_str e)] []).
Proof.
  intros Hl. unfold PDFProcessor.cleanup. unfold Os.try_except at 1.
  unfold Os.bind at 1. unfold os_listdir. rewrite Hl. unfold Os.raise at 1.
  rewrite isinstance_Exception. unfold Os.bind. rewrite logger_advanced. reflexivity.
Qed.

(** X13. When the temporary directory can be listed, [cleanup] returns:
    it removes the listed entries that are regular files and lets
    themselves be removed, and nothing else, so no directory and nothing
    outside the listing; an entry whose removal raises is logged as a
    warning and does not stop the loop. *)
Theorem cleanup_removes_regular_files (self : PDFProcessor.PDFProcessor) (s : system)
    (names : list str) :
  listdir o (PDFProcessor.temp_dir self) = inl names ->
  let paths := map (path_join (PDFProcessor.temp_dir self)) names in
  PDFProcessor.cleanup o self s
  = (Return tt,
     advanced s
       (flat_map removal_warning paths ++ [Log INFO (u "临时文件清理完成")])
       (map Remove
          (List.filter (fun p => isfile o p && bool_decide (remove o p = None)) paths))).
Proof.
  intros Hl paths. rewrite (cleanup_listed self s names Hl), removal_filter.
  reflexivity.
Qed.

(** X14. [cleanup] raises exactly when the temporary directory cannot be
    listed, and then with the error of the listing, which it logs; nothing
    has been removed. A file that cannot be removed never makes it
    raise. *)
Theorem cleanup_raises_on_listing_only (self : PDFProcessor.PDFProcessor) (s : system)
    (e : exn) :
  ((PDFProcessor.cleanup o self s).1 = Raise e
   <-> listdir o (PDFProcessor.temp_dir self) = inr e)
  /\ (listdir o (PDFProcessor.temp_dir self) = inr e ->
      PDFProcessor.cleanup o self s
      = (Raise e, advanced s [Log ERROR (u "清理临时文件失败: " ++ exn_str e)] [])).
Proof.
  split; [| apply cleanup_unlisted].
  destruct (listdir o (PDFProcessor.temp_dir self)) as [names | e'] eqn:Hl.
  - rewrite (cleanup_listed self s names Hl). split; discriminate.
  - rewrite (cleanup_unlisted self s e' Hl). cbn [fst]. split; congruence.
Qed.

End Cleanup.

(** A system in which nothing has happened yet. *)
Definition start : Os.system := Os.System fresh [] ∅.

(** An operating system for the examples: the temporary directory exists
    and holds two files, a locked file and a directory. *)
Definition tmp : str := u "/tmp/pdf_processor_temp".
Definition busy : exn := Exn OSError (u "[Errno 16] Device or resource busy") None.
Definition no_entry : exn := Exn OSError (u "[Errno 2] No such file or directory") None.

Definition example_os : Os.os :=
  {| Os.gettempdir := u "/tmp";
     Os.path_exists := fun p => bool_decide (p = tmp);
     Os.makedirs := fun _ => None;
     Os.open_w := fun _ => None;
     Os.file_write := fun _ _ => None;
     Os.file_write_bytes := fun _ _ => None;
     Os.file_close := fun _ => None;
     Os.remove :=
       fun p => if bool_decide (p = u "/tmp/pdf_processor_temp/locked.pdf")
                then Some busy else None;
     Os.mkdtemp := inl (u "/tmp/tmpab12cd");
     Os.named_temporary_file := inl (u "/tmp/tmpx1y2z3.pdf");
     Os.listdir :=
       fun p => if bool_decide (p = tmp)
                then inl [u "a.pdf"; u "sub"; u "locked.pdf"; u "b.txt"]
                else inr no_entry;
     Os.isfile := fun p => negb (bool_decide (p = u "/tmp/pdf_processor_temp/sub")) |}.

Lemma cleanup_removes_regular_files_witness :
  PDFProcessor.cleanup example_os {| PDFProcessor.temp_dir := tmp |} start
  = (Return tt,
     Os.System
       (World []
          [Log WARNING (u "删除文件失败 /tmp/pdf_processor_temp/locked.pdf: [Errno 16] Device or resource busy");
           Log INFO (u "临时文件清理完成")] 0)
       [Os.Remove (u "/tmp/pdf_processor_temp/a.pdf");
        Os.Remove (u "/tmp/pdf_processor_temp/b.txt")] ∅).
Proof.
  rewrite (cleanup_removes_regular_files example_os {| PDFProcessor.temp_dir := tmp |}
             start [u "a.pdf"; u "sub"; u "locked.pdf"; u "b.txt"]).
  - vm_compute. reflexivity.
  - vm_compute. reflexivity.
Defined.

Lemma cleanup_raises_on_listing_only_witness :
  PDFProcessor.cleanup example_os {| PDFProcessor.temp_dir := u "/nowhere" |} start
  = (Raise no_entry,
     Os.System
       (World [] [Log ERROR (u "清理临时文件失败: [Errno 2] No such file or directory")] 0)
       [] ∅).
Proof.
  rewrite (proj2 (cleanup_raises_on_listing_only example_os
                    {| PDFProcessor.temp_dir := u "/nowhere" |} start no_entry)).
  - vm_compute. reflexivity.
  - vm_compute. reflexivity.
Defined.

Section TempDir.
Import Os.

Variable o : os.

(** The file written and removed to probe a directory. *)
Definition probe (d : str) : str := path_join d (u "test_write.txt").

(** The directory is there, or can be made, and the probe file can be
    opened, written, closed and removed. *)
Definition usable (d : str) : bool :=
  (path_exists o d || bool_decide (makedirs o d = None))
  && bool_decide (open_w o (probe d) = None)
  && bool_decide (file_write o (probe d) (u "test") = None)
  && bool_decide (file_close o (probe d) = None)
  && bool_decide (remove o (probe d) = None).

(** What the probe leaves in the record of changes. *)
Definition probed (d : str) : list effect :=
  [Opened (probe d); Wrote (probe d) (u "test"); Closed (probe d); Remove (probe d)].

(** The directory a [PDFProcessor] asks for. *)
Definition requested (temp_dir_arg : option str) : str :=
  default (path_join (gettempdir o) (u "pdf_processor_temp")) temp_dir_arg.

Lemma ensure_temp_dir_usable (d : str) (s : system) :
  usable d = true ->
  PDFProcessor._ensure_temp_dir o {| PDFProcessor.temp_dir := d |} s
  = (Return {| PDFProcessor.temp_dir := d |},
     advanced s
       (if path_exists o d then [] else [Log INFO (u "创建临时目录: " ++ d)])
       ((if path_exists o d then [] else [Makedirs d]) ++ probed d)).
Proof.
  unfold usable, probed, probe. intros H.
  apply andb_prop in H as [H Hr]. apply andb_prop in H as [H Hc].
  apply andb_prop in H as [H Hw]. apply andb_prop in H as [Hd Ho].
  apply bool_decide_eq_true_1 in Hr, Hc, Hw, Ho.
  unfold PDFProcessor._ensure_temp_dir, Os.try_except, Os.bind, with_file, os_open_w,
    os_file_write, os_remove, os_makedirs, change. cbn [PDFProcessor.temp_dir].
  destruct (path_exists o d); cbn [negb].
  - unfold Os.ret at 1. rewrite Ho. cbn [sys_world effects session_state].
    rewrite Hw, Hc. cbn [sys_world effects session_state].
    rewrite Hr. unfold Os.ret. cbn [sys_world effects session_state].
    unfold advanced. rewrite app_nil_r, <- !app_assoc. destruct s as [[ps lg od] ef ss].
    reflexivity.
  - cbn [orb] in Hd. apply bool_decide_eq_true_1 in Hd. rewrite Hd.
    rewrite logger_advanced. cbn [advanced sys_world effects session_state].
    rewrite Ho. cbn [sys_world effects session_state].
    rewrite Hw, Hc. cbn [sys_world effects session_state].
    rewrite Hr. unfold Os.ret. cbn [sys_world effects session_state].
    unfold advanced. rewrite !app_nil_r, <- !app_assoc. reflexivity.
Qed.

Lemma ensure_temp_dir_fallback (d : str) (s : system) :
  usable d = false ->
  (PDFProcessor._ensure_temp_dir o {| PDFProcessor.temp_dir := d |} s).1
  = match mkdtemp o with
    | inl d' => Return {| PDFProcessor.temp_dir := d' |}
    | inr e => Raise e
    end.
Proof.
  unfold usable, probe. intros H.
  assert (forall e s1,
            (Os.bind (Os.logger ERROR (u "临时目录创建或权限测试失败: " ++ exn_str e))
               (fun _ =>
                  Os.bind (tempfile_mkdtemp o)
                    (fun d0 =>
                       Os.bind
                         (Os.logger INFO
                            (u "使用备用临时目录: "
                               ++ PDFProcessor.temp_dir {| PDFProcessor.temp_dir := d0 |}))
                         (fun _ => Os.ret {| PDFProcessor.temp_dir := d0 |}))) s1).1
            = match mkdtemp o with
              | inl d' => Return {| PDFProcessor.temp_dir := d' |}
              | inr e => Raise e
              end) as Hh.
  { intros e s1. unfold Os.bind. rewrite logger_advanced. unfold tempfile_mkdtemp.
    destruct (mkdtemp o) as [d' | e']; [| reflexivity].
    rewrite logger_advanced. reflexivity. }
  unfold PDFProcessor._ensure_temp_dir. unfold Os.try_except at 1.
  cbn [PDFProcessor.temp_dir].
  match goal with
  | |- context [match ?m s with _ => _ end] => destruct (m s) as [[v | e] s1] eqn:E
  end.
  - exfalso. revert E.
    unfold Os.bind, with_file, os_open_w, os_file_write, os_remove, os_makedirs, change.
    destruct (path_exists o d); cbn [negb orb] in *.
    + unfold Os.ret at 1.
      destruct (open_w o _); [discriminate |].
      destruct (file_write o _ _); [destruct (file_close o _); discriminate |].
      destruct (file_close o _); [discriminate |].
      destruct (remove o _); [discriminate |]. cbn in H. discriminate.
    + destruct (makedirs o d); [discriminate |]. rewrite logger_advanced.
      destruct (open_w o _); [discriminate |].
      destruct (file_write o _ _); [destruct (file_close o _); discriminate |].
      destruct (file_close o _); [discriminate |].
      destruct (remove o _); [discriminate |]. cbn in H. discriminate.
  - rewrite isinstance_Exception. apply Hh.
Qed.

(** X15. A [PDFProcessor] keeps the directory it asks for, the one given
    or [pdf_processor_temp] under the system's temporary directory, when
    that directory exists or can be made and a probe file can be opened,
    written, closed and removed there; the probe file is then gone. In
    every other case it moves to a directory made by [tempfile.mkdtemp],
    and the construction raises only if that fails too. *)
Theorem processor_directory (temp_dir_arg : option str) (s : system) :
  let d := requested temp_dir_arg in
  (usable d = true ->
   PDFProcessor.__init__ o temp_dir_arg s
   = (Return {| PDFProcessor.temp_dir := d |},
      advanced s
        ((if path_exists o d then [] else [Log INFO (u "创建临时目录: " ++ d)])
           ++ [Log INFO (u "使用临时目录: " ++ d)])
        ((if path_exists o d then [] else [Makedirs d]) ++ probed d)))
  /\ (usable d = false ->
      (PDFProcessor.__init__ o temp_dir_arg s).1
      = match mkdtemp o with
        | inl d' => Return {| PDFProcessor.temp_dir := d' |}
        | inr e => Raise e
        end).
Proof.
  intros d.
  assert (PDFProcessor.__init__ o temp_dir_arg
          = Os.bind (PDFProcessor._ensure_temp_dir o {| PDFProcessor.temp_dir := d |})
              (fun self =>
                 Os.bind (Os.logger INFO (u "使用临时目录: " ++ PDFProcessor.temp_dir self))
                   (fun _ => Os.ret self))) as ->.
  { unfold PDFProcessor.__init__, d, requested. destruct temp_dir_arg; reflexivity. }
  split; intros H.
  - unfold Os.bind at 1. rewrite (ensure_temp_dir_usable d s H).
    unfold Os.bind. rewrite logger_advanced, advanced_advanced, app_nil_r.
    reflexivity.
  - pose proof (ensure_temp_dir_fallback d s H) as Hf. unfold Os.bind at 1.
    destruct (PDFProcessor._ensure_temp_dir o {| PDFProcessor.temp_dir := d |} s)
      as [[self | e] s1]; cbn [fst] in Hf.
    + unfold Os.bind. rewrite logger_advanced. cbn [fst]. exact Hf.
    + exact Hf.
Qed.

End TempDir.

(** An operating system on which nothing can be written. *)
Definition read_only : exn := Exn OSError (u "[Errno 30] Read-only file system") None.

Definition read_only_os : Os.os :=
  {| Os.gettempdir := u "/tmp";
     Os.path_exists := fun _ => true;
     Os.makedirs := fun _ => Some read_only;
     Os.open_w := fun _ => Some read_only;
     Os.file_write := fun _ _ => Some read_only;
     Os.file_write_bytes := fun _ _ => Some read_only;
     Os.file_close := fun _ => None;
     Os.remove := fun _ => Some read_only;
     Os.mkdtemp := inr read_only;
     Os.named_temporary_file := inr read_only;
     Os.listdir := fun _ => inl [];
     Os.isfile := fun _ => false |}.

Lemma processor_directory_witness :
  (PDFProcessor.__init__ example_os None start).1
  = Return {| PDFProcessor.temp_dir := u "/tmp/pdf_processor_temp" |}
  /\ (PDFProcessor.__init__ read_only_os None start).1 = Raise read_only.
Proof.
  split.
  - rewrite (proj1 (processor_directory example_os None start)).
    + vm_compute. reflexivity.
    + vm_compute. reflexivity.
  - rewrite (proj2 (processor_directory read_only_os None start)).
    + reflexivity.
    + vm_compute. reflexivity.
Defined.

(** ** The session (lines 20-49 and 64-79 of [main.py]) *)

Section Session.
Import Os.

(** The four entries of the session. *)
Definition session_keys : list str :=
  [u "pdf_text"; u "current_tab"; u "api_key"; u "api_url"].

Lemma session_default_run (k : str) (v : json) (s : system) :
  Shell.session_default k v s
  = (Return tt,
     System (sys_world s) (effects s)
            (match session_state s !! k with
             | Some _ => session_state s
             | None => <[k := v]> (session_state s)
             end)).
Proof.
  unfold Shell.session_default, Os.bind, session_contains, session_set, Os.ret.
  destruct (session_state s !! k) as [x |] eqn:E.
  - rewrite bool_decide_eq_true_2 by eauto. destruct s; reflexivity.
  - rewrite bool_decide_eq_false_2 by (intros [x Hx]; discriminate). reflexivity.
Qed.

(** The session after [if k not in st.session_state: st.session_state.k = v]. *)
Definition with_default (k : str) (v : json) (m : gmap str json) : gmap str json :=
  match m !! k with
  | Some _ => m
  | None => <[k := v]> m
  end.

Lemma with_default_lookup (k : str) (v : json) (m : gmap str json) (k' : str) :
  with_default k v m !! k'
  = match m !! k' with
    | Some x => Some x
    | None => if bool_decide (k' = k) then Some v else None
    end.
Proof.
  unfold with_default. destruct (bool_decide_reflect (k' = k)) as [-> | Hne].
  - destruct (m !! k) eqn:E; [rewrite E; reflexivity |].
    rewrite lookup_insert_eq. reflexivity.
  - destruct (m !! k) eqn:E.
    + destruct (m !! k'); reflexivity.
    + rewrite lookup_insert_ne by congruence. destruct (m !! k'); reflexivity.
Qed.

Lemma init_session_state_run (env : environ) (s : system) :
  Shell.init_session_state env s
  = (Return tt,
     System (sys_world s) (effects s)
       (with_default (u "api_url")
          (JStr (Shell.getenv env (u "DEEPSEEK_API_URL")
                   (u "https://api.deepseek.com/v1/chat/completions")))
          (with_default (u "api_key") (JStr (Shell.getenv env (u "DEEPSEEK_API_KEY") []))
             (with_default (u "current_tab") (JStr (u "上传论文"))
                (with_default (u "pdf_text") JNull (session_state s)))))).
Proof.
  unfold Shell.init_session_state, Os.bind.
  rewrite !session_default_run. reflexivity.
Qed.

Lemma with_default_present (k : str) (v : json) (m : gmap str json) :
  is_Some (m !! k) -> with_default k v m = m.
Proof. unfold with_default. intros [x ->]. reflexivity. Qed.

Lemma with_default_keeps (k : str) (v : json) (m : gmap str json) (k' : str) (x : json) :
  m !! k' = Some x -> with_default k v m !! k' = Some x.
Proof. intros H. rewrite with_default_lookup, H. reflexivity. Qed.

Lemma with_default_sets (k : str) (v : json) (m : gmap str json) :
  is_Some (with_default k v m !! k).
Proof.
  rewrite with_default_lookup. destruct (m !! k); [eauto |].
  rewrite bool_decide_eq_true_2 by reflexivity. eauto.
Qed.

Lemma with_default_other (k : str) (v : json) (m : gmap str json) (k' : str) :
  k' <> k -> with_default k v m !! k' = m !! k'.
Proof.
  intros H. rewrite with_default_lookup, bool_decide_eq_false_2 by exact H.
  destruct (m !! k'); reflexivity.
Qed.

Lemma is_Some_with_default (k : str) (v : json) (m : gmap str json) (k' : str) :
  is_Some (m !! k') -> is_Some (with_default k v m !! k').
Proof. intros [x H]. exists x. apply with_default_keeps, H. Qed.

(** X16. [init_session_state] only fills in what is missing: an entry the
    session already has keeps its value, the four entries are there
    afterwards, a missing API key is taken from the environment (empty
    when unset), no other entry is touched, and running it a second time
    changes nothing. *)
Theorem init_session_state_fills_missing (env : environ) (s : system) :
  exists s',
    Shell.init_session_state env s = (Return tt, s')
    /\ sys_world s' = sys_world s /\ effects s' = effects s
    /\ (forall k v, session_state s !! k = Some v -> session_state s' !! k = Some v)
    /\ (forall k, k ∈ session_keys -> is_Some (session_state s' !! k))
    /\ (session_state s !! u "api_key" = None ->
        session_state s' !! u "api_key"
        = Some (JStr (default [] (env !! u "DEEPSEEK_API_KEY"))))
    /\ (forall k, k ∉ session_keys -> session_state s' !! k = session_state s !! k)
    /\ Shell.init_session_state env s' = (Return tt, s').
Proof.
  rewrite init_session_state_run. eexists. split; [reflexivity |].
  cbn [sys_world effects session_state].
  split; [reflexivity |]. split; [reflexivity |].
  split; [| split; [| split; [| split]]].
  - intros k v H. repeat apply with_default_keeps. exact H.
  - intros k Hk. apply list_elem_of_In in Hk.
    destruct Hk as [<- | [<- | [<- | [<- | []]]]].
    + do 3 apply is_Some_with_default. apply with_default_sets.
    + do 2 apply is_Some_with_default. apply with_default_sets.
    + apply is_Some_with_default, with_default_sets.
    + apply with_default_sets.
  - intros H. rewrite with_default_other by (vm_compute; discriminate).
    rewrite with_default_lookup.
    rewrite !with_default_other by (vm_compute; discriminate).
    rewrite H, bool_decide_eq_true_2 by reflexivity. reflexivity.
  - intros k Hk.
    rewrite !with_default_other; [reflexivity | | | |];
      intros ->; apply Hk, list_elem_of_In; cbn [In session_keys]; auto 10.
  - rewrite init_session_state_run. cbn [sys_world effects session_state].
    rewrite (with_default_present (u "pdf_text"))
      by (do 3 apply is_Some_with_default; apply with_default_sets).
    rewrite (with_default_present (u "current_tab"))
      by (do 2 apply is_Some_with_default; apply with_default_sets).
    rewrite (with_default_present (u "api_key"))
      by (apply is_Some_with_default, with_default_sets).
    rewrite (with_default_present (u "api_url")) by apply with_default_sets.
    reflexivity.
Qed.

End Session.

(** ** The client of a run (lines 44-49 of [main.py]) *)

(** X17. [initialize_api] never raises: it returns [None] exactly when
    the environment holds no API key or an empty one, and otherwise the
    client that carries the key; nothing is logged, posted or changed. *)
Theorem initialize_api_none_without_key (env : environ) (s : Os.system) :
  exists api,
    Shell.initialize_api env s = (Return api, s)
    /\ (api = None
        <-> env !! u "DEEPSEEK_API_KEY" = None \/ env !! u "DEEPSEEK_API_KEY" = Some [])
    /\ (forall self, api = Some self ->
                     env !! u "DEEPSEEK_API_KEY" = Some (api_key self)).
Proof.
  unfold Shell.initialize_api, Os.try_except, Os.bind, Os.lift, __init__.
  destruct s as [w effs ss]. cbn [Os.sys_world Os.effects Os.session_state].
  destruct (env !! u "DEEPSEEK_API_KEY") as [[| k0 k] |]; cbn.
  - exists None. repeat split; try discriminate; auto.
  - eexists. split; [reflexivity |]. split.
    + split; [discriminate | intros [? | ?]; discriminate].
    + intros self [= <-]. reflexivity.
  - exists None. repeat split; try discriminate; auto.
Qed.

(** ** The processing of an upload (lines 64-79 of [main.py]) *)

(** The result of [extract_text] does not depend on the world it starts
    from. *)
Lemma validate_pdf_result (has_magic : bool) (f : file) (w w' : world) :
  (validate_pdf has_magic f w).1 = (validate_pdf has_magic f w').1.
Proof.
  unfold validate_pdf, try_except, bind, magic_from_file_, fitz_open_, doc_close.
  destruct has_magic.
  - destruct (magic_from_file f) as [t | e]; cbn.
    + destruct (negb (Str.eqb t pdf_mime)); cbn; reflexivity.
    + rewrite isinstance_Exception. reflexivity.
  - destruct (negb (bool_decide (guess_type f = Some pdf_mime))); cbn; [| reflexivity].
    destruct (fitz_open f) as [doc | e]; cbn; [reflexivity |].
    rewrite !isinstance_Exception. reflexivity.
Qed.

Lemma pages_loop_result (doc : list page) (n : Z) (acc : list str) (w w' : world) :
  (pages_loop doc n acc w).1 = (pages_loop doc n acc w').1.
Proof.
  revert n acc w w'. induction doc as [| p doc IH]; intros n acc w w'; [reflexivity |].
  destruct p as [[t | e] | e]; [| | reflexivity].
  - change (Page (inl t) :: doc) with (map text_page [t] ++ doc).
    rewrite !pages_loop_text_pages. apply IH.
  - rewrite !pages_loop_failing_page. apply IH.
Qed.

Lemma extract_text_fst (has_magic : bool) (f : file) (w w2 : world) :
  (extract_text has_magic f w).1
  = match (validate_pdf has_magic f w).1 with
    | Raise e => Raise e
    | Return _ =>
      match fitz_open f with
      | inr e => Raise e
      | inl doc =>
        match (pages_loop doc 0 [] w2).1 with
        | Return texts => Return (join [0x0A] texts)
        | Raise e => Raise e
        end
      end
    end.
Proof.
  unfold extract_text. unfold bind at 1.
  destruct (validate_pdf has_magic f w) as [[b | e] w0]; cbn [fst].
  - unfold fitz_open_. destruct (fitz_open f) as [doc | e].
    + unfold try_finally, try_except. unfold bind at 1.
      pose proof (pages_loop_result doc 0 []
                    (World (posts w0) (log w0) (S (open_docs w0))) w2) as Hp.
      destruct (pages_loop doc 0 [] (World (posts w0) (log w0) (S (open_docs w0))))
        as [[ts | e] w1]; cbn [fst] in Hp; rewrite <- Hp.
      * reflexivity.
      * rewrite isinstance_Exception. reflexivity.
    + rewrite isinstance_Exception. reflexivity.
  - rewrite isinstance_Exception. reflexivity.
Qed.

Lemma extract_text_result (has_magic : bool) (f : file) (w w' : world) :
  (extract_text has_magic f w).1 = (extract_text has_magic f w').1.
Proof.
  rewrite (extract_text_fst has_magic f w fresh), (extract_text_fst has_magic f w' fresh).
  rewrite (validate_pdf_result has_magic f w w'). reflexivity.
Qed.

Section ProcessPdf.
Import Os.

Variable o : os.
Variable has_magic : bool.
Variable file_at : str -> file.
Variable pdf_processor : PDFProcessor.PDFProcessor.
Variable format_exc : exn -> str.

(** The guarded [cleanup] of lines 68-71 returns, whatever [cleanup]
    does, and leaves the session as it is. *)
Lemma guarded_cleanup (s : system) :
  exists s1,
    Os.try_except (PDFProcessor.cleanup o pdf_processor) Exception
      (fun e => Os.logger WARNING (u "清理临时目录失败: " ++ exn_str e)) s
    = (Return tt, s1)
    /\ session_state s1 = session_state s.
Proof.
  unfold Os.try_except at 1.
  destruct (listdir o (PDFProcessor.temp_dir pdf_processor)) as [names | e] eqn:Hl.
  - rewrite (cleanup_listed o pdf_processor s names Hl).
    eexists. split; reflexivity.
  - rewrite (cleanup_unlisted o pdf_processor s e Hl), isinstance_Exception.
    rewrite logger_advanced. eexists. split; reflexivity.
Qed.

(** X18. [process_pdf] never raises, whatever [cleanup], the validation
    and the PDF library do. It returns [True] exactly when [extract_text]
    returns a text, which is then the [pdf_text] of the session; when
    [extract_text] raises it returns [False] and the session keeps what it
    had, the text of an earlier document included. A failing [cleanup]
    changes nothing of this. *)
Theorem process_pdf_outcome (file_path : str) (s : system) :
  (forall text,
     (extract_text has_magic (file_at file_path) (sys_world s)).1 = Return text ->
     exists s',
       Shell.process_pdf o has_magic file_at pdf_processor format_exc file_path s
       = (Return true, s')
       /\ session_state s' = <[u "pdf_text" := JStr text]> (session_state s))
  /\ (forall e,
        (extract_text has_magic (file_at file_path) (sys_world s)).1 = Raise e ->
        exists s',
          Shell.process_pdf o has_magic file_at pdf_processor format_exc file_path s
          = (Return false, s')
          /\ session_state s' = session_state s).
Proof.
  destruct (guarded_cleanup s) as (s1 & E & Hs).
  pose proof (extract_text_result has_magic (file_at file_path) (sys_world s1)
                (sys_world s)) as Hr.
  split.
  - intros text H. rewrite H in Hr.
    unfold Shell.process_pdf. unfold Os.try_except at 1. unfold Os.bind at 1.
    rewrite E. unfold Os.bind at 1. unfold lift at 1.
    destruct (extract_text has_magic (file_at file_path) (sys_world s1))
      as [[t | e] w1]; cbn [fst] in Hr; [| discriminate].
    injection Hr as ->. unfold Os.bind, session_set, Os.ret.
    cbn [sys_world effects session_state]. eexists. split; [reflexivity |].
    cbn [session_state]. rewrite Hs. reflexivity.
  - intros e H. rewrite H in Hr.
    unfold Shell.process_pdf. unfold Os.try_except at 1. unfold Os.bind at 1.
    rewrite E. unfold Os.bind at 1. unfold lift at 1.
    destruct (extract_text has_magic (file_at file_path) (sys_world s1))
      as [[t | e'] w1]; cbn [fst] in Hr; [discriminate |].
    injection Hr as ->. rewrite isinstance_Exception.
    unfold Os.bind. rewrite !logger_advanced. unfold Os.ret.
    eexists. split; [reflexivity |]. cbn [advanced session_state]. exact Hs.
Qed.

End ProcessPdf.

Lemma process_pdf_outcome_witness :
  (exists s',
     Shell.process_pdf example_os true (fun _ => three_pages)
       {| PDFProcessor.temp_dir := tmp |} (fun _ => []) (u "/tmp/upload.pdf") start
     = (Return true, s')
     /\ Os.session_state s' = {[ u "pdf_text" := JStr (u "one" ++ [0x0A] ++ u "three") ]})
  /\ (exists s',
        Shell.process_pdf example_os true (fun _ => text_file)
          {| PDFProcessor.temp_dir := tmp |} (fun _ => []) (u "/tmp/upload.pdf") start
        = (Return false, s')
        /\ Os.session_state s' = ∅).
Proof.
  split.
  - apply (proj1 (process_pdf_outcome example_os true (fun _ => three_pages)
                    {| PDFProcessor.temp_dir := tmp |} (fun _ => [])
                    (u "/tmp/upload.pdf") start)).
    vm_compute. reflexivity.
  - apply (proj2 (process_pdf_outcome example_os true (fun _ => text_file)
                    {| PDFProcessor.temp_dir := tmp |} (fun _ => [])
                    (u "/tmp/upload.pdf") start)
             (Exn ValueError (u "无效的文件类型: text/plain") None)).
    vm_compute. reflexivity.
Defined.

(** ** Saving the configuration and the upload (lines 31-42 and 54-62 of [main.py]) *)

Section Saving.
Import Os.

Variable o : os.

(** The two lines of the configuration file. *)
Definition key_line (api_key : str) : str := u "DEEPSEEK_API_KEY=" ++ api_key ++ [0x0A].
Definition url_line (api_url : str) : str := u "DEEPSEEK_API_URL=" ++ api_url ++ [0x0A].

(** The file can be opened, both lines written, and the file closed. *)
Definition saved (api_key api_url : str) : bool :=
  bool_decide (open_w o (u ".env") = None)
  && bool_decide (file_write o (u ".env") (key_line api_key) = None)
  && bool_decide (file_write o (u ".env") (url_line api_url) = None)
  && bool_decide (file_close o (u ".env") = None).

Lemma opened_recorded (l l' : list effect) (p : str) : Opened p ∈ l ++ Opened p :: l'.
Proof. apply elem_of_app. right. apply elem_of_cons. left. reflexivity. Qed.

(** X21. [save_api_config] never raises. When the file can be opened,
    written and closed it returns [True], the file holds the two lines, and
    the session holds the new key and URL. In every other case it returns
    [False] and the session keeps its credentials; but when the file could
    be opened it has been emptied all the same. *)
Theorem save_api_config_outcome (api_key api_url : str) (s : system) :
  (saved api_key api_url = true ->
   Shell.save_api_config o api_key api_url s
   = (Return true,
      System (sys_world s)
        (effects s ++ [Opened (u ".env"); Wrote (u ".env") (key_line api_key);
                       Wrote (u ".env") (url_line api_url); Closed (u ".env")])
        (<[u "api_url" := JStr api_url]>
           (<[u "api_key" := JStr api_key]> (session_state s)))))
  /\ (saved api_key api_url = false ->
      exists s',
        Shell.save_api_config o api_key api_url s = (Return false, s')
        /\ session_state s' = session_state s
        /\ (open_w o (u ".env") = None -> Opened (u ".env") ∈ effects s')).
Proof.
  unfold saved, Shell.save_api_config, Os.try_except, Os.bind, with_file, os_open_w,
    os_file_write, change, session_set, Os.ret.
  fold (key_line api_key). fold (url_line api_url).
  destruct (open_w o (u ".env")) as [e0 |]; cbn [bool_decide andb].
  { split; [discriminate | intros _]. rewrite isinstance_Exception, logger_advanced.
    eexists. split; [reflexivity |]. split; [reflexivity | discriminate]. }
  rewrite bool_decide_eq_true_2 by reflexivity. cbn [andb sys_world effects session_state].
  destruct (file_write o (u ".env") (key_line api_key)) as [e1 |].
  { split; [rewrite bool_decide_eq_false_2 by discriminate; discriminate | intros _].
    destruct (file_close o (u ".env")) as [e3 |];
      rewrite isinstance_Exception, logger_advanced;
      (eexists; split; [reflexivity |]; split; [reflexivity | intros _]);
      cbn [advanced effects]; rewrite ?app_nil_r, <- ?app_assoc; cbn [app];
      apply opened_recorded. }
  rewrite bool_decide_eq_true_2 by reflexivity. cbn [andb sys_world effects session_state].
  destruct (file_write o (u ".env") (url_line api_url)) as [e2 |].
  { split; [rewrite bool_decide_eq_false_2 by discriminate; discriminate | intros _].
    destruct (file_close o (u ".env")) as [e3 |];
      rewrite isinstance_Exception, logger_advanced;
      (eexists; split; [reflexivity |]; split; [reflexivity | intros _]);
      cbn [advanced effects]; rewrite ?app_nil_r, <- ?app_assoc; cbn [app];
      apply opened_recorded. }
  rewrite bool_decide_eq_true_2 by reflexivity. cbn [andb sys_world effects session_state].
  destruct (file_close o (u ".env")) as [e3 |].
  { split; [rewrite bool_decide_eq_false_2 by discriminate; discriminate | intros _].
    rewrite isinstance_Exception, logger_advanced.
    eexists. split; [reflexivity |]. split; [reflexivity | intros _].
    cbn [advanced effects]. rewrite ?app_nil_r, <- ?app_assoc. cbn [app].
    apply opened_recorded. }
  split; [intros _ | rewrite bool_decide_eq_true_2 by reflexivity; discriminate].
  rewrite <- !app_assoc. reflexivity.
Qed.

(** X22. [save_uploaded_file] never raises. It returns the path of the
    temporary copy when the copy can be created, written and closed, and
    [None] in every other case, after logging the error; a copy that was
    created and could not be written or closed is not removed. *)
Theorem save_uploaded_file_outcome (data : list N) (s : system) :
  (forall name,
     named_temporary_file o = inl name ->
     file_write_bytes o name data = None ->
     file_close o name = None ->
     Shell.save_uploaded_file o data s
     = (Return (Some name),
        advanced s [] [Created name; WroteBytes name data; Closed name]))
  /\ (forall name,
        named_temporary_file o = inl name ->
        file_write_bytes o name data <> None \/ file_close o name <> None ->
        exists s',
          Shell.save_uploaded_file o data s = (Return None, s')
          /\ Created name ∈ effects s'
          /\ (Remove name ∈ effects s' -> Remove name ∈ effects s))
  /\ (forall e,
        named_temporary_file o = inr e ->
        Shell.save_uploaded_file o data s
        = (Return None, advanced s [Log ERROR (u "保存文件失败: " ++ exn_str e)] [])).
Proof.
  unfold Shell.save_uploaded_file, Os.try_except, Os.bind, with_file, tempfile_named,
    os_file_write_bytes, change, Os.ret.
  split; [| split].
  - intros name -> Hw Hc. cbn [sys_world effects session_state].
    rewrite Hw. cbn [sys_world effects session_state]. rewrite Hc.
    unfold advanced. cbn [sys_world effects session_state].
    rewrite app_nil_r, <- !app_assoc. destruct s as [[ps lg od] ef ss]. reflexivity.
  - intros name -> H. cbn [sys_world effects session_state].
    assert (forall l : list effect,
              (forall x, x ∈ l -> x <> Remove name) ->
              Created name ∈ effects s ++ Created name :: l
              /\ (Remove name ∈ effects s ++ Created name :: l -> Remove name ∈ effects s))
      as Hl.
    { intros l Hne. split.
      - apply elem_of_app. right. apply elem_of_cons. left. reflexivity.
      - intros Hin. apply elem_of_app in Hin as [Hin | Hin]; [exact Hin |].
        apply elem_of_cons in Hin as [Hin | Hin]; [discriminate |].
        exfalso. exact (Hne _ Hin eq_refl). }
    destruct (file_write_bytes o name data) as [e1 |].
    + destruct (file_close o name) as [e2 |];
        rewrite isinstance_Exception, logger_advanced;
        (eexists; split; [reflexivity |]);
        cbn [advanced effects]; rewrite ?app_nil_r, <- ?app_assoc; cbn [app];
        apply Hl; intros x Hx.
      * inversion Hx.
      * apply elem_of_cons in Hx as [-> | Hx]; [discriminate | inversion Hx].
    + destruct (file_close o name) as [e2 |]; [| destruct H; congruence].
      cbn [sys_world effects session_state].
      rewrite isinstance_Exception, logger_advanced.
      eexists. split; [reflexivity |].
      cbn [advanced effects]. rewrite ?app_nil_r, <- ?app_assoc. cbn [app].
      apply Hl. intros x Hx.
      apply elem_of_cons in Hx as [-> | Hx]; [discriminate | inversion Hx].
  - intros e ->. rewrite isinstance_Exception, logger_advanced. reflexivity.
Qed.

End Saving.

(** An operating system whose disk fills up while a file is written. *)
Definition no_space : exn := Exn OSError (u "[Errno 28] No space left on device") None.

Definition full_disk_os : Os.os :=
  {| Os.gettempdir := u "/tmp";
     Os.path_exists := fun _ => true;
     Os.makedirs := fun _ => None;
     Os.open_w := fun _ => None;
     Os.file_write := fun _ _ => Some no_space;
     Os.file_write_bytes := fun _ _ => Some no_space;
     Os.file_close := fun _ => None;
     Os.remove := fun _ => None;
     Os.mkdtemp := inl (u "/tmp/tmpab12cd");
     Os.named_temporary_file := inl (u "/tmp/tmpx1y2z3.pdf");
     Os.listdir := fun _ => inl [];
     Os.isfile := fun _ => false |}.

Lemma save_api_config_outcome_witness :
  (Shell.save_api_config example_os (u "sk-new") (u "https://example.org/v1") start).1
  = Return true
  /\ exists s',
       Shell.save_api_config full_disk_os (u "sk-new") (u "https://example.org/v1") start
       = (Return false, s')
       /\ Os.session_state s' = ∅
       /\ Os.Opened (u ".env") ∈ Os.effects s'.
Proof.
  split.
  - rewrite (proj1 (save_api_config_outcome example_os (u "sk-new")
                      (u "https://example.org/v1") start)); reflexivity.
  - destruct (proj2 (save_api_config_outcome full_disk_os (u "sk-new")
                       (u "https://example.org/v1") start) eq_refl)
      as (s' & E & Hs & Ho).
    exists s'. split; [exact E |]. split; [exact Hs | exact (Ho eq_refl)].
Defined.

Lemma save_uploaded_file_outcome_witness :
  (Shell.save_uploaded_file example_os [0x25; 0x50; 0x44; 0x46] start).1
  = Return (Some (u "/tmp/tmpx1y2z3.pdf"))
  /\ exists s',
       Shell.save_uploaded_file full_disk_os [0x25; 0x50; 0x44; 0x46] start
       = (Return None, s')
       /\ Os.Created (u "/tmp/tmpx1y2z3.pdf") ∈ Os.effects s'.
Proof.
  split.
  - rewrite (proj1 (save_uploaded_file_outcome example_os [0x25; 0x50; 0x44; 0x46] start)
               (u "/tmp/tmpx1y2z3.pdf") eq_refl eq_refl eq_refl).
    reflexivity.
  - destruct (proj1 (proj2 (save_uploaded_file_outcome full_disk_os
                              [0x25; 0x50; 0x44; 0x46] start))
                (u "/tmp/tmpx1y2z3.pdf") eq_refl ltac:(left; discriminate))
      as (s' & E & Hc & _).
    exists s'. split; [exact E | exact Hc].
Defined.

(** ** When the download can be built (line 178 of [main.py]) *)

(** A surrogate code point, which UTF-8 cannot encode. *)
Definition is_surrogate (x : char) : bool := (0xD800 <=? x) && (x <=? 0xDFFF).

(** A text without surrogates. *)
Definition plain (s : str) : Prop := forallb (fun x => negb (is_surrogate x)) s = true.

(** No string of the value, keys included, holds a surrogate. *)
Fixpoint surrogate_free (v : json) : Prop :=
  match v with
  | JStr s => plain s
  | JArr items =>
    (fix all (l : list json) : Prop :=
       match l with
       | [] => True
       | x :: l' => surrogate_free x /\ all l'
       end) items
  | JObj items =>
    (fix all (l : list (str * json)) : Prop :=
       match l with
       | [] => True
       | kv :: l' => (plain kv.1 /\ surrogate_free kv.2) /\ all l'
       end) items
  | _ => True
  end.

Lemma surrogate_free_arr (items : list json) :
  surrogate_free (JArr items) <-> Forall surrogate_free items.
Proof.
  cbn [surrogate_free]. induction items as [| x items IH].
  - split; [constructor | trivial].
  - rewrite Forall_cons, <- IH. reflexivity.
Qed.

Lemma surrogate_free_obj (items : list (str * json)) :
  surrogate_free (JObj items)
  <-> Forall (fun kv => plain kv.1 /\ surrogate_free kv.2) items.
Proof.
  cbn [surrogate_free]. induction items as [| x items IH].
  - split; [constructor | trivial].
  - rewrite Forall_cons, <- IH. reflexivity.
Qed.

Lemma plain_app (a b : str) : plain (a ++ b) <-> plain a /\ plain b.
Proof. unfold plain. rewrite forallb_app, andb_true_iff. reflexivity. Qed.

Lemma plain_cons (x : char) (s : str) :
  plain (x :: s) <-> is_surrogate x = false /\ plain s.
Proof.
  unfold plain. cbn [forallb]. rewrite andb_true_iff, negb_true_iff. reflexivity.
Qed.

Lemma utf8_char_surrogate (x : char) :
  is_Some (utf8_char x) <-> is_surrogate x = false.
Proof.
  unfold utf8_char, is_surrogate.
  destruct (N.ltb_spec x 0x80).
  { split; [intros _ | eauto]. apply andb_false_iff. left. apply N.leb_gt. lia. }
  destruct (N.ltb_spec x 0x800).
  { split; [intros _ | eauto]. apply andb_false_iff. left. apply N.leb_gt. lia. }
  destruct (N.ltb_spec x 0x10000).
  { destruct ((0xD800 <=? x) && (x <=? 0xDFFF)); split; eauto; try discriminate.
    intros [? [=]]. }
  split; [intros _ | eauto]. apply andb_false_iff. right. apply N.leb_gt. lia.
Qed.

(** [str.encode('utf-8')] raises exactly on a text with a surrogate. *)
Lemma encode_utf8_plain (s : str) : is_Some (encode_utf8 s) <-> plain s.
Proof.
  induction s as [| x s IH]; [split; [reflexivity | eauto] |].
  rewrite plain_cons, <- IH, <- utf8_char_surrogate. cbn [encode_utf8].
  destruct (utf8_char x), (encode_utf8 s);
    (split;
     [ intros [? H]; try discriminate H; split; eauto
     | intros [[? H1] [? H2]]; try discriminate H1; try discriminate H2; eauto ]).
Qed.

Lemma plain_replicate (n : nat) (x : char) :
  is_surrogate x = false -> plain (replicate n x).
Proof.
  intros H. induction n as [| n IH]; [reflexivity |].
  cbn [replicate]. apply plain_cons. split; assumption.
Qed.

Lemma plain_newline_indent (level : nat) : plain (newline_indent level).
Proof.
  unfold newline_indent. apply plain_cons. split; [reflexivity |].
  apply plain_replicate. reflexivity.
Qed.

Lemma plain_escape_char (x : char) : plain (escape_char x) <-> is_surrogate x = false.
Proof.
  destruct (is_surrogate x) eqn:Hs.
  - assert (0xD800 <= x) as Hx.
    { unfold is_surrogate in Hs. apply andb_prop in Hs as [H _]. apply N.leb_le, H. }
    rewrite escape_char_plain by (try apply N.ltb_ge; lia).
    rewrite plain_cons, Hs. split; [intros [H _]; exact H | discriminate].
  - split; [reflexivity | intros _].
    destruct (x <? 0x20) eqn:H.
    + clear Hs. destruct x as [| p]; [reflexivity |].
      do 5 (destruct p as [p | p |]; try reflexivity);
        exfalso; revert H; clear; intros H; apply N.ltb_lt in H; lia.
    + destruct (N.eqb_spec x 0x22) as [-> | H1]; [reflexivity |].
      destruct (N.eqb_spec x 0x5C) as [-> | H2]; [reflexivity |].
      rewrite escape_char_plain by assumption. apply plain_cons. split; [exact Hs | reflexivity].
Qed.

Lemma plain_escape (s : str) : plain (escape s) <-> plain s.
Proof.
  induction s as [| x s IH]; [reflexivity |].
  cbn [escape]. rewrite plain_app, plain_cons, IH, plain_escape_char. reflexivity.
Qed.

Lemma plain_encode_basestring (s : str) : plain (encode_basestring s) <-> plain s.
Proof.
  unfold encode_basestring. rewrite !plain_app, plain_escape.
  split; [tauto | intros H; split; [reflexivity | split; [exact H | reflexivity]]].
Qed.

Lemma plain_digits (ds : str) : forallb is_digit ds = true -> plain ds.
Proof.
  induction ds as [| x ds IH]; [reflexivity |]. cbn [forallb].
  intros H. apply andb_prop in H as [Hx Hd]. apply plain_cons. split; [| exact (IH Hd)].
  unfold is_digit in Hx. apply andb_prop in Hx as [_ Hx]. apply N.leb_le in Hx.
  unfold is_surrogate. apply andb_false_iff. left. apply N.leb_gt. lia.
Qed.

Lemma plain_str_of_int (z : Z) : plain (str_of_int z).
Proof.
  destruct z as [| p | p]; unfold str_of_int; [reflexivity | |].
  - apply plain_digits, str_of_uint_digits.
  - apply plain_cons. split; [reflexivity |]. apply plain_digits, str_of_uint_digits.
Qed.

Lemma plain_join (sep : str) (parts : list str) :
  plain sep -> (plain (join sep parts) <-> Forall plain parts).
Proof.
  intros Hs. induction parts as [| p parts IH].
  - split; [constructor | reflexivity].
  - rewrite join_cons, Forall_cons, plain_app, <- IH.
    destruct parts as [| q parts]; [split; [intros [H _]; split; [exact H | reflexivity] | tauto] |].
    rewrite plain_app. tauto.
Qed.

Section Download.

Variable float_repr : str -> str.

Lemma plain_iterencode (v : json) :
  float_free v ->
  forall level, plain (iterencode float_repr v level) <-> surrogate_free v.
Proof.
  induction v as [| b | z | lit | s | items IH | items IH] using json_induction;
    intros Hf level.
  - split; reflexivity.
  - destruct b; split; reflexivity.
  - split; [reflexivity | intros _; apply plain_str_of_int].
  - destruct Hf.
  - apply plain_encode_basestring.
  - destruct items as [| x items]; [split; reflexivity |].
    rewrite enc_arr, surrogate_free_arr. apply float_free_arr in Hf.
    rewrite !plain_app, plain_join
      by (unfold item_sep; apply plain_cons; split; [reflexivity | apply plain_newline_indent]).
    rewrite Forall_map.
    assert (Forall (fun y => plain (iterencode float_repr y (S level))) (x :: items)
            <-> Forall surrogate_free (x :: items)) as E.
    { rewrite !Forall_forall. split; intros H y Hy.
      - apply (proj1 (Forall_forall _ _) IH y Hy (proj1 (Forall_forall _ _) Hf y Hy) (S level)).
        exact (H y Hy).
      - apply (proj1 (Forall_forall _ _) IH y Hy (proj1 (Forall_forall _ _) Hf y Hy) (S level)).
        exact (H y Hy). }
    rewrite <- E. pose proof (plain_newline_indent (S level)).
    pose proof (plain_newline_indent level).
    split; [tauto | intros He].
    split; [reflexivity |]. split; [assumption |]. split; [assumption |].
    split; [assumption | reflexivity].
  - destruct items as [| kv items]; [split; reflexivity |].
    rewrite enc_obj, surrogate_free_obj. apply float_free_obj in Hf.
    rewrite !plain_app, plain_join
      by (unfold item_sep; apply plain_cons; split; [reflexivity | apply plain_newline_indent]).
    rewrite Forall_map.
    assert (Forall (fun y => plain (member float_repr (S level) y)) (kv :: items)
            <-> Forall (fun y => plain y.1 /\ surrogate_free y.2) (kv :: items)) as E.
    { rewrite !Forall_forall. split; intros H y Hy; specialize (H y Hy).
      - unfold member in H. rewrite !plain_app, plain_encode_basestring in H.
        destruct H as (Hk & _ & Hv). split; [exact Hk |].
        apply (proj1 (Forall_forall _ _) IH y Hy (proj1 (Forall_forall _ _) Hf y Hy) (S level)).
        exact Hv.
      - unfold member. rewrite !plain_app, plain_encode_basestring.
        destruct H as [Hk Hv]. split; [exact Hk |]. split; [reflexivity |].
        apply (proj1 (Forall_forall _ _) IH y Hy (proj1 (Forall_forall _ _) Hf y Hy) (S level)).
        exact Hv. }
    rewrite <- E. pose proof (plain_newline_indent (S level)).
    pose proof (plain_newline_indent level).
    split; [tauto | intros He].
    split; [reflexivity |]. split; [assumption |]. split; [assumption |].
    split; [assumption | reflexivity].
Qed.

(** X20. For a result without floats the bytes of the download exist
    exactly when no string of the result, keys included, holds a surrogate
    code point: the export writes the strings as they are
    ([ensure_ascii=False]), and the encoding to UTF-8 raises on a
    surrogate, which a reply can bring in with an escape that has no
    partner. *)
Theorem export_data_defined (key_points : json) :
  float_free key_points ->
  (is_Some (Main.export_data float_repr key_points) <-> surrogate_free key_points).
Proof.
  intros Hf. unfold Main.export_data, Main.export_json_str, dumps.
  rewrite encode_utf8_plain. apply plain_iterencode, Hf.
Qed.

End Download.

(** A title that is one half of a surrogate pair, as [json.loads] reads
    it from an escape without its partner. *)
Lemma export_data_defined_witness :
  Main.export_data (fun lit => lit) (JObj [(u "title", JStr [0xD83D])]) = None
  /\ is_Some (Main.export_data (fun lit => lit) (JObj [(u "title", JStr (u "T"))])).
Proof.
  split.
  - pose proof (export_data_defined (fun lit => lit) (JObj [(u "title", JStr [0xD83D])])
                  ltac:(cbn; tauto)) as H.
    destruct (Main.export_data (fun lit => lit) (JObj [(u "title", JStr [0xD83D])]))
      as [data |]; [| reflexivity].
    exfalso. destruct (proj1 H ltac:(eauto)) as [[_ Hs] _]. vm_compute in Hs.
    discriminate.
  - apply (export_data_defined (fun lit => lit) (JObj [(u "title", JStr (u "T"))])
             ltac:(cbn; tauto)).
    cbn [surrogate_free fst snd]. repeat split; vm_compute; reflexivity.
Defined.
